(** * CodeAnalyzer: function-level metrics over a Python syntax tree

    A shallow embedding of [code_analyzer.py].  The analyzer parses one source
    file with [ast.parse] and walks the tree with [ast.walk]; both belong to
    Python's [ast] module, whose node classes, field order and breadth-first
    walk are reproduced here (grammar of Python 3.12).

    Layout:
    - [Module ast]: the node classes, as one inductive type per syntactic sort;
    - [AST], [value], [iter_fields], [iter_child_nodes], [walk]: the generic,
      reflective part of the [ast] module the analyzer relies on;
    - [subnodes], [level]: reference enumerations of a tree (source order and
      by depth) used to state what the walk produces;
    - the five methods of [CodeAnalyzer] and its constructor, in an exception
      monad; the files that the constructor reads;
    - [Module Heap]: the same methods over a store of objects, with the
      in-place updates of [list.append] and of the queue of [ast.walk];
    - [ReportingAgent.parse_unittest_log] of [reporting_agent.py], over
      strings of code points;
    - the properties. *)

From Stdlib Require Import String ZArith Bool Lia PeanoNat List Permutation.
Import ListNotations.

Set Warnings "-register-all".

Open Scope string_scope.
Open Scope list_scope.

(** ** Node classes *)

(** Scalars found in fields that are not nodes: identifiers, constants and
    absent optional fields ([None]). Floating-point, complex and bytes
    constants keep their literal text. *)
Inductive atom : Type :=
| ANone
| ABool (b : bool)
| AInt (z : Z)
| AStr (s : string)
| ABytes (s : string)
| AFloat (repr : string)
| AComplex (repr : string)
| AEllipsis.

Module ast.

Inductive expr_context : Type := Load | Store | Del.
Inductive boolop : Type := And | Or.
Inductive operator : Type :=
| Add | Sub | Mult | MatMult | Div | Mod | Pow
| LShift | RShift | BitOr | BitXor | BitAnd | FloorDiv.
Inductive unaryop : Type := Invert | Not | UAdd | USub.
Inductive cmpop : Type :=
| Eq | NotEq | Lt | LtE | Gt | GtE | Is | IsNot | In | NotIn.

(** Expressions.  Constructor arguments follow the [_fields] order of each
    class.  [ast.parse] is called without [type_comments], so the
    [type_comment] fields are always [None] and carry no argument here. *)
Inductive expr : Type :=
| BoolOp (op : boolop) (values : list expr)
| NamedExpr (target value : expr)
| BinOp (left : expr) (op : operator) (right : expr)
| UnaryOp (op : unaryop) (operand : expr)
| Lambda (args : arguments) (body : expr)
| IfExp (test body orelse : expr)
| Dict (keys : list (option expr)) (values : list expr)
| Set_ (elts : list expr)
| ListComp (elt : expr) (generators : list comprehension)
| SetComp (elt : expr) (generators : list comprehension)
| DictComp (key value : expr) (generators : list comprehension)
| GeneratorExp (elt : expr) (generators : list comprehension)
| Await (value : expr)
| Yield (value : option expr)
| YieldFrom (value : expr)
| Compare (left : expr) (ops : list cmpop) (comparators : list expr)
| Call (func : expr) (args : list expr) (keywords : list keyword)
| FormattedValue (value : expr) (conversion : Z) (format_spec : option expr)
| JoinedStr (values : list expr)
| Constant (value : atom) (kind : option string)
| Attribute (value : expr) (attr : string) (ctx : expr_context)
| Subscript (value slice : expr) (ctx : expr_context)
| Starred (value : expr) (ctx : expr_context)
| Name (id : string) (ctx : expr_context)
| List (elts : list expr) (ctx : expr_context)
| Tuple (elts : list expr) (ctx : expr_context)
| Slice (lower upper step : option expr)
with comprehension : Type :=
| Comprehension (target iter : expr) (ifs : list expr) (is_async : Z)
with arguments : Type :=
| Arguments (posonlyargs args : list arg) (vararg : option arg)
            (kwonlyargs : list arg) (kw_defaults : list (option expr))
            (kwarg : option arg) (defaults : list expr)
with arg : Type :=
| Arg (arg : string) (annotation : option expr)
with keyword : Type :=
| Keyword (arg : option string) (value : expr).

Inductive withitem : Type :=
| Withitem (context_expr : expr) (optional_vars : option expr).

Inductive alias : Type :=
| Alias (name : string) (asname : option string).

Inductive pattern : Type :=
| MatchValue (value : expr)
| MatchSingleton (value : atom)
| MatchSequence (patterns : list pattern)
| MatchMapping (keys : list expr) (patterns : list pattern) (rest : option string)
| MatchClass (cls : expr) (patterns : list pattern) (kwd_attrs : list string)
             (kwd_patterns : list pattern)
| MatchStar (name : option string)
| MatchAs (pattern : option pattern) (name : option string)
| MatchOr (patterns : list pattern).

Inductive type_param : Type :=
| TypeVar (name : string) (bound : option expr)
| ParamSpec (name : string)
| TypeVarTuple (name : string).

Inductive type_ignore : Type :=
| TypeIgnore (lineno : Z) (tag : string).

(** Statements.  The two definition classes also carry [lineno], the one
    position attribute the analyzer reads. *)
Inductive stmt : Type :=
| FunctionDef (name : string) (args : arguments) (body : list stmt)
              (decorator_list : list expr) (returns : option expr)
              (type_params : list type_param) (lineno : Z)
| AsyncFunctionDef (name : string) (args : arguments) (body : list stmt)
                   (decorator_list : list expr) (returns : option expr)
                   (type_params : list type_param) (lineno : Z)
| ClassDef (name : string) (bases : list expr) (keywords : list keyword)
           (body : list stmt) (decorator_list : list expr)
           (type_params : list type_param)
| Return (value : option expr)
| Delete (targets : list expr)
| Assign (targets : list expr) (value : expr)
| TypeAlias (name : expr) (type_params : list type_param) (value : expr)
| AugAssign (target : expr) (op : operator) (value : expr)
| AnnAssign (target annotation : expr) (value : option expr) (simple : Z)
| For (target iter : expr) (body orelse : list stmt)
| AsyncFor (target iter : expr) (body orelse : list stmt)
| While (test : expr) (body orelse : list stmt)
| If (test : expr) (body orelse : list stmt)
| With (items : list withitem) (body : list stmt)
| AsyncWith (items : list withitem) (body : list stmt)
| Match (subject : expr) (cases : list match_case)
| Raise (exc cause : option expr)
| Try (body : list stmt) (handlers : list excepthandler)
      (orelse finalbody : list stmt)
| TryStar (body : list stmt) (handlers : list excepthandler)
          (orelse finalbody : list stmt)
| Assert (test : expr) (msg : option expr)
| Import (names : list alias)
| ImportFrom (module : option string) (names : list alias) (level : Z)
| Global (names : list string)
| Nonlocal (names : list string)
| Expr (value : expr)
| Pass
| Break
| Continue
with excepthandler : Type :=
| ExceptHandler (type : option expr) (name : option string) (body : list stmt)
with match_case : Type :=
| MatchCase (pattern : pattern) (guard : option expr) (body : list stmt).

(** [ast.parse] in its default mode returns a [Module] (sort [mod] of the
    grammar; the name is taken by arithmetic). *)
Inductive mod_ : Type :=
| Module (body : list stmt) (type_ignores : list type_ignore).

End ast.

(** ** The reflective layer: [ast.AST], fields and child nodes *)

(** Every object [ast.walk] can yield is an instance of [ast.AST]: a node of
    one of the syntactic sorts above. *)
Inductive AST : Type :=
| NMod (m : ast.mod_)
| NStmt (s : ast.stmt)
| NExpr (e : ast.expr)
| NExprContext (c : ast.expr_context)
| NBoolop (o : ast.boolop)
| NOperator (o : ast.operator)
| NUnaryop (o : ast.unaryop)
| NCmpop (o : ast.cmpop)
| NComprehension (c : ast.comprehension)
| NExceptHandler (h : ast.excepthandler)
| NArguments (a : ast.arguments)
| NArg (a : ast.arg)
| NKeyword (k : ast.keyword)
| NAlias (a : ast.alias)
| NWithitem (w : ast.withitem)
| NMatchCase (c : ast.match_case)
| NPattern (p : ast.pattern)
| NTypeParam (t : ast.type_param)
| NTypeIgnore (t : ast.type_ignore).

(** A Python value as the analyzer meets it: a scalar, a node, or a list. *)
Inductive value : Type :=
| VAtom (a : atom)
| VNode (n : AST)
| VList (items : list value).

Coercion VNode : AST >-> value.

Definition VStr (s : string) : value := VAtom (AStr s).
Definition VInt (z : Z) : value := VAtom (AInt z).
Definition VNone : value := VAtom ANone.

(** Field encoders, one per shape of field in the grammar. *)
Definition opt {A} (f : A -> value) (o : option A) : value :=
  match o with Some x => f x | None => VNone end.
Definition many {A} (f : A -> value) (l : list A) : value := VList (map f l).

Definition vexpr (e : ast.expr) : value := NExpr e.
Definition vstmt (s : ast.stmt) : value := NStmt s.
Definition varg (a : ast.arg) : value := NArg a.
Definition vpattern (p : ast.pattern) : value := NPattern p.
Definition vctx (c : ast.expr_context) : value := NExprContext c.

(** [type(node).__name__] *)
Definition class_name (n : AST) : string :=
  match n with
  | NMod (ast.Module _ _) => "Module"
  | NStmt s =>
      match s with
      | ast.FunctionDef _ _ _ _ _ _ _ => "FunctionDef"
      | ast.AsyncFunctionDef _ _ _ _ _ _ _ => "AsyncFunctionDef"
      | ast.ClassDef _ _ _ _ _ _ => "ClassDef"
      | ast.Return _ => "Return"
      | ast.Delete _ => "Delete"
      | ast.Assign _ _ => "Assign"
      | ast.TypeAlias _ _ _ => "TypeAlias"
      | ast.AugAssign _ _ _ => "AugAssign"
      | ast.AnnAssign _ _ _ _ => "AnnAssign"
      | ast.For _ _ _ _ => "For"
      | ast.AsyncFor _ _ _ _ => "AsyncFor"
      | ast.While _ _ _ => "While"
      | ast.If _ _ _ => "If"
      | ast.With _ _ => "With"
      | ast.AsyncWith _ _ => "AsyncWith"
      | ast.Match _ _ => "Match"
      | ast.Raise _ _ => "Raise"
      | ast.Try _ _ _ _ => "Try"
      | ast.TryStar _ _ _ _ => "TryStar"
      | ast.Assert _ _ => "Assert"
      | ast.Import _ => "Import"
      | ast.ImportFrom _ _ _ => "ImportFrom"
      | ast.Global _ => "Global"
      | ast.Nonlocal _ => "Nonlocal"
      | ast.Expr _ => "Expr"
      | ast.Pass => "Pass"
      | ast.Break => "Break"
      | ast.Continue => "Continue"
      end
  | NExpr e =>
      match e with
      | ast.BoolOp _ _ => "BoolOp"
      | ast.NamedExpr _ _ => "NamedExpr"
      | ast.BinOp _ _ _ => "BinOp"
      | ast.UnaryOp _ _ => "UnaryOp"
      | ast.Lambda _ _ => "Lambda"
      | ast.IfExp _ _ _ => "IfExp"
      | ast.Dict _ _ => "Dict"
      | ast.Set_ _ => "Set"
      | ast.ListComp _ _ => "ListComp"
      | ast.SetComp _ _ => "SetComp"
      | ast.DictComp _ _ _ => "DictComp"
      | ast.GeneratorExp _ _ => "GeneratorExp"
      | ast.Await _ => "Await"
      | ast.Yield _ => "Yield"
      | ast.YieldFrom _ => "YieldFrom"
      | ast.Compare _ _ _ => "Compare"
      | ast.Call _ _ _ => "Call"
      | ast.FormattedValue _ _ _ => "FormattedValue"
      | ast.JoinedStr _ => "JoinedStr"
      | ast.Constant _ _ => "Constant"
      | ast.Attribute _ _ _ => "Attribute"
      | ast.Subscript _ _ _ => "Subscript"
      | ast.Starred _ _ => "Starred"
      | ast.Name _ _ => "Name"
      | ast.List _ _ => "List"
      | ast.Tuple _ _ => "Tuple"
      | ast.Slice _ _ _ => "Slice"
      end
  | NExprContext c =>
      match c with ast.Load => "Load" | ast.Store => "Store" | ast.Del => "Del" end
  | NBoolop o => match o with ast.And => "And" | ast.Or => "Or" end
  | NOperator o =>
      match o with
      | ast.Add => "Add" | ast.Sub => "Sub" | ast.Mult => "Mult"
      | ast.MatMult => "MatMult" | ast.Div => "Div" | ast.Mod => "Mod"
      | ast.Pow => "Pow" | ast.LShift => "LShift" | ast.RShift => "RShift"
      | ast.BitOr => "BitOr" | ast.BitXor => "BitXor" | ast.BitAnd => "BitAnd"
      | ast.FloorDiv => "FloorDiv"
      end
  | NUnaryop o =>
      match o with
      | ast.Invert => "Invert" | ast.Not => "Not"
      | ast.UAdd => "UAdd" | ast.USub => "USub"
      end
  | NCmpop o =>
      match o with
      | ast.Eq => "Eq" | ast.NotEq => "NotEq" | ast.Lt => "Lt" | ast.LtE => "LtE"
      | ast.Gt => "Gt" | ast.GtE => "GtE" | ast.Is => "Is" | ast.IsNot => "IsNot"
      | ast.In => "In" | ast.NotIn => "NotIn"
      end
  | NComprehension _ => "comprehension"
  | NExceptHandler _ => "ExceptHandler"
  | NArguments _ => "arguments"
  | NArg _ => "arg"
  | NKeyword _ => "keyword"
  | NAlias _ => "alias"
  | NWithitem _ => "withitem"
  | NMatchCase _ => "match_case"
  | NPattern p =>
      match p with
      | ast.MatchValue _ => "MatchValue"
      | ast.MatchSingleton _ => "MatchSingleton"
      | ast.MatchSequence _ => "MatchSequence"
      | ast.MatchMapping _ _ _ => "MatchMapping"
      | ast.MatchClass _ _ _ _ => "MatchClass"
      | ast.MatchStar _ => "MatchStar"
      | ast.MatchAs _ _ => "MatchAs"
      | ast.MatchOr _ => "MatchOr"
      end
  | NTypeParam t =>
      match t with
      | ast.TypeVar _ _ => "TypeVar"
      | ast.ParamSpec _ => "ParamSpec"
      | ast.TypeVarTuple _ => "TypeVarTuple"
      end
  | NTypeIgnore _ => "TypeIgnore"
  end.

(** [ast.iter_fields]: the [(name, value)] pairs of a node, in the order of
    the class's [_fields]. *)
Definition iter_fields (n : AST) : list (string * value) :=
  match n with
  | NMod (ast.Module body type_ignores) =>
      [("body", many vstmt body);
       ("type_ignores", many (fun t => VNode (NTypeIgnore t)) type_ignores)]
  | NStmt s =>
      match s with
      | ast.FunctionDef name args body decorator_list returns type_params _
      | ast.AsyncFunctionDef name args body decorator_list returns type_params _ =>
          [("name", VStr name); ("args", VNode (NArguments args));
           ("body", many vstmt body);
           ("decorator_list", many vexpr decorator_list);
           ("returns", opt vexpr returns); ("type_comment", VNone);
           ("type_params", many (fun t => VNode (NTypeParam t)) type_params)]
      | ast.ClassDef name bases keywords body decorator_list type_params =>
          [("name", VStr name); ("bases", many vexpr bases);
           ("keywords", many (fun k => VNode (NKeyword k)) keywords);
           ("body", many vstmt body);
           ("decorator_list", many vexpr decorator_list);
           ("type_params", many (fun t => VNode (NTypeParam t)) type_params)]
      | ast.Return v => [("value", opt vexpr v)]
      | ast.Delete targets => [("targets", many vexpr targets)]
      | ast.Assign targets v =>
          [("targets", many vexpr targets); ("value", vexpr v);
           ("type_comment", VNone)]
      | ast.TypeAlias name type_params v =>
          [("name", vexpr name);
           ("type_params", many (fun t => VNode (NTypeParam t)) type_params);
           ("value", vexpr v)]
      | ast.AugAssign target op v =>
          [("target", vexpr target); ("op", VNode (NOperator op));
           ("value", vexpr v)]
      | ast.AnnAssign target annotation v simple =>
          [("target", vexpr target); ("annotation", vexpr annotation);
           ("value", opt vexpr v); ("simple", VInt simple)]
      | ast.For target iter body orelse
      | ast.AsyncFor target iter body orelse =>
          [("target", vexpr target); ("iter", vexpr iter);
           ("body", many vstmt body); ("orelse", many vstmt orelse);
           ("type_comment", VNone)]
      | ast.While test body orelse
      | ast.If test body orelse =>
          [("test", vexpr test); ("body", many vstmt body);
           ("orelse", many vstmt orelse)]
      | ast.With items body
      | ast.AsyncWith items body =>
          [("items", many (fun w => VNode (NWithitem w)) items);
           ("body", many vstmt body); ("type_comment", VNone)]
      | ast.Match subject cases =>
          [("subject", vexpr subject);
           ("cases", many (fun c => VNode (NMatchCase c)) cases)]
      | ast.Raise exc cause =>
          [("exc", opt vexpr exc); ("cause", opt vexpr cause)]
      | ast.Try body handlers orelse finalbody
      | ast.TryStar body handlers orelse finalbody =>
          [("body", many vstmt body);
           ("handlers", many (fun h => VNode (NExceptHandler h)) handlers);
           ("orelse", many vstmt orelse); ("finalbody", many vstmt finalbody)]
      | ast.Assert test msg => [("test", vexpr test); ("msg", opt vexpr msg)]
      | ast.Import names => [("names", many (fun a => VNode (NAlias a)) names)]
      | ast.ImportFrom module names level =>
          [("module", opt VStr module);
           ("names", many (fun a => VNode (NAlias a)) names);
           ("level", VInt level)]
      | ast.Global names | ast.Nonlocal names => [("names", many VStr names)]
      | ast.Expr v => [("value", vexpr v)]
      | ast.Pass | ast.Break | ast.Continue => []
      end
  | NExpr e =>
      match e with
      | ast.BoolOp op values =>
          [("op", VNode (NBoolop op)); ("values", many vexpr values)]
      | ast.NamedExpr target v => [("target", vexpr target); ("value", vexpr v)]
      | ast.BinOp lhs op rhs =>
          [("left", vexpr lhs); ("op", VNode (NOperator op));
           ("right", vexpr rhs)]
      | ast.UnaryOp op operand =>
          [("op", VNode (NUnaryop op)); ("operand", vexpr operand)]
      | ast.Lambda args body =>
          [("args", VNode (NArguments args)); ("body", vexpr body)]
      | ast.IfExp test body orelse =>
          [("test", vexpr test); ("body", vexpr body); ("orelse", vexpr orelse)]
      | ast.Dict keys values =>
          [("keys", many (opt vexpr) keys); ("values", many vexpr values)]
      | ast.Set_ elts => [("elts", many vexpr elts)]
      | ast.ListComp elt generators
      | ast.SetComp elt generators
      | ast.GeneratorExp elt generators =>
          [("elt", vexpr elt);
           ("generators", many (fun c => VNode (NComprehension c)) generators)]
      | ast.DictComp key v generators =>
          [("key", vexpr key); ("value", vexpr v);
           ("generators", many (fun c => VNode (NComprehension c)) generators)]
      | ast.Await v | ast.YieldFrom v => [("value", vexpr v)]
      | ast.Yield v => [("value", opt vexpr v)]
      | ast.Compare lhs ops comparators =>
          [("left", vexpr lhs);
           ("ops", many (fun o => VNode (NCmpop o)) ops);
           ("comparators", many vexpr comparators)]
      | ast.Call func args keywords =>
          [("func", vexpr func); ("args", many vexpr args);
           ("keywords", many (fun k => VNode (NKeyword k)) keywords)]
      | ast.FormattedValue v conversion format_spec =>
          [("value", vexpr v); ("conversion", VInt conversion);
           ("format_spec", opt vexpr format_spec)]
      | ast.JoinedStr values => [("values", many vexpr values)]
      | ast.Constant v kind => [("value", VAtom v); ("kind", opt VStr kind)]
      | ast.Attribute v attr ctx =>
          [("value", vexpr v); ("attr", VStr attr); ("ctx", vctx ctx)]
      | ast.Subscript v slice ctx =>
          [("value", vexpr v); ("slice", vexpr slice); ("ctx", vctx ctx)]
      | ast.Starred v ctx => [("value", vexpr v); ("ctx", vctx ctx)]
      | ast.Name id ctx => [("id", VStr id); ("ctx", vctx ctx)]
      | ast.List elts ctx | ast.Tuple elts ctx =>
          [("elts", many vexpr elts); ("ctx", vctx ctx)]
      | ast.Slice lower upper step =>
          [("lower", opt vexpr lower); ("upper", opt vexpr upper);
           ("step", opt vexpr step)]
      end
  | NExprContext _ | NBoolop _ | NOperator _ | NUnaryop _ | NCmpop _ => []
  | NComprehension (ast.Comprehension target iter ifs is_async) =>
      [("target", vexpr target); ("iter", vexpr iter);
       ("ifs", many vexpr ifs); ("is_async", VInt is_async)]
  | NExceptHandler (ast.ExceptHandler type name body) =>
      [("type", opt vexpr type); ("name", opt VStr name);
       ("body", many vstmt body)]
  | NArguments (ast.Arguments posonlyargs args vararg kwonlyargs kw_defaults
                              kwarg defaults) =>
      [("posonlyargs", many varg posonlyargs); ("args", many varg args);
       ("vararg", opt varg vararg); ("kwonlyargs", many varg kwonlyargs);
       ("kw_defaults", many (opt vexpr) kw_defaults);
       ("kwarg", opt varg kwarg); ("defaults", many vexpr defaults)]
  | NArg (ast.Arg arg annotation) =>
      [("arg", VStr arg); ("annotation", opt vexpr annotation);
       ("type_comment", VNone)]
  | NKeyword (ast.Keyword arg v) => [("arg", opt VStr arg); ("value", vexpr v)]
  | NAlias (ast.Alias name asname) =>
      [("name", VStr name); ("asname", opt VStr asname)]
  | NWithitem (ast.Withitem context_expr optional_vars) =>
      [("context_expr", vexpr context_expr);
       ("optional_vars", opt vexpr optional_vars)]
  | NMatchCase (ast.MatchCase pattern guard body) =>
      [("pattern", vpattern pattern); ("guard", opt vexpr guard);
       ("body", many vstmt body)]
  | NPattern p =>
      match p with
      | ast.MatchValue v => [("value", vexpr v)]
      | ast.MatchSingleton v => [("value", VAtom v)]
      | ast.MatchSequence patterns => [("patterns", many vpattern patterns)]
      | ast.MatchMapping keys patterns rest =>
          [("keys", many vexpr keys); ("patterns", many vpattern patterns);
           ("rest", opt VStr rest)]
      | ast.MatchClass cls patterns kwd_attrs kwd_patterns =>
          [("cls", vexpr cls); ("patterns", many vpattern patterns);
           ("kwd_attrs", many VStr kwd_attrs);
           ("kwd_patterns", many vpattern kwd_patterns)]
      | ast.MatchStar name => [("name", opt VStr name)]
      | ast.MatchAs pattern name =>
          [("pattern", opt vpattern pattern); ("name", opt VStr name)]
      | ast.MatchOr patterns => [("patterns", many vpattern patterns)]
      end
  | NTypeParam t =>
      match t with
      | ast.TypeVar name bound => [("name", VStr name); ("bound", opt vexpr bound)]
      | ast.ParamSpec name | ast.TypeVarTuple name => [("name", VStr name)]
      end
  | NTypeIgnore (ast.TypeIgnore lineno tag) =>
      [("lineno", VInt lineno); ("tag", VStr tag)]
  end.

(** The nodes directly held by one field value: the value itself when it is
    a node, its node items when it is a list. *)
Definition node_items (v : value) : list AST :=
  match v with VNode c => [c] | _ => [] end.

Definition field_nodes (field : value) : list AST :=
  match field with
  | VNode c => [c]
  | VList items => flat_map node_items items
  | VAtom _ => []
  end.

(** [ast.iter_child_nodes]
<<
    for name, field in iter_fields(node):
        if isinstance(field, AST): yield field
        elif isinstance(field, list):
            for item in field:
                if isinstance(item, AST): yield item
>> *)
Definition iter_child_nodes (n : AST) : list AST :=
  flat_map (fun nf => field_nodes (snd nf)) (iter_fields n).

(** [ast.walk]: a queue seeded with the root; each step pops the front node,
    appends its children at the back and yields it.
<<
    todo = deque([node])
    while todo:
        node = todo.popleft()
        todo.extend(iter_child_nodes(node))
        yield node
>>
    [walk_loop] runs at most [fuel] iterations of the [while]. *)
Fixpoint walk_loop (fuel : nat) (todo : list AST) : list AST :=
  match fuel with
  | O => []
  | S fuel' =>
      match todo with
      | [] => []
      | n :: rest => n :: walk_loop fuel' (rest ++ iter_child_nodes n)
      end
  end.

(** ** Reference enumeration of a tree

    All nodes of a tree, each once, parents first and siblings in field order
    (the order of the source text), by structural recursion on the grammar.
    It does not go through [iter_fields] nor through the queue of [walk], and
    serves to say which nodes a tree has. *)

Definition onodes {A} (f : A -> list AST) (o : option A) : list AST :=
  match o with Some x => f x | None => [] end.

Fixpoint expr_nodes (e : ast.expr) : list AST :=
  NExpr e ::
  match e with
  | ast.BoolOp op values => NBoolop op :: flat_map expr_nodes values
  | ast.NamedExpr target v => expr_nodes target ++ expr_nodes v
  | ast.BinOp lhs op rhs => expr_nodes lhs ++ NOperator op :: expr_nodes rhs
  | ast.UnaryOp op operand => NUnaryop op :: expr_nodes operand
  | ast.Lambda args body => arguments_nodes args ++ expr_nodes body
  | ast.IfExp test body orelse =>
      expr_nodes test ++ expr_nodes body ++ expr_nodes orelse
  | ast.Dict keys values =>
      flat_map (onodes expr_nodes) keys ++ flat_map expr_nodes values
  | ast.Set_ elts => flat_map expr_nodes elts
  | ast.ListComp elt generators
  | ast.SetComp elt generators
  | ast.GeneratorExp elt generators =>
      expr_nodes elt ++ flat_map comprehension_nodes generators
  | ast.DictComp key v generators =>
      expr_nodes key ++ expr_nodes v ++ flat_map comprehension_nodes generators
  | ast.Await v | ast.YieldFrom v => expr_nodes v
  | ast.Yield v => onodes expr_nodes v
  | ast.Compare lhs ops comparators =>
      expr_nodes lhs ++ map NCmpop ops ++ flat_map expr_nodes comparators
  | ast.Call func args keywords =>
      expr_nodes func ++ flat_map expr_nodes args
        ++ flat_map keyword_nodes keywords
  | ast.FormattedValue v _ format_spec =>
      expr_nodes v ++ onodes expr_nodes format_spec
  | ast.JoinedStr values => flat_map expr_nodes values
  | ast.Constant _ _ => []
  | ast.Attribute v _ ctx => expr_nodes v ++ [NExprContext ctx]
  | ast.Subscript v slice ctx =>
      expr_nodes v ++ expr_nodes slice ++ [NExprContext ctx]
  | ast.Starred v ctx => expr_nodes v ++ [NExprContext ctx]
  | ast.Name _ ctx => [NExprContext ctx]
  | ast.List elts ctx | ast.Tuple elts ctx =>
      flat_map expr_nodes elts ++ [NExprContext ctx]
  | ast.Slice lower upper step =>
      onodes expr_nodes lower ++ onodes expr_nodes upper
        ++ onodes expr_nodes step
  end
with comprehension_nodes (c : ast.comprehension) : list AST :=
  NComprehension c ::
  match c with
  | ast.Comprehension target iter ifs _ =>
      expr_nodes target ++ expr_nodes iter ++ flat_map expr_nodes ifs
  end
with arguments_nodes (a : ast.arguments) : list AST :=
  NArguments a ::
  match a with
  | ast.Arguments posonlyargs args vararg kwonlyargs kw_defaults kwarg defaults =>
      flat_map arg_nodes posonlyargs ++ flat_map arg_nodes args
        ++ onodes arg_nodes vararg ++ flat_map arg_nodes kwonlyargs
        ++ flat_map (onodes expr_nodes) kw_defaults
        ++ onodes arg_nodes kwarg ++ flat_map expr_nodes defaults
  end
with arg_nodes (a : ast.arg) : list AST :=
  NArg a ::
  match a with
  | ast.Arg _ annotation => onodes expr_nodes annotation
  end
with keyword_nodes (k : ast.keyword) : list AST :=
  NKeyword k ::
  match k with
  | ast.Keyword _ v => expr_nodes v
  end.

Definition withitem_nodes (w : ast.withitem) : list AST :=
  NWithitem w ::
  match w with
  | ast.Withitem context_expr optional_vars =>
      expr_nodes context_expr ++ onodes expr_nodes optional_vars
  end.

Fixpoint pattern_nodes (p : ast.pattern) : list AST :=
  NPattern p ::
  match p with
  | ast.MatchValue v => expr_nodes v
  | ast.MatchSingleton _ => []
  | ast.MatchSequence patterns => flat_map pattern_nodes patterns
  | ast.MatchMapping keys patterns _ =>
      flat_map expr_nodes keys ++ flat_map pattern_nodes patterns
  | ast.MatchClass cls patterns _ kwd_patterns =>
      expr_nodes cls ++ flat_map pattern_nodes patterns
        ++ flat_map pattern_nodes kwd_patterns
  | ast.MatchStar _ => []
  | ast.MatchAs pattern _ => onodes pattern_nodes pattern
  | ast.MatchOr patterns => flat_map pattern_nodes patterns
  end.

Definition type_param_nodes (t : ast.type_param) : list AST :=
  NTypeParam t ::
  match t with
  | ast.TypeVar _ bound => onodes expr_nodes bound
  | ast.ParamSpec _ | ast.TypeVarTuple _ => []
  end.

Fixpoint stmt_nodes (s : ast.stmt) : list AST :=
  NStmt s ::
  match s with
  | ast.FunctionDef _ args body decorator_list returns type_params _
  | ast.AsyncFunctionDef _ args body decorator_list returns type_params _ =>
      arguments_nodes args ++ flat_map stmt_nodes body
        ++ flat_map expr_nodes decorator_list ++ onodes expr_nodes returns
        ++ flat_map type_param_nodes type_params
  | ast.ClassDef _ bases keywords body decorator_list type_params =>
      flat_map expr_nodes bases ++ flat_map keyword_nodes keywords
        ++ flat_map stmt_nodes body ++ flat_map expr_nodes decorator_list
        ++ flat_map type_param_nodes type_params
  | ast.Return v => onodes expr_nodes v
  | ast.Delete targets => flat_map expr_nodes targets
  | ast.Assign targets v => flat_map expr_nodes targets ++ expr_nodes v
  | ast.TypeAlias name type_params v =>
      expr_nodes name ++ flat_map type_param_nodes type_params ++ expr_nodes v
  | ast.AugAssign target op v =>
      expr_nodes target ++ NOperator op :: expr_nodes v
  | ast.AnnAssign target annotation v _ =>
      expr_nodes target ++ expr_nodes annotation ++ onodes expr_nodes v
  | ast.For target iter body orelse
  | ast.AsyncFor target iter body orelse =>
      expr_nodes target ++ expr_nodes iter ++ flat_map stmt_nodes body
        ++ flat_map stmt_nodes orelse
  | ast.While test body orelse
  | ast.If test body orelse =>
      expr_nodes test ++ flat_map stmt_nodes body ++ flat_map stmt_nodes orelse
  | ast.With items body
  | ast.AsyncWith items body =>
      flat_map withitem_nodes items ++ flat_map stmt_nodes body
  | ast.Match subject cases =>
      expr_nodes subject ++ flat_map match_case_nodes cases
  | ast.Raise exc cause => onodes expr_nodes exc ++ onodes expr_nodes cause
  | ast.Try body handlers orelse finalbody
  | ast.TryStar body handlers orelse finalbody =>
      flat_map stmt_nodes body ++ flat_map excepthandler_nodes handlers
        ++ flat_map stmt_nodes orelse ++ flat_map stmt_nodes finalbody
  | ast.Assert test msg => expr_nodes test ++ onodes expr_nodes msg
  | ast.Import names | ast.ImportFrom _ names _ => map NAlias names
  | ast.Global _ | ast.Nonlocal _ => []
  | ast.Expr v => expr_nodes v
  | ast.Pass | ast.Break | ast.Continue => []
  end
with excepthandler_nodes (h : ast.excepthandler) : list AST :=
  NExceptHandler h ::
  match h with
  | ast.ExceptHandler type _ body =>
      onodes expr_nodes type ++ flat_map stmt_nodes body
  end
with match_case_nodes (c : ast.match_case) : list AST :=
  NMatchCase c ::
  match c with
  | ast.MatchCase pattern guard body =>
      pattern_nodes pattern ++ onodes expr_nodes guard
        ++ flat_map stmt_nodes body
  end.

Definition mod_nodes (m : ast.mod_) : list AST :=
  NMod m ::
  match m with
  | ast.Module body type_ignores =>
      flat_map stmt_nodes body ++ map NTypeIgnore type_ignores
  end.

Definition subnodes (n : AST) : list AST :=
  match n with
  | NMod m => mod_nodes m
  | NStmt s => stmt_nodes s
  | NExpr e => expr_nodes e
  | NComprehension c => comprehension_nodes c
  | NExceptHandler h => excepthandler_nodes h
  | NArguments a => arguments_nodes a
  | NArg a => arg_nodes a
  | NKeyword k => keyword_nodes k
  | NWithitem w => withitem_nodes w
  | NMatchCase c => match_case_nodes c
  | NPattern p => pattern_nodes p
  | NTypeParam t => type_param_nodes t
  | NExprContext _ | NBoolop _ | NOperator _ | NUnaryop _ | NCmpop _
  | NAlias _ | NTypeIgnore _ => [n]
  end.

(** Number of nodes of a tree; it bounds the iterations of the walk. *)
Definition node_count (n : AST) : nat := length (subnodes n).

Definition walk (n : AST) : list AST := walk_loop (node_count n) [n].

(** Nodes of a tree by depth: [level k roots] lists, left to right, the
    nodes [k] edges below the [roots]. *)
Fixpoint level (k : nat) (roots : list AST) : list AST :=
  match k with
  | O => roots
  | S k' => level k' (flat_map iter_child_nodes roots)
  end.

Definition levels (n : AST) : list AST :=
  flat_map (fun k => level k [n]) (seq 0 (node_count n)).

(** ** Exceptions and dynamic operations *)

(** The exception classes that the analyzer and the two library calls of its
    constructor can raise. *)
Inductive exn : Type :=
| FileNotFoundError
| PermissionError
| IsADirectoryError
| OSError
| UnicodeDecodeError
| SyntaxError
| IndentationError
| AttributeError
| TypeError.

(** [IOError] is an alias of [OSError]; the first four classes derive from
    it. [IndentationError] derives from [SyntaxError]. *)
Definition IOError_class (e : exn) : bool :=
  match e with
  | FileNotFoundError | PermissionError | IsADirectoryError | OSError => true
  | _ => false
  end.

Definition SyntaxError_class (e : exn) : bool :=
  match e with
  | SyntaxError | IndentationError => true
  | _ => false
  end.

Inductive result (A : Type) : Type :=
| Ok (a : A)
| Exc (e : exn).
Arguments Ok {A} a.
Arguments Exc {A} e.

Definition bind {A B} (m : result A) (k : A -> result B) : result B :=
  match m with
  | Ok a => k a
  | Exc e => Exc e
  end.

Notation "x <- m ;; k" := (bind m (fun x => k))
  (at level 61, m at next level, right associativity).

(** A [for] loop over a list that updates one local variable. *)
Fixpoint for_in {A S} (xs : list A) (body : A -> S -> result S) (acc : S)
  : result S :=
  match xs with
  | [] => Ok acc
  | x :: xs' => acc' <- body x acc ;; for_in xs' body acc'
  end.

(** A list comprehension [[f(x) for x in xs]]. *)
Fixpoint comprehension {A B} (f : A -> result B) (xs : list A)
  : result (list B) :=
  match xs with
  | [] => Ok []
  | x :: xs' => y <- f x ;; ys <- comprehension f xs' ;; Ok (y :: ys)
  end.

Fixpoint assoc (name : string) (fields : list (string * value)) : option value :=
  match fields with
  | [] => None
  | (k, v) :: fields' => if String.eqb k name then Some v else assoc name fields'
  end.

(** Position attributes ([_attributes]); only [lineno] of the two definition
    classes is modelled, the one the analyzer reads. *)
Definition attributes (n : AST) : list (string * value) :=
  match n with
  | NStmt (ast.FunctionDef _ _ _ _ _ _ lineno)
  | NStmt (ast.AsyncFunctionDef _ _ _ _ _ _ lineno) => [("lineno", VInt lineno)]
  | _ => []
  end.

(** [obj.name]: a field or attribute of a node; anything else raises
    [AttributeError] (none of the names the analyzer reads exists on a
    string, a number, [None] or a list). *)
Definition getattr (obj : value) (name : string) : result value :=
  match obj with
  | VNode n =>
      match assoc name (iter_fields n ++ attributes n) with
      | Some v => Ok v
      | None => Exc AttributeError
      end
  | _ => Exc AttributeError
  end.

(** [isinstance(obj, (C1, ..., Ck))] for node classes given by name. *)
Definition isinstance (obj : value) (classes : list string) : bool :=
  match obj with
  | VNode n => existsb (String.eqb (class_name n)) classes
  | _ => false
  end.

(** Iterating a value: the items of a list, the characters of a string;
    [TypeError] otherwise. *)
Definition iter (obj : value) : result (list value) :=
  match obj with
  | VList items => Ok items
  | VAtom (AStr s) =>
      Ok (map (fun c => VStr (String c EmptyString)) (list_ascii_of_string s))
  | _ => Exc TypeError
  end.

(** ** The analyzer *)

(** One entry of the list built by [extract_functions], a dictionary with
    these eight keys. *)
Record FunctionRecord : Type := {
  name : value;
  node : AST;
  args : list value;
  is_async : bool;
  decorators : list value;
  complexity : Z;
  calls : list value;
  line : value
}.

(** The attributes set by the constructor. *)
Record CodeAnalyzer : Type := {
  file_path : string;
  code : string;
  tree : ast.mod_
}.

(** A method: it may raise, and it returns the instance as it leaves it. *)
Definition method (A : Type) : Type := CodeAnalyzer -> result A * CodeAnalyzer.

Definition mbind {A B} (m : method A) (k : A -> method B) : method B :=
  fun self =>
    match m self with
    | (Ok a, self') => k a self'
    | (Exc e, self') => (Exc e, self')
    end.

Definition lift {A} (r : result A) : method A := fun self => (r, self).

(** [self.tree] *)
Definition self_tree : method ast.mod_ := fun self => (Ok (tree self), self).

(** [_get_decorator_name] *)
Definition _get_decorator_name (decorator_node : value) : result value :=
  if isinstance decorator_node ["Name"] then
    getattr decorator_node "id"
  else if isinstance decorator_node ["Attribute"] then
    getattr decorator_node "attr"
  else Ok (VStr "").

(** [_count_branches] *)
Definition _count_branches (node : AST) : result Z :=
  for_in (walk node)
    (fun n count =>
       if isinstance n ["If"; "For"; "While"; "Try"; "With"] then
         Ok (count + 1)%Z
       else Ok count)
    0%Z.

(** [_extract_calls] *)
Definition _extract_calls (node : AST) : result (list value) :=
  for_in (walk node)
    (fun n calls =>
       if isinstance n ["Call"] then
         func <- getattr n "func" ;;
         if isinstance func ["Name"] then
           func <- getattr n "func" ;;
           id <- getattr func "id" ;;
           Ok (calls ++ [id])
         else
           func <- getattr n "func" ;;
           if isinstance func ["Attribute"] then
             func <- getattr n "func" ;;
             attr <- getattr func "attr" ;;
             Ok (calls ++ [attr])
           else Ok calls
       else Ok calls)
    [].

(** The dictionary appended for one definition node. *)
Definition function_record (node : AST) : result FunctionRecord :=
  name <- getattr node "name" ;;
  args <- (a <- getattr node "args" ;;
           al <- getattr a "args" ;;
           items <- iter al ;;
           comprehension (fun arg => getattr arg "arg") items) ;;
  decorators <- (dl <- getattr node "decorator_list" ;;
                 items <- iter dl ;;
                 comprehension _get_decorator_name items) ;;
  complexity <- _count_branches node ;;
  calls <- _extract_calls node ;;
  line <- getattr node "lineno" ;;
  Ok {| name := name;
        node := node;
        args := args;
        is_async := isinstance node ["AsyncFunctionDef"];
        decorators := decorators;
        complexity := complexity;
        calls := calls;
        line := line |}.

(** [extract_functions] *)
Definition extract_functions : method (list FunctionRecord) :=
  mbind self_tree (fun tree =>
  lift (for_in (walk (NMod tree))
          (fun node functions =>
             if isinstance node ["FunctionDef"; "AsyncFunctionDef"] then
               r <- function_record node ;;
               Ok (functions ++ [r])
             else Ok functions)
          [])).

(** [calculate_priority] *)
Definition calculate_priority (func : FunctionRecord) : Z :=
  let priority := complexity func in
  let priority := if is_async func then (priority + 2)%Z else priority in
  let priority :=
    if (3 <? length (args func))%nat then (priority + 1)%Z else priority in
  priority.

(** ** Files

    What [open(file_path, 'r', encoding='utf-8')] followed by [f.read()]
    does depends on what the path names.  A path names nothing, a directory,
    a file that the process may not read, a file whose reading fails in the
    device, or a regular file with its bytes (POSIX). *)
Inductive file : Type :=
| Missing
| Directory
| Protected
| Faulty
| Regular (content : list Byte.byte).

Definition file_system : Type := string -> file.

Definition byte_value (b : Byte.byte) : N :=
  Ascii.N_of_ascii (Ascii.ascii_of_byte b).

Definition between (lo hi : N) (b : Byte.byte) : bool :=
  ((lo <=? byte_value b) && (byte_value b <=? hi))%N.

Definition continuation (b : Byte.byte) : bool := between 128 191 b.

(** The first two bytes of a three-byte sequence: no overlong form
    ([E0] needs [A0]..[BF]) and no surrogate ([ED] needs [80]..[9F]). *)
Definition three_byte_lead (b1 b2 : Byte.byte) : bool :=
  (between 224 224 b1 && between 160 191 b2)
  || (between 225 236 b1 && continuation b2)
  || (between 237 237 b1 && between 128 159 b2)
  || (between 238 239 b1 && continuation b2).

(** The first two bytes of a four-byte sequence: no overlong form and
    nothing above U+10FFFF. *)
Definition four_byte_lead (b1 b2 : Byte.byte) : bool :=
  (between 240 240 b1 && between 144 191 b2)
  || (between 241 243 b1 && continuation b2)
  || (between 244 244 b1 && between 128 143 b2).

(** The bytes that the strict [utf-8] codec decodes. *)
Fixpoint utf8_valid (bs : list Byte.byte) : bool :=
  match bs with
  | [] => true
  | b1 :: bs1 =>
      if between 0 127 b1 then utf8_valid bs1
      else
        match bs1 with
        | [] => false
        | b2 :: bs2 =>
            if between 194 223 b1 then continuation b2 && utf8_valid bs2
            else
              match bs2 with
              | [] => false
              | b3 :: bs3 =>
                  if three_byte_lead b1 b2 then
                    continuation b3 && utf8_valid bs3
                  else
                    match bs3 with
                    | [] => false
                    | b4 :: bs4 =>
                        four_byte_lead b1 b2 && continuation b3
                        && continuation b4 && utf8_valid bs4
                    end
              end
        end
  end.

(** Reading in text mode with the default [newline=None]: [\r\n] and a lone
    [\r] are read as [\n]. *)
Fixpoint universal_newlines (bs : list Byte.byte) : list Byte.byte :=
  match bs with
  | [] => []
  | b :: rest =>
      if between 13 13 b then
        Byte.x0a ::
        match rest with
        | b' :: rest' =>
            if between 10 10 b' then universal_newlines rest'
            else universal_newlines rest
        | [] => []
        end
      else b :: universal_newlines rest
  end.

(** The text read from decodable bytes; a [string] holds it in UTF-8. *)
Definition text_of (content : list Byte.byte) : string :=
  string_of_list_byte (universal_newlines content).

(** [open(path, 'r', encoding='utf-8')] then [f.read()]. *)
Definition open_and_read (fs : file_system) (path : string) : result string :=
  match fs path with
  | Missing => Exc FileNotFoundError
  | Directory => Exc IsADirectoryError
  | Protected => Exc PermissionError
  | Faulty => Exc OSError
  | Regular content =>
      if utf8_valid content then Ok (text_of content)
      else Exc UnicodeDecodeError
  end.

(** The constructor, over the two library calls it makes: [open_read path]
    stands for [open(path, 'r', encoding='utf-8')] followed by [f.read()],
    [ast_parse] for [ast.parse].  Neither call is guarded by a handler. *)
Section Constructor.

Variable open_read : string -> result string.
Variable ast_parse : string -> result ast.mod_.

Definition __init__ (path : string) : result CodeAnalyzer :=
  code <- open_read path ;;
  tree <- ast_parse code ;;
  Ok {| file_path := path; code := code; tree := tree |}.

End Constructor.

(** ** Vocabulary of the properties *)

(** Nodes strictly below [n]. *)
Definition descendants (n : AST) : list AST :=
  flat_map subnodes (iter_child_nodes n).

(** Total weight of a queue: the nodes still to be yielded. *)
Definition pending (todo : list AST) : nat := length (flat_map subnodes todo).

(** A function or asynchronous-function definition node. *)
Definition is_function_definition (n : AST) : bool :=
  match n with
  | NStmt (ast.FunctionDef _ _ _ _ _ _ _)
  | NStmt (ast.AsyncFunctionDef _ _ _ _ _ _ _) => true
  | _ => false
  end.

(** A conditional statement, for-loop, while-loop, try block or with block. *)
Definition is_branch (n : AST) : bool :=
  match n with
  | NStmt (ast.If _ _ _) | NStmt (ast.For _ _ _ _) | NStmt (ast.While _ _ _)
  | NStmt (ast.Try _ _ _ _) | NStmt (ast.With _ _) => true
  | _ => false
  end.

(** The name a call contributes: the identifier of a bare-name callee, the
    trailing attribute of an attribute-access callee, nothing otherwise. *)
Definition callee (n : AST) : list string :=
  match n with
  | NExpr (ast.Call (ast.Name id _) _ _) => [id]
  | NExpr (ast.Call (ast.Attribute _ attr _) _ _) => [attr]
  | _ => []
  end.

(** The name a decorator expression contributes. *)
Definition decorator_name (d : ast.expr) : string :=
  match d with
  | ast.Name id _ => id
  | ast.Attribute _ attr _ => attr
  | _ => ""
  end.

Definition arg_name (a : ast.arg) : string :=
  match a with ast.Arg arg _ => arg end.

(** Typed readers of a definition node (defaults on other nodes). *)
Definition def_name (n : AST) : string :=
  match n with
  | NStmt (ast.FunctionDef name _ _ _ _ _ _)
  | NStmt (ast.AsyncFunctionDef name _ _ _ _ _ _) => name
  | _ => ""
  end.

Definition def_arguments (n : AST) : ast.arguments :=
  match n with
  | NStmt (ast.FunctionDef _ args _ _ _ _ _)
  | NStmt (ast.AsyncFunctionDef _ args _ _ _ _ _) => args
  | _ => ast.Arguments [] [] None [] [] None []
  end.

Definition def_decorator_list (n : AST) : list ast.expr :=
  match n with
  | NStmt (ast.FunctionDef _ _ _ decorator_list _ _ _)
  | NStmt (ast.AsyncFunctionDef _ _ _ decorator_list _ _ _) => decorator_list
  | _ => []
  end.

Definition def_body (n : AST) : list ast.stmt :=
  match n with
  | NStmt (ast.FunctionDef _ _ body _ _ _ _)
  | NStmt (ast.AsyncFunctionDef _ _ body _ _ _ _) => body
  | _ => []
  end.

Definition def_lineno (n : AST) : Z :=
  match n with
  | NStmt (ast.FunctionDef _ _ _ _ _ _ lineno)
  | NStmt (ast.AsyncFunctionDef _ _ _ _ _ _ lineno) => lineno
  | _ => 0%Z
  end.

Definition def_is_async (n : AST) : bool :=
  match n with
  | NStmt (ast.AsyncFunctionDef _ _ _ _ _ _ _) => true
  | _ => false
  end.

(** The parameters of a signature, by kind.  [def f(a, b, /, c, d=1, *e, g, **h)]
    has positional-only [a], [b]; positional-or-keyword [c], [d];
    variadic [e], [h]; keyword-only [g]. *)
Definition posonly_parameters (a : ast.arguments) : list string :=
  match a with ast.Arguments posonlyargs _ _ _ _ _ _ => map arg_name posonlyargs end.

Definition positional_or_keyword_parameters (a : ast.arguments) : list string :=
  match a with ast.Arguments _ args _ _ _ _ _ => map arg_name args end.

(** Every parameter that accepts a positional argument, in declaration
    order. *)
Definition positional_parameters (a : ast.arguments) : list string :=
  posonly_parameters a ++ positional_or_keyword_parameters a.

(** The record of a definition node, field by field, in terms of the typed
    tree and of the walk. *)
Definition record_of (n : AST) : FunctionRecord :=
  {| name := VStr (def_name n);
     node := n;
     args := map VStr (positional_or_keyword_parameters (def_arguments n));
     is_async := def_is_async n;
     decorators := map (fun d => VStr (decorator_name d)) (def_decorator_list n);
     complexity := Z.of_nat (length (filter is_branch (walk n)));
     calls := map VStr (flat_map callee (walk n));
     line := VInt (def_lineno n) |}.

(** A tree without any definition node. *)
Definition no_definitions (m : ast.mod_) : bool :=
  forallb (fun n => negb (is_function_definition n)) (subnodes (NMod m)).

(** An analyzer holding a given tree. *)
Definition analyzer_of (m : ast.mod_) : CodeAnalyzer :=
  {| file_path := "example.py"; code := ""; tree := m |}.

(** ** Sample programs *)

Definition load (id : string) : ast.expr := ast.Name id ast.Load.
Definition no_params : ast.arguments := ast.Arguments [] [] None [] [] None [].
Definition params (names : list string) : ast.arguments :=
  ast.Arguments [] (map (fun x => ast.Arg x None) names) None [] [] None [].
Definition call0 (f : ast.expr) : ast.expr := ast.Call f [] [].

(**
<<
def outer():
    if x:
        pass
    for i in y:
        pass
    def inner():
        while z:
            pass
>> *)
Definition inner_def : ast.stmt :=
  ast.FunctionDef "inner" no_params
    [ast.While (load "z") [ast.Pass] []] [] None [] 6.

Definition outer_def : ast.stmt :=
  ast.FunctionDef "outer" no_params
    [ast.If (load "x") [ast.Pass] [];
     ast.For (ast.Name "i" ast.Store) (load "y") [ast.Pass] [];
     inner_def]
    [] None [] 1.

(**
<<
def f():
    helper()
    obj.method()
    (get_fn())()
>> *)
Definition three_calls_def : ast.stmt :=
  ast.FunctionDef "f" no_params
    [ast.Expr (call0 (load "helper"));
     ast.Expr (call0 (ast.Attribute (load "obj") "method" ast.Load));
     ast.Expr (call0 (call0 (load "get_fn")))]
    [] None [] 1.

(**
<<
@app.route(make_path())
def index(page=default_page()):
    pass
>> *)
Definition routed_def : ast.stmt :=
  ast.FunctionDef "index"
    (ast.Arguments [] [ast.Arg "page" None] None [] [] None
       [call0 (load "default_page")])
    [ast.Pass]
    [ast.Call (ast.Attribute (load "app") "route" ast.Load)
       [call0 (load "make_path")] []]
    None [] 2.

(**
<<
@foo
@bar.baz
def g():
    pass
>> *)
Definition decorated_def : ast.stmt :=
  ast.FunctionDef "g" no_params [ast.Pass]
    [load "foo"; ast.Attribute (load "bar") "baz" ast.Load] None [] 3.

(**
<<
def plain():
    pass
>> *)
Definition plain_def : ast.stmt :=
  ast.FunctionDef "plain" no_params [ast.Pass] [] None [] 1.

(**
<<
def f(a, /, b):
    pass
>> *)
Definition posonly_def : ast.stmt :=
  ast.FunctionDef "f"
    (ast.Arguments [ast.Arg "a" None] [ast.Arg "b" None] None [] [] None [])
    [ast.Pass] [] None [] 1.

(**
<<
def f(a, b=1, *rest, key, **extra):
    pass
>> *)
Definition mixed_params_def : ast.stmt :=
  ast.FunctionDef "f"
    (ast.Arguments [] [ast.Arg "a" None; ast.Arg "b" None]
       (Some (ast.Arg "rest" None)) [ast.Arg "key" None] [None]
       (Some (ast.Arg "extra" None)) [ast.Constant (AInt 1) None])
    [ast.Pass] [] None [] 1.

(**
<<
async def pump(src, lock):
    async for item in src:
        pass
    async with lock:
        pass
>> *)
Definition async_only_def : ast.stmt :=
  ast.AsyncFunctionDef "pump" (params ["src"; "lock"])
    [ast.AsyncFor (ast.Name "item" ast.Store) (load "src") [ast.Pass] [];
     ast.AsyncWith [ast.Withitem (load "lock") None] [ast.Pass]]
    [] None [] 1.

(**
<<
f = lambda x: x
g = lambda: (lambda y: y)
>> *)
Definition lambdas_module : ast.mod_ :=
  ast.Module
    [ast.Assign [ast.Name "f" ast.Store] (ast.Lambda (params ["x"]) (load "x"));
     ast.Assign [ast.Name "g" ast.Store]
       (ast.Lambda no_params (ast.Lambda (params ["y"]) (load "y")))]
    [].

(**
<<
def f():
    def f():
        pass
class C:
    def f(self):
        pass
    async def f(self):
        pass
>> *)
Definition same_name_module : ast.mod_ :=
  ast.Module
    [ast.FunctionDef "f" no_params
       [ast.FunctionDef "f" no_params [ast.Pass] [] None [] 2] [] None [] 1;
     ast.ClassDef "C" [] []
       [ast.FunctionDef "f" (params ["self"]) [ast.Pass] [] None [] 5;
        ast.AsyncFunctionDef "f" (params ["self"]) [ast.Pass] [] None [] 7]
       [] []]
    [].

(** Two records for the priority examples. *)
Definition sync_record : FunctionRecord :=
  {| name := VStr "s"; node := NStmt plain_def;
     args := map VStr ["a"; "b"; "c"; "d"; "e"]; is_async := false;
     decorators := []; complexity := 2; calls := []; line := VInt 1 |}.

Definition async_record : FunctionRecord :=
  {| name := VStr "a"; node := NStmt plain_def;
     args := [VStr "x"]; is_async := true;
     decorators := []; complexity := 0; calls := []; line := VInt 1 |}.

(** A file system with a well-formed file, a file of invalid text, a file
    written in Latin-1 (the bytes of [# caf\xe9], then a line feed), a
    protected file, a directory, and nothing else; and a parser that knows
    the two texts. *)
Definition sample_files : file_system :=
  fun path =>
    if String.eqb path "ok.py" then Regular (list_byte_of_string "pass")
    else if String.eqb path "broken.py" then
      Regular (list_byte_of_string "def (")
    else if String.eqb path "latin1.py" then
      Regular [Byte.x23; Byte.x20; Byte.x63; Byte.x61; Byte.x66; Byte.xe9;
               Byte.x0a]
    else if String.eqb path "secret.py" then Protected
    else if String.eqb path "package" then Directory
    else Missing.

Definition sample_ast_parse (text : string) : result ast.mod_ :=
  if String.eqb text "pass" then Ok (ast.Module [ast.Pass] [])
  else Exc SyntaxError.

(** ** Vocabulary of the further properties *)

(** The sorts of node that can hold statements: a module, a statement, an
    exception handler, a case of a [match].  Every other node is made of
    expressions, patterns, operators and names only. *)
Definition holds_statements (n : AST) : bool :=
  match n with
  | NMod _ | NStmt _ | NExceptHandler _ | NMatchCase _ => true
  | _ => false
  end.

Definition Zsum (l : list Z) : Z := fold_right Z.add 0%Z l.

(** The statements of a module. *)
Definition mod_body (m : ast.mod_) : list ast.stmt :=
  match m with ast.Module body _ => body end.

(**
<<
def a():
    def inner():
        pass
try:
    def b():
        pass
except E:
    pass
>> *)
Definition guarded_order_module : ast.mod_ :=
  ast.Module
    [ast.FunctionDef "a" no_params
       [ast.FunctionDef "inner" no_params [ast.Pass] [] None [] 2] [] None [] 1;
     ast.Try [ast.FunctionDef "b" no_params [ast.Pass] [] None [] 5]
       [ast.ExceptHandler (Some (load "E")) None [ast.Pass]] [] []]
    [].

(**
<<
def a():
    def inner():
        pass
def b():
    pass
>> *)
Definition nested_order_module : ast.mod_ :=
  ast.Module
    [ast.FunctionDef "a" no_params
       [ast.FunctionDef "inner" no_params [ast.Pass] [] None [] 2] [] None [] 1;
     ast.FunctionDef "b" no_params [ast.Pass] [] None [] 4]
    [].



(** * The analyzer over a store of objects

    A second embedding of [extract_functions] and of what it calls, in which
    the objects of the program live in a store: the nodes of the tree, the
    analyzer instance, and the lists, dictionaries and queues the methods
    create.  Reading an attribute looks an object up; [list.append] and the
    queue of [ast.walk] update an object in place.  The methods bear the same
    names as above, inside [Module Heap]. *)

Definition address : Type := nat.

(** A value: a scalar, or a reference to an object. *)
Inductive pyval : Type :=
| PAtom (a : atom)
| PRef (r : address).

Inductive object : Type :=
| ONode (cls : string) (fields attrs : list (string * pyval))
| OList (items : list pyval)
| ODeque (items : list pyval)
| ODict (entries : list (string * pyval))
| OInstance (attrs : list (string * pyval)).

Definition store : Type := list object.

(** The end of a run.  [Stuck] is no state of Python: the iterations allowed
    to a loop are used up, or a reference names nothing. *)
Inductive run (A : Type) : Type :=
| Finished (a : A)
| Raised (e : exn)
| Stuck.
Arguments Finished {A} a.
Arguments Raised {A} e.
Arguments Stuck {A}.

Definition prog (A : Type) : Type := store -> run A * store.

Definition ret {A} (a : A) : prog A := fun st => (Finished a, st).

Definition raise {A} (e : exn) : prog A := fun st => (Raised e, st).

Definition stuck {A} : prog A := fun st => (Stuck, st).

Definition pbind {A B} (m : prog A) (k : A -> prog B) : prog B :=
  fun st =>
    match m st with
    | (Finished a, st') => k a st'
    | (Raised e, st') => (Raised e, st')
    | (Stuck, st') => (Stuck, st')
    end.

Notation "x <~ m ;; k" := (pbind m (fun x => k))
  (at level 61, m at next level, right associativity).

(** The object at [r] replaced by [o]. *)
Definition store_set (r : address) (o : object) (st : store) : store :=
  firstn r st ++ o :: skipn (S r) st.

Definition new_object (o : object) : prog address :=
  fun st => (Finished (length st), st ++ [o]).

Definition fetch (r : address) : prog object :=
  fun st =>
    match nth_error st r with
    | Some o => (Finished o, st)
    | None => (Stuck, st)
    end.

Definition put (r : address) (o : object) : prog unit :=
  fun st =>
    if (r <? length st)%nat then (Finished tt, store_set r o st)
    else (Stuck, st).

Fixpoint lookup {A} (name : string) (entries : list (string * A)) : option A :=
  match entries with
  | [] => None
  | (k, v) :: entries' =>
      if String.eqb k name then Some v else lookup name entries'
  end.

Fixpoint prog_map {A B} (f : A -> prog B) (xs : list A) : prog (list B) :=
  match xs with
  | [] => ret []
  | x :: xs' => y <~ f x ;; ys <~ prog_map f xs' ;; ret (y :: ys)
  end.

Module Heap.

(** [obj.name] *)
Definition getattr (obj : pyval) (name : string) : prog pyval :=
  match obj with
  | PAtom _ => raise AttributeError
  | PRef r =>
      o <~ fetch r ;;
      match o with
      | ONode _ fields attrs =>
          match lookup name (fields ++ attrs) with
          | Some v => ret v
          | None => raise AttributeError
          end
      | OInstance attrs =>
          match lookup name attrs with
          | Some v => ret v
          | None => raise AttributeError
          end
      | _ => raise AttributeError
      end
  end.

(** [isinstance(obj, (C1, ..., Ck))] for node classes given by name. *)
Definition isinstance (obj : pyval) (classes : list string) : prog bool :=
  match obj with
  | PAtom _ => ret false
  | PRef r =>
      o <~ fetch r ;;
      match o with
      | ONode cls _ _ => ret (existsb (String.eqb cls) classes)
      | _ => ret false
      end
  end.

(** [isinstance(obj, ast.AST)] *)
Definition is_AST (obj : pyval) : prog bool :=
  match obj with
  | PAtom _ => ret false
  | PRef r =>
      o <~ fetch r ;;
      match o with
      | ONode _ _ _ => ret true
      | _ => ret false
      end
  end.

(** The items met when iterating over [obj]. *)
Definition iter (obj : pyval) : prog (list pyval) :=
  match obj with
  | PAtom (AStr s) =>
      ret (map (fun c => PAtom (AStr (String c EmptyString)))
               (list_ascii_of_string s))
  | PAtom _ => raise TypeError
  | PRef r =>
      o <~ fetch r ;;
      match o with
      | OList items | ODeque items => ret items
      | ODict entries => ret (map (fun e => PAtom (AStr (fst e))) entries)
      | _ => raise TypeError
      end
  end.

(** [lst.append(v)] *)
Definition append (lst : pyval) (v : pyval) : prog unit :=
  match lst with
  | PAtom _ => raise AttributeError
  | PRef r =>
      o <~ fetch r ;;
      match o with
      | OList items => put r (OList (items ++ [v]))
      | ODeque items => put r (ODeque (items ++ [v]))
      | _ => raise AttributeError
      end
  end.

(** The node items of a list field. *)
Fixpoint node_items (items : list pyval) : prog (list pyval) :=
  match items with
  | [] => ret []
  | item :: items' =>
      b <~ is_AST item ;;
      rest <~ node_items items' ;;
      ret (if b then item :: rest else rest)
  end.

Definition field_nodes (field : pyval) : prog (list pyval) :=
  match field with
  | PAtom _ => ret []
  | PRef r =>
      o <~ fetch r ;;
      match o with
      | ONode _ _ _ => ret [field]
      | OList items => node_items items
      | _ => ret []
      end
  end.

Fixpoint fields_nodes (fields : list (string * pyval)) : prog (list pyval) :=
  match fields with
  | [] => ret []
  | (_, field) :: fields' =>
      here <~ field_nodes field ;;
      rest <~ fields_nodes fields' ;;
      ret (here ++ rest)
  end.

(** [ast.iter_child_nodes] *)
Definition iter_child_nodes (node : pyval) : prog (list pyval) :=
  match node with
  | PAtom _ => raise AttributeError
  | PRef r =>
      o <~ fetch r ;;
      match o with
      | ONode _ fields _ => fields_nodes fields
      | _ => raise AttributeError
      end
  end.

(** [ast.walk(node)]: the generator is its queue, created holding [node]. *)
Definition walk (node : pyval) : prog address := new_object (ODeque [node]).

(** One step of the generator: [None] when the queue is empty; otherwise the
    front node is popped, its children are appended at the back, and it is
    yielded. *)
Definition next (todo : address) : prog (option pyval) :=
  o <~ fetch todo ;;
  match o with
  | ODeque [] => ret None
  | ODeque (node :: rest) =>
      _ <~ put todo (ODeque rest) ;;
      children <~ iter_child_nodes node ;;
      o' <~ fetch todo ;;
      match o' with
      | ODeque items =>
          _ <~ put todo (ODeque (items ++ children)) ;;
          ret (Some node)
      | _ => stuck
      end
  | _ => stuck
  end.

(** [for node in <generator>: body], at most [fuel] times round the loop;
    [acc] is the local variable that the body rebinds. *)
Fixpoint for_walk {S} (fuel : nat) (todo : address)
         (body : pyval -> S -> prog S) (acc : S) : prog S :=
  match fuel with
  | O => stuck
  | S fuel' =>
      item <~ next todo ;;
      match item with
      | None => ret acc
      | Some node =>
          acc' <~ body node acc ;;
          for_walk fuel' todo body acc'
      end
  end.

(** [_get_decorator_name] *)
Definition _get_decorator_name (decorator_node : pyval) : prog pyval :=
  is_name <~ isinstance decorator_node ["Name"] ;;
  if is_name then getattr decorator_node "id"
  else
    is_attribute <~ isinstance decorator_node ["Attribute"] ;;
    if is_attribute then getattr decorator_node "attr"
    else ret (PAtom (AStr "")).

(** [_count_branches] *)
Definition _count_branches (fuel : nat) (node : pyval) : prog Z :=
  todo <~ walk node ;;
  for_walk fuel todo
    (fun n count =>
       b <~ isinstance n ["If"; "For"; "While"; "Try"; "With"] ;;
       if b then ret (count + 1)%Z else ret count)
    0%Z.

(** [_extract_calls] *)
Definition _extract_calls (fuel : nat) (node : pyval) : prog pyval :=
  calls <~ new_object (OList []) ;;
  todo <~ walk node ;;
  _ <~ for_walk fuel todo
         (fun n (_ : unit) =>
            is_call <~ isinstance n ["Call"] ;;
            if is_call then
              func <~ getattr n "func" ;;
              is_name <~ isinstance func ["Name"] ;;
              if is_name then
                func <~ getattr n "func" ;;
                id <~ getattr func "id" ;;
                append (PRef calls) id
              else
                func <~ getattr n "func" ;;
                is_attribute <~ isinstance func ["Attribute"] ;;
                if is_attribute then
                  func <~ getattr n "func" ;;
                  attr <~ getattr func "attr" ;;
                  append (PRef calls) attr
                else ret tt
            else ret tt)
         tt ;;
  ret (PRef calls).

(** The dictionary appended for one definition node. *)
Definition function_record (fuel : nat) (node : pyval) : prog pyval :=
  name <~ getattr node "name" ;;
  args <~ (a <~ getattr node "args" ;;
           al <~ getattr a "args" ;;
           items <~ iter al ;;
           names <~ prog_map (fun arg => getattr arg "arg") items ;;
           new_object (OList names)) ;;
  is_async <~ isinstance node ["AsyncFunctionDef"] ;;
  decorators <~ (dl <~ getattr node "decorator_list" ;;
                 items <~ iter dl ;;
                 names <~ prog_map _get_decorator_name items ;;
                 new_object (OList names)) ;;
  complexity <~ _count_branches fuel node ;;
  calls <~ _extract_calls fuel node ;;
  line <~ getattr node "lineno" ;;
  record <~ new_object
              (ODict [("name", name);
                      ("node", node);
                      ("args", PRef args);
                      ("is_async", PAtom (ABool is_async));
                      ("decorators", PRef decorators);
                      ("complexity", PAtom (AInt complexity));
                      ("calls", calls);
                      ("line", line)]) ;;
  ret (PRef record).

(** [extract_functions] *)
Definition extract_functions (fuel : nat) (self : pyval) : prog pyval :=
  functions <~ new_object (OList []) ;;
  tree <~ getattr self "tree" ;;
  todo <~ walk tree ;;
  _ <~ for_walk fuel todo
         (fun node (_ : unit) =>
            is_def <~ isinstance node ["FunctionDef"; "AsyncFunctionDef"] ;;
            if is_def then
              record <~ function_record fuel node ;;
              append (PRef functions) record
            else ret tt)
         tt ;;
  ret (PRef functions).

End Heap.

(** ** Trees in the store *)

(** The objects of a tree, created leaves first. *)
Fixpoint store_value (fuel : nat) (v : value) : prog pyval :=
  match fuel with
  | O => stuck
  | S fuel' =>
      let store_field :=
        fun f : string * value =>
          pv <~ store_value fuel' (snd f) ;; ret (fst f, pv) in
      match v with
      | VAtom a => ret (PAtom a)
      | VList items =>
          pitems <~ prog_map (store_value fuel') items ;;
          r <~ new_object (OList pitems) ;;
          ret (PRef r)
      | VNode n =>
          fields <~ prog_map store_field (iter_fields n) ;;
          attrs <~ prog_map store_field (attributes n) ;;
          r <~ new_object (ONode (class_name n) fields attrs) ;;
          ret (PRef r)
      end
  end.

(** A store holding the tree [m] and an analyzer built on it; the address
    of the analyzer is the last one. *)
Definition store_with_analyzer (path text : string) (m : ast.mod_) : store :=
  match store_value (2 * node_count (NMod m) + 2) (VNode (NMod m)) [] with
  | (Finished tree, st) =>
      st ++ [OInstance [("file_path", PAtom (AStr path));
                        ("code", PAtom (AStr text)); ("tree", tree)]]
  | (_, st) => st
  end.

Definition atom_eqb (a b : atom) : bool :=
  match a, b with
  | ANone, ANone | AEllipsis, AEllipsis => true
  | ABool x, ABool y => Bool.eqb x y
  | AInt x, AInt y => Z.eqb x y
  | AStr x, AStr y | ABytes x, ABytes y
  | AFloat x, AFloat y | AComplex x, AComplex y => String.eqb x y
  | _, _ => false
  end.

Fixpoint all2 {A B} (f : A -> B -> bool) (xs : list A) (ys : list B) : bool :=
  match xs, ys with
  | [], [] => true
  | x :: xs', y :: ys' => f x y && all2 f xs' ys'
  | _, _ => false
  end.

(** [represents ok fuel st pv v]: in the store [st], the value [pv] stands
    for [v], a scalar, a node with all that is below it, or a list, through
    objects at addresses accepted by [ok] and in at most [fuel] steps of
    descent. *)
Fixpoint represents (ok : address -> bool) (fuel : nat) (st : store)
         (pv : pyval) (v : value) : bool :=
  match fuel with
  | O => false
  | S fuel' =>
      let field :=
        fun (pf : string * pyval) (f : string * value) =>
          String.eqb (fst pf) (fst f)
          && represents ok fuel' st (snd pf) (snd f) in
      match pv, v with
      | PAtom a, VAtom b => atom_eqb a b
      | PRef r, VNode n =>
          ok r &&
          match nth_error st r with
          | Some (ONode cls fields attrs) =>
              String.eqb cls (class_name n)
              && all2 field fields (iter_fields n)
              && all2 field attrs (attributes n)
          | _ => false
          end
      | PRef r, VList items =>
          ok r &&
          match nth_error st r with
          | Some (OList pitems) => all2 (represents ok fuel' st) pitems items
          | _ => false
          end
      | _, _ => false
      end
  end.

Definition rep_in (ok : address -> bool) (st : store) (pv : pyval) (v : value)
  : Prop :=
  exists fuel, represents ok fuel st pv v = true.

Definition anywhere : address -> bool := fun _ => true.

(** [st'] is [st] followed by more objects: every object of [st] is in
    [st'], at the same address and with the same content. *)
Definition extends (st st' : store) : Prop := exists more, st' = st ++ more.

(** The value [pv] is a dictionary of the store that stands for the
    record [r]. *)
Definition record_in (ok : address -> bool) (st : store) (pv : pyval)
           (r : FunctionRecord) : Prop :=
  exists d pname pnode pargs pdecorators pcalls pline,
    pv = PRef d /\ ok d = true
    /\ nth_error st d
       = Some (ODict [("name", pname);
                      ("node", pnode);
                      ("args", pargs);
                      ("is_async", PAtom (ABool (is_async r)));
                      ("decorators", pdecorators);
                      ("complexity", PAtom (AInt (complexity r)));
                      ("calls", pcalls);
                      ("line", pline)])
    /\ rep_in ok st pname (name r)
    /\ rep_in ok st pnode (VNode (node r))
    /\ rep_in ok st pargs (VList (args r))
    /\ rep_in ok st pdecorators (VList (decorators r))
    /\ rep_in ok st pcalls (VList (calls r))
    /\ rep_in ok st pline (line r).

(** The value [pv] is a list of the store whose items stand, one by one and
    in order, for the records [rs]. *)
Definition records_in_store (st : store) (pv : pyval)
           (rs : list FunctionRecord) : Prop :=
  exists r items,
    pv = PRef r
    /\ nth_error st r = Some (OList items)
    /\ Forall2 (record_in anywhere st) items rs.

(** The value [self] is an analyzer instance of the store whose [tree]
    attribute stands for the module [m]. *)
Definition analyzer_in_store (st : store) (self : pyval) (m : ast.mod_)
  : Prop :=
  exists r attrs tree,
    self = PRef r
    /\ nth_error st r = Some (OInstance attrs)
    /\ lookup "tree" attrs = Some tree
    /\ rep_in anywhere st tree (VNode (NMod m)).

(** A field of a node object stands for a field of a node. *)
Definition field_in (ok : address -> bool) (st : store)
           (pf : string * pyval) (f : string * value) : Prop :=
  fst pf = fst f /\ rep_in ok st (snd pf) (snd f).

(** A string as a value of the store. *)
Definition PStr (s : string) : pyval := PAtom (AStr s).

(** A store with the tree of a module that holds [outer_def], and an
    analyzer built on it. *)
Definition sample_store : store :=
  store_with_analyzer "sample.py" "" (ast.Module [outer_def] []).

Definition sample_self : pyval := PRef (length sample_store - 1).

(** * ReportingAgent: reading a unittest log

    A shallow embedding of [ReportingAgent.parse_unittest_log] of
    [reporting_agent.py].  A Python string is the list of its characters,
    each a Unicode code point. *)

Definition char : Type := N.
Definition str : Type := list char.

(** An ASCII literal. *)
Definition lit (s : string) : str :=
  map Ascii.N_of_ascii (list_ascii_of_string s).

(** The line feed, [chr(10)]. *)
Definition newline : char := 10%N.

(** [s.startswith(prefix)] *)
Fixpoint startswith (prefix s : str) : bool :=
  match prefix with
  | [] => true
  | p :: prefix' =>
      match s with
      | [] => false
      | c :: s' => N.eqb p c && startswith prefix' s'
      end
  end.

(** [s.count(sub)] for a non-empty [sub]: the occurrences of [sub] met from
    left to right, an occurrence starting inside the previous one not being
    counted.  [skip] is the number of characters still covered by the last
    occurrence counted. *)
Fixpoint count_from (sub s : str) (skip : nat) : nat :=
  match s with
  | [] => 0
  | _ :: s' =>
      match skip with
      | S k => count_from sub s' k
      | O =>
          if startswith sub s then S (count_from sub s' (length sub - 1))
          else count_from sub s' 0
      end
  end.

Definition count (sub s : str) : nat := count_from sub s 0.

(** What [.+] takes at the head of [s]: the characters up to the next line
    feed ([.] matches any character but the line feed, and [+] is greedy). *)
Fixpoint line_head (s : str) : str :=
  match s with
  | [] => []
  | c :: s' => if N.eqb c newline then [] else c :: line_head s'
  end.

(** [re.findall(prefix + "(.+)", s)] for a literal [prefix]: the matches are
    looked for from left to right, each search resuming where the previous
    match ended; a match needs at least one character, other than a line
    feed, after the prefix, and yields what follows the prefix up to the end
    of the line.  [skip] is the number of characters still covered by the
    last match. *)
Fixpoint findall_from (prefix s : str) (skip : nat) : list str :=
  match s with
  | [] => []
  | _ :: s' =>
      match skip with
      | S k => findall_from prefix s' k
      | O =>
          if startswith prefix s then
            match line_head (skipn (length prefix) s) with
            | [] => findall_from prefix s' 0
            | c :: g =>
                (c :: g)
                  :: findall_from prefix s' (length prefix + length (c :: g) - 1)
            end
          else findall_from prefix s' 0
      end
  end.

Definition findall_after (prefix s : str) : list str := findall_from prefix s 0.

(** The dictionary stored in [self.results] and returned by
    [parse_unittest_log]. *)
Record Summary : Type := {
  tests_run : Z;
  failures : Z;
  errors : Z;
  skipped : Z;
  failed_tests : list str;
  error_tests : list str;
  raw_log : str;
  status : str;
  recommendations : list str
}.

(** The attributes of the agent that the parsing reads or writes;
    [results] is [None] for the empty dictionary set by the constructor.
    The chat client is not touched by the parsing. *)
Record ReportingAgent : Type := {
  log_path : string;
  results : option Summary
}.

(** What a call can raise: an exception of the file read, or the
    [ValueError] of [int]. *)
Inductive log_exn : Type :=
| ReadError (e : exn)
| ValueError.

Inductive outcome (A : Type) : Type :=
| Returns (a : A)
| Raises (e : log_exn).
Arguments Returns {A} a.
Arguments Raises {A} e.

(** Assignments to the keys of [self.results]. *)
Definition set_tests_run (v : Z) (r : Summary) : Summary :=
  {| tests_run := v; failures := failures r; errors := errors r;
     skipped := skipped r; failed_tests := failed_tests r;
     error_tests := error_tests r; raw_log := raw_log r; status := status r;
     recommendations := recommendations r |}.

Definition set_failures (v : Z) (r : Summary) : Summary :=
  {| tests_run := tests_run r; failures := v; errors := errors r;
     skipped := skipped r; failed_tests := failed_tests r;
     error_tests := error_tests r; raw_log := raw_log r; status := status r;
     recommendations := recommendations r |}.

Definition set_errors (v : Z) (r : Summary) : Summary :=
  {| tests_run := tests_run r; failures := failures r; errors := v;
     skipped := skipped r; failed_tests := failed_tests r;
     error_tests := error_tests r; raw_log := raw_log r; status := status r;
     recommendations := recommendations r |}.

Definition set_failed_tests (v : list str) (r : Summary) : Summary :=
  {| tests_run := tests_run r; failures := failures r; errors := errors r;
     skipped := skipped r; failed_tests := v;
     error_tests := error_tests r; raw_log := raw_log r; status := status r;
     recommendations := recommendations r |}.

Definition set_error_tests (v : list str) (r : Summary) : Summary :=
  {| tests_run := tests_run r; failures := failures r; errors := errors r;
     skipped := skipped r; failed_tests := failed_tests r;
     error_tests := v; raw_log := raw_log r; status := status r;
     recommendations := recommendations r |}.

Definition set_status (v : str) (r : Summary) : Summary :=
  {| tests_run := tests_run r; failures := failures r; errors := errors r;
     skipped := skipped r; failed_tests := failed_tests r;
     error_tests := error_tests r; raw_log := raw_log r; status := v;
     recommendations := recommendations r |}.

Definition set_recommendations (v : list str) (r : Summary) : Summary :=
  {| tests_run := tests_run r; failures := failures r; errors := errors r;
     skipped := skipped r; failed_tests := failed_tests r;
     error_tests := error_tests r; raw_log := raw_log r; status := status r;
     recommendations := v |}.

(** [self.results = r] *)
Definition with_results (self : ReportingAgent) (r : Summary) : ReportingAgent :=
  {| log_path := log_path self; results := Some r |}.

(** The dictionary first assigned to [self.results]. *)
Definition blank_summary (content : str) : Summary :=
  {| tests_run := 0; failures := 0; errors := 0; skipped := 0;
     failed_tests := []; error_tests := []; raw_log := content;
     status := lit "UNKNOWN"; recommendations := [] |}.

Definition default_recommendations : list str :=
  [lit "Remove import-time side effects in main.py.";
   lit "Parameterize stdout/stderr streams for testability.";
   lit "Ensure exceptions propagate correctly (do not swallow).";
   lit "Refactor main.py to separate logic from IO.";
   lit "Add explicit output verification tests for stdout/stderr behavior.";
   lit "Add integration/CI checks to avoid import-time side effects."].

Section LogParsing.

(** [Path(path).read_text(encoding="utf-8", errors="ignore")] *)
Variable read_text : string -> result str.

(** The decimal value of a character of the Unicode category [Nd], the
    characters that [\d] matches and that [int] accepts as digits. *)
Variable decimal : char -> option N.

(** [sys.get_int_max_str_digits()]: the longest digit string [int] converts,
    0 for no limit. *)
Variable max_str_digits : nat.

Definition is_digit (c : char) : bool :=
  match decimal c with Some _ => true | None => false end.

(** A match of [(\d+) test] at the head of [s], as the group: the longest
    run of digits that is followed by [" test"]. *)
Fixpoint match_digits_test (s : str) : option str :=
  match s with
  | [] => None
  | c :: s' =>
      if is_digit c then
        match match_digits_test s' with
        | Some g => Some (c :: g)
        | None => if startswith (lit " test") s' then Some [c] else None
        end
      else None
  end.

(** A match of [Ran (\d+) tests?] at the head of [s], as its group 1. *)
Definition match_ran (s : str) : option str :=
  if startswith (lit "Ran ") s then match_digits_test (skipn 4 s) else None.

(** [re.search(r"Ran (\d+) tests?", s)]: the leftmost match, as its
    group 1. *)
Fixpoint search_ran (s : str) : option str :=
  match match_ran s with
  | Some g => Some g
  | None =>
      match s with
      | [] => None
      | _ :: s' => search_ran s'
      end
  end.

Definition digits_value (ds : str) : Z :=
  fold_left
    (fun acc c =>
       (10 * acc + match decimal c with Some d => Z.of_N d | None => 0 end)%Z)
    ds 0%Z.

(** [int(ds)] for a non-empty string of digits.  [int] refuses a decimal
    string of more than [sys.get_int_max_str_digits()] digits (4300 unless
    configured otherwise, 0 meaning no limit) with a [ValueError], for which
    [None] stands here. *)
Definition int_of_digits (ds : str) : option Z :=
  if ((0 <? max_str_digits) && (max_str_digits <? length ds))%nat then None
  else Some (digits_value ds).

(** The part of [parse_unittest_log] after the number of tests. *)
Definition finish_summary (content : str) (r : Summary) : Summary :=
  let r := set_failures (Z.of_nat (count (lit "FAIL:") content)) r in
  let r := set_errors (Z.of_nat (count (lit "ERROR:") content)) r in
  let r := set_failed_tests (findall_after (lit "FAIL: ") content) r in
  let r := set_error_tests (findall_after (lit "ERROR: ") content) r in
  let r :=
    if ((failures r >? 0) || (errors r >? 0))%Z then
      set_status (lit "FAILED") r
    else set_status (lit "PASSED") r in
  set_recommendations default_recommendations r.

(** [parse_unittest_log] *)
Definition parse_unittest_log (self : ReportingAgent)
  : outcome Summary * ReportingAgent :=
  match read_text (log_path self) with
  | Exc e => (Raises (ReadError e), self)
  | Ok content =>
      let r := blank_summary content in
      match search_ran content with
      | Some group1 =>
          match int_of_digits group1 with
          | None => (Raises ValueError, with_results self r)
          | Some n =>
              let r := finish_summary content (set_tests_run n r) in
              (Returns r, with_results self r)
          end
      | None =>
          let r := finish_summary content r in
          (Returns r, with_results self r)
      end
  end.

End LogParsing.

(** All positions of [s] where [sub] starts. *)
Fixpoint occurrences (sub s : str) : nat :=
  match s with
  | [] => 0
  | _ :: s' => (if startswith sub s then 1 else 0) + occurrences sub s'
  end.

(** [t] is what follows one occurrence of [prefix] in [log], up to the end
    of that line: the line feed that follows, or the end of the log. *)
Definition rest_of_line (prefix t log : str) : Prop :=
  exists before after,
    log = before ++ prefix ++ t ++ after
    /\ (after = [] \/ exists rest, after = newline :: rest).

(** No occurrence of [p] starts inside another one. *)
Definition border_free (p : str) : Prop :=
  forall s j, startswith p s = true -> 0 < j < length p ->
              startswith p (skipn j s) = false.

(** A sample environment: ASCII digits, and a file system with a failing
    log, a passing log, the two joined by a line feed, and a log whose test
    count has 5000 digits. *)
Definition ascii_decimal (c : char) : option N :=
  if ((48 <=? c) && (c <=? 57))%N then Some (c - 48)%N else None.

(**
<<
FAIL: test_add (t.T)
ERROR: test_io (t.T)
FAIL:
Ran 3 tests in 0.01s
>> *)
Definition failing_log : str :=
  lit "FAIL: test_add (t.T)" ++ [newline] ++ lit "ERROR: test_io (t.T)"
    ++ [newline] ++ lit "FAIL:" ++ [newline] ++ lit "Ran 3 tests in 0.01s"
    ++ [newline].

Definition passing_log : str := lit "Ran 12 tests in 0.02s" ++ [newline] ++ lit "OK".

Definition sample_read_text (path : string) : result str :=
  if String.eqb path "failing.log" then Ok failing_log
  else if String.eqb path "passing.log" then Ok passing_log
  else if String.eqb path "joined.log" then
    Ok (failing_log ++ newline :: passing_log)
  else if String.eqb path "long.log" then
    Ok (lit "Ran " ++ repeat 49%N 5000 ++ lit " tests")
  else Exc FileNotFoundError.

Definition agent_on (path : string) : ReportingAgent :=
  {| log_path := path; results := None |}.

(** * Properties *)

(** ** List facts *)

Lemma flat_map_map_comp {A B C} (f : B -> list C) (g : A -> B) (l : list A) :
  flat_map f (map g l) = flat_map (fun x => f (g x)) l.
Proof.
  induction l as [|x l IH]; simpl; [reflexivity | now rewrite IH].
Qed.

Lemma field_nodes_many {A} (g : A -> AST) (l : list A) :
  field_nodes (many (fun x => VNode (g x)) l) = map g l.
Proof.
  unfold many; simpl. induction l as [|x l IH]; simpl; [reflexivity | now rewrite IH].
Qed.

Lemma field_nodes_many_opt {A} (g : A -> AST) (l : list (option A)) :
  field_nodes (many (opt (fun x => VNode (g x))) l)
  = flat_map (onodes (fun x => [g x])) l.
Proof.
  unfold many; simpl. induction l as [|[x|] l IH]; simpl; [reflexivity | now rewrite IH | exact IH].
Qed.

Lemma field_nodes_many_str (l : list string) : field_nodes (many VStr l) = [].
Proof.
  unfold many; simpl. induction l as [|x l IH]; simpl; [reflexivity | exact IH].
Qed.

Lemma flat_map_onodes {A} (f : AST -> list AST) (g : A -> AST) (l : list (option A)) :
  flat_map f (flat_map (onodes (fun x => [g x])) l)
  = flat_map (onodes (fun x => f (g x))) l.
Proof.
  induction l as [|[x|] l IH]; simpl; [reflexivity | now rewrite IH | exact IH].
Qed.

Ltac split_options :=
  repeat match goal with o : option _ |- _ => destruct o end.

Lemma subnodes_unfold (n : AST) :
  subnodes n = n :: flat_map subnodes (iter_child_nodes n).
Proof.
  destruct n as [m|s|e|c|o|o|o|o|c|h|a|a|k|a|w|c|p|t|t];
    try reflexivity.
  all: match goal with x : _ |- _ => destruct x end.
  all: unfold iter_child_nodes;
    cbn [subnodes];
    unfold mod_nodes, withitem_nodes, type_param_nodes;
    cbn [stmt_nodes expr_nodes comprehension_nodes arguments_nodes arg_nodes keyword_nodes pattern_nodes excepthandler_nodes match_case_nodes iter_fields flat_map snd];
    unfold vexpr, vstmt, varg, vpattern, vctx;
    f_equal;
    split_options;
    cbn [opt onodes field_nodes VNone VStr VInt];
    rewrite ?field_nodes_many, ?field_nodes_many_opt, ?field_nodes_many_str;
    rewrite ?flat_map_app; cbn [flat_map];
    rewrite ?flat_map_map_comp, ?flat_map_onodes;
    cbn [subnodes app]; rewrite ?app_nil_r, <- ?app_assoc; cbn [app];
    try reflexivity.
Qed.

(** ** The walk visits every node once, level by level *)

Lemma pending_cons n todo :
  pending (n :: todo) = S (pending (iter_child_nodes n) + pending todo).
Proof.
  unfold pending; simpl. rewrite subnodes_unfold at 1. simpl.
  now rewrite !length_app.
Qed.

Lemma pending_app l1 l2 : pending (l1 ++ l2) = pending l1 + pending l2.
Proof. unfold pending. now rewrite flat_map_app, length_app. Qed.

Lemma pending_children xs :
  pending (flat_map iter_child_nodes xs) + length xs = pending xs.
Proof.
  induction xs as [|x xs IH]; [reflexivity|].
  simpl flat_map. rewrite pending_app, pending_cons. simpl. lia.
Qed.

Lemma pending_nil_inv xs : pending xs = 0 -> xs = [].
Proof. destruct xs; [reflexivity | rewrite pending_cons; discriminate]. Qed.

Lemma walk_loop_perm fuel : forall todo,
  pending todo <= fuel ->
  Permutation (walk_loop fuel todo) (flat_map subnodes todo).
Proof.
  induction fuel as [|fuel IH]; intros todo Hfuel.
  - assert (todo = []) as -> by (apply pending_nil_inv; lia). constructor.
  - destruct todo as [|n rest]; [constructor|].
    rewrite pending_cons in Hfuel.
    cbn [walk_loop flat_map]. rewrite (subnodes_unfold n). cbn [app].
    constructor.
    rewrite IH by (rewrite pending_app; lia).
    rewrite flat_map_app. apply Permutation_app_comm.
Qed.

Lemma walk_loop_front xs : forall fuel acc,
  pending (xs ++ acc) <= fuel ->
  walk_loop fuel (xs ++ acc)
  = xs ++ walk_loop (fuel - length xs) (acc ++ flat_map iter_child_nodes xs).
Proof.
  induction xs as [|x xs IH]; intros fuel acc Hfuel.
  - simpl. now rewrite Nat.sub_0_r, app_nil_r.
  - cbn [app] in Hfuel. rewrite pending_cons in Hfuel.
    destruct fuel as [|fuel]; [lia|].
    cbn [app walk_loop length flat_map Nat.sub]. f_equal.
    rewrite <- app_assoc, IH by (rewrite !pending_app in *; lia).
    now rewrite <- app_assoc.
Qed.

Lemma level_nil k : level k [] = [].
Proof. induction k; simpl; auto. Qed.

Lemma level_exhausted k : forall xs, pending xs <= k -> level k xs = [].
Proof.
  induction k as [|k IH]; intros xs Hk.
  - simpl. apply pending_nil_inv. lia.
  - simpl. destruct xs as [|x xs]; [apply level_nil|].
    apply IH. pose proof (pending_children (x :: xs)) as H. simpl length in H. lia.
Qed.

Lemma levels_from a : forall b xs,
  pending xs <= a ->
  flat_map (fun k => level k xs) (seq a b) = [].
Proof.
  intros b; revert a. induction b as [|b IH]; intros a xs Ha; [reflexivity|].
  cbn [seq flat_map]. rewrite level_exhausted by assumption.
  apply IH. lia.
Qed.

Lemma levels_stable xs a b :
  pending xs <= a -> a <= b ->
  flat_map (fun k => level k xs) (seq 0 b)
  = flat_map (fun k => level k xs) (seq 0 a).
Proof.
  intros Ha Hab. replace b with (a + (b - a)) by lia.
  rewrite seq_app, flat_map_app.
  rewrite (levels_from (0 + a) (b - a) xs) by (simpl; lia).
  apply app_nil_r.
Qed.

Lemma walk_loop_levels fuel : forall xs,
  pending xs <= fuel ->
  walk_loop fuel xs = flat_map (fun k => level k xs) (seq 0 fuel).
Proof.
  induction fuel as [fuel IH] using lt_wf_ind. intros xs Hfuel.
  destruct (length xs) as [|len] eqn:Hlen.
  - apply length_zero_iff_nil in Hlen. subst xs.
    rewrite (levels_stable [] 0 fuel) by (unfold pending; simpl; lia).
    now destruct fuel.
  - pose proof (pending_children xs) as Hc.
    destruct fuel as [|fuel]; [lia|].
    rewrite <- (app_nil_r xs) at 1.
    rewrite walk_loop_front by (rewrite app_nil_r; assumption).
    rewrite Hlen. cbn [app Nat.sub].
    change (seq 0 (S fuel)) with (0 :: seq 1 fuel).
    cbn [flat_map]. rewrite <- seq_shift, flat_map_map_comp.
    cbn [level]. f_equal.
    rewrite IH by lia.
    symmetry. apply levels_stable; lia.
Qed.

Lemma walk_perm n : Permutation (walk n) (subnodes n).
Proof.
  unfold walk, node_count.
  rewrite walk_loop_perm by (unfold pending; simpl; rewrite app_nil_r; lia).
  simpl. now rewrite app_nil_r.
Qed.

Lemma walk_levels n : walk n = levels n.
Proof.
  unfold walk, levels. apply walk_loop_levels.
  unfold pending, node_count. simpl. rewrite app_nil_r. lia.
Qed.

Lemma walk_loop_enough fuel n :
  node_count n <= fuel -> walk_loop fuel [n] = walk n.
Proof.
  intros H. unfold walk.
  assert (Hp : pending [n] = node_count n)
    by (unfold pending, node_count; simpl; now rewrite app_nil_r).
  rewrite !walk_loop_levels by lia.
  apply levels_stable; lia.
Qed.

(** ** The methods, in closed form *)

Lemma Permutation_filter {A} (f : A -> bool) (l l' : list A) :
  Permutation l l' -> Permutation (filter f l) (filter f l').
Proof.
  induction 1 as [|x l l' _ IH|x y l|l l' l'' _ IH1 _ IH2]; simpl.
  - constructor.
  - destruct (f x); [constructor|]; exact IH.
  - destruct (f x), (f y); try reflexivity. constructor.
  - now transitivity (filter f l').
Qed.

Ltac each_class n :=
  destruct n as [[]|[]|[]|[]|[]|[]|[]|[]|[]|[]|[]|[]|[]|[]|[]|[]|[]|[]|[]].

Lemma isinstance_branch (n : AST) :
  isinstance n ["If"; "For"; "While"; "Try"; "With"] = is_branch n.
Proof. each_class n; reflexivity. Qed.

Lemma isinstance_definition (n : AST) :
  isinstance n ["FunctionDef"; "AsyncFunctionDef"] = is_function_definition n.
Proof. each_class n; reflexivity. Qed.

Lemma isinstance_async (n : AST) :
  is_function_definition n = true ->
  isinstance n ["AsyncFunctionDef"] = def_is_async n.
Proof. each_class n; simpl; congruence. Qed.

Lemma count_loop (l : list AST) : forall count,
  for_in l
    (fun n count =>
       if isinstance n ["If"; "For"; "While"; "Try"; "With"] then
         Ok (count + 1)%Z
       else Ok count) count
  = Ok (count + Z.of_nat (length (filter is_branch l)))%Z.
Proof.
  induction l as [|n l IH]; intros count; cbn [for_in filter length].
  - f_equal. lia.
  - rewrite isinstance_branch. destruct (is_branch n); cbn [bind].
    + rewrite IH. f_equal. cbn [length]. lia.
    + apply IH.
Qed.

Lemma count_branches_walk (n : AST) :
  _count_branches n = Ok (Z.of_nat (length (filter is_branch (walk n)))).
Proof. unfold _count_branches. now rewrite count_loop. Qed.

Lemma count_branches_subnodes (n : AST) :
  _count_branches n = Ok (Z.of_nat (length (filter is_branch (subnodes n)))).
Proof.
  rewrite count_branches_walk. do 2 f_equal.
  apply Permutation_length, Permutation_filter, walk_perm.
Qed.

Lemma calls_step (n : AST) (calls : list value) :
  (if isinstance n ["Call"] then
     func <- getattr n "func" ;;
     if isinstance func ["Name"] then
       func <- getattr n "func" ;;
       id <- getattr func "id" ;;
       Ok (calls ++ [id])
     else
       func <- getattr n "func" ;;
       if isinstance func ["Attribute"] then
         func <- getattr n "func" ;;
         attr <- getattr func "attr" ;;
         Ok (calls ++ [attr])
       else Ok calls
   else Ok calls)
  = Ok (calls ++ map VStr (callee n)).
Proof.
  each_class n; try (cbn; now rewrite app_nil_r).
  match goal with func : ast.expr |- _ => destruct func end;
    cbn; now rewrite ?app_nil_r.
Qed.

Lemma calls_loop (l : list AST) : forall calls,
  for_in l
    (fun n calls =>
       if isinstance n ["Call"] then
         func <- getattr n "func" ;;
         if isinstance func ["Name"] then
           func <- getattr n "func" ;;
           id <- getattr func "id" ;;
           Ok (calls ++ [id])
         else
           func <- getattr n "func" ;;
           if isinstance func ["Attribute"] then
             func <- getattr n "func" ;;
             attr <- getattr func "attr" ;;
             Ok (calls ++ [attr])
           else Ok calls
       else Ok calls) calls
  = Ok (calls ++ map VStr (flat_map callee l)).
Proof.
  induction l as [|n l IH]; intros calls; cbn [for_in flat_map map].
  - now rewrite app_nil_r.
  - rewrite calls_step. cbn [bind]. rewrite IH, map_app. now rewrite app_assoc.
Qed.

Lemma extract_calls_walk (n : AST) :
  _extract_calls n = Ok (map VStr (flat_map callee (walk n))).
Proof. unfold _extract_calls. now rewrite calls_loop. Qed.

Lemma get_decorator_name_expr (d : ast.expr) :
  _get_decorator_name (vexpr d) = Ok (VStr (decorator_name d)).
Proof. destruct d; reflexivity. Qed.

Lemma comprehension_map {A B C} (f : B -> result C) (g : A -> B) (h : A -> C)
      (l : list A) :
  (forall x, f (g x) = Ok (h x)) ->
  comprehension f (map g l) = Ok (map h l).
Proof.
  intros Hf. induction l as [|x l IH]; cbn [comprehension map]; [reflexivity|].
  rewrite Hf, IH. reflexivity.
Qed.

Lemma function_record_definition (n : AST) :
  is_function_definition n = true -> function_record n = Ok (record_of n).
Proof.
  intros Hdef. unfold function_record, record_of.
  rewrite count_branches_walk, extract_calls_walk, (isinstance_async n Hdef).
  each_class n; try discriminate Hdef.
  all: match goal with a : ast.arguments |- _ => destruct a end.
  all: cbn -[walk comprehension].
  all: rewrite (comprehension_map _ varg (fun a => VStr (arg_name a)))
         by (intros []; reflexivity).
  all: rewrite (comprehension_map _ vexpr (fun d => VStr (decorator_name d)))
         by apply get_decorator_name_expr.
  all: cbn -[walk]; now rewrite map_map.
Qed.

Lemma functions_loop (l : list AST) : forall functions,
  for_in l
    (fun node functions =>
       if isinstance node ["FunctionDef"; "AsyncFunctionDef"] then
         r <- function_record node ;;
         Ok (functions ++ [r])
       else Ok functions) functions
  = Ok (functions ++ map record_of (filter is_function_definition l)).
Proof.
  induction l as [|n l IH]; intros functions; cbn [for_in filter map].
  - now rewrite app_nil_r.
  - rewrite isinstance_definition.
    destruct (is_function_definition n) eqn:Hdef; cbn [bind].
    + rewrite (function_record_definition n Hdef). cbn [bind map].
      rewrite IH. now rewrite <- app_assoc.
    + apply IH.
Qed.

Lemma extract_functions_walk (a : CodeAnalyzer) :
  extract_functions a
  = (Ok (map record_of (filter is_function_definition (walk (NMod (tree a))))), a).
Proof.
  unfold extract_functions, mbind, self_tree, lift.
  now rewrite functions_loop.
Qed.

Lemma records_Forall (P : FunctionRecord -> Prop) (l : list AST) :
  (forall n, is_function_definition n = true -> P (record_of n)) ->
  Forall P (map record_of (filter is_function_definition l)).
Proof.
  intros HP. apply Forall_map, Forall_forall. intros n Hn.
  apply filter_In in Hn. now apply HP.
Qed.

Lemma definition_not_branch (n : AST) :
  is_function_definition n = true -> is_branch n = false.
Proof. each_class n; simpl; congruence. Qed.

Lemma definition_not_call (n : AST) :
  is_function_definition n = true -> callee n = [].
Proof. each_class n; simpl; congruence. Qed.

Lemma branches_split (n : AST) :
  length (filter is_branch (walk n))
  = (if is_branch n then 1 else 0) + length (filter is_branch (descendants n)).
Proof.
  rewrite (Permutation_length (Permutation_filter is_branch _ _ (walk_perm n))).
  rewrite subnodes_unfold. fold (descendants n). simpl.
  now destruct (is_branch n).
Qed.

Lemma callees_perm (n : AST) :
  Permutation (flat_map callee (walk n)) (callee n ++ flat_map callee (descendants n)).
Proof.
  rewrite (Permutation_flat_map callee (walk_perm n)).
  rewrite subnodes_unfold. reflexivity.
Qed.

(** ** The claims *)

(** C1. [extract_functions] returns one record per function or
    asynchronous-function definition node of the parsed tree, whatever its
    depth: the nodes of the records are, up to order, exactly the definition
    nodes of the tree, so the number of records is the number of definition
    nodes.  Definitions sharing a name each get their record: the sample
    module with four definitions named [f] (top-level, nested in a function,
    two in a class body) yields four records. *)
Theorem extract_functions_one_record_per_definition :
  (forall a : CodeAnalyzer,
      exists rs,
        extract_functions a = (Ok rs, a)
        /\ Permutation (map node rs)
             (filter is_function_definition (subnodes (NMod (tree a))))
        /\ length rs
           = length (filter is_function_definition (subnodes (NMod (tree a)))))
  /\ (exists rs,
        fst (extract_functions (analyzer_of same_name_module)) = Ok rs
        /\ map name rs = [VStr "f"; VStr "f"; VStr "f"; VStr "f"]
        /\ map line rs = [VInt 1; VInt 2; VInt 5; VInt 7]
        /\ map is_async rs = [false; false; false; true]).
Proof.
  split.
  - intros a. eexists. split; [apply extract_functions_walk|].
    assert (Hperm : Permutation
              (map node (map record_of
                 (filter is_function_definition (walk (NMod (tree a))))))
              (filter is_function_definition (subnodes (NMod (tree a))))).
    { rewrite map_map. cbn [node record_of]. rewrite map_id.
      apply Permutation_filter, walk_perm. }
    split; [exact Hperm|].
    rewrite <- (Permutation_length Hperm). now rewrite !length_map.
  - eexists. split; [vm_compute; reflexivity|]. repeat split.
Qed.

(** C2. The complexity of every extracted record is the number of nodes
    below its definition node that are a conditional statement, a for-loop,
    a while-loop, a try block or a with block, each counted once, nested
    definitions included; the sample function with one conditional, one
    for-loop and a nested function holding one while-loop has complexity 3
    (and the nested function has complexity 1). *)
Theorem complexity_counts_branch_descendants :
  (forall a : CodeAnalyzer,
      exists rs,
        extract_functions a = (Ok rs, a)
        /\ Forall (fun r =>
                     complexity r
                     = Z.of_nat (length (filter is_branch (descendants (node r)))))
                  rs)
  /\ (exists outer inner,
        fst (extract_functions (analyzer_of (ast.Module [outer_def] [])))
        = Ok [outer; inner]
        /\ node outer = NStmt outer_def /\ complexity outer = 3%Z
        /\ node inner = NStmt inner_def /\ complexity inner = 1%Z).
Proof.
  split.
  - intros a. eexists. split; [apply extract_functions_walk|].
    apply records_Forall. intros n Hdef. cbn [complexity node record_of].
    now rewrite branches_split, (definition_not_branch n Hdef).
  - do 2 eexists. split; [vm_compute; reflexivity|]. repeat split.
Qed.

(** C3. [calculate_priority] is the complexity, plus 2 for an asynchronous
    definition, plus 1 when there are more than three parameters; the bonus
    for parameters is 1 however many there are beyond three.  A synchronous
    record of complexity 2 with five parameters gets 3, an asynchronous
    record of complexity 0 with one parameter gets 2. *)
Theorem calculate_priority_formula (func : FunctionRecord) :
  calculate_priority func
  = (complexity func
     + (if is_async func then 2 else 0)
     + (if (3 <? length (args func))%nat then 1 else 0))%Z
  /\ (3 < length (args func) ->
      calculate_priority func
      = (complexity func + (if is_async func then 2 else 0) + 1)%Z)
  /\ (complexity func = 2%Z -> is_async func = false ->
      length (args func) = 5 -> calculate_priority func = 3%Z)
  /\ (complexity func = 0%Z -> is_async func = true ->
      length (args func) = 1 -> calculate_priority func = 2%Z).
Proof.
  unfold calculate_priority. cbv zeta.
  repeat split.
  - destruct (is_async func), (3 <? length (args func))%nat; lia.
  - intros Hlen. apply Nat.ltb_lt in Hlen. rewrite Hlen.
    destruct (is_async func); lia.
  - intros -> -> ->. reflexivity.
  - intros -> -> ->. reflexivity.
Qed.

Lemma calculate_priority_formula_witness :
  calculate_priority sync_record = 3%Z /\ calculate_priority async_record = 2%Z.
Proof.
  split.
  - destruct (calculate_priority_formula sync_record) as (_ & _ & H & _).
    apply H; reflexivity.
  - destruct (calculate_priority_formula async_record) as (_ & _ & _ & H).
    apply H; reflexivity.
Defined.

(** C4, as stated, fails on its own example: in
<<
def f():
    helper()
    obj.method()
    (get_fn())()
>>
    the outer call of the third statement is skipped, but its callee
    [get_fn()] is itself a call through a bare name and the walk reaches it,
    so [calls] is [["helper"; "method"; "get_fn"]], not
    [["helper"; "method"]].  Nor are the calls those of the body only: the
    walk starts at the definition node, so calls in decorators and parameter
    defaults are recorded for a function whose body has no call at all. *)
Lemma calls_example_has_inner_callee :
  (exists r,
      fst (extract_functions (analyzer_of (ast.Module [three_calls_def] [])))
      = Ok [r]
      /\ calls r = [VStr "helper"; VStr "method"; VStr "get_fn"]
      /\ calls r <> [VStr "helper"; VStr "method"])
  /\ (exists r,
        fst (extract_functions (analyzer_of (ast.Module [routed_def] [])))
        = Ok [r]
        /\ flat_map callee (flat_map stmt_nodes (def_body (node r))) = []
        /\ calls r = [VStr "route"; VStr "default_page"; VStr "make_path"]).
Proof.
  split.
  - eexists. split; [vm_compute; reflexivity|]. split; [reflexivity|].
    cbn [calls]. discriminate.
  - eexists. split; [vm_compute; reflexivity|]. split; reflexivity.
Qed.

(** C4, amended.  The calls of every extracted record are the callee names
    of all call nodes below the definition node (body, decorators, parameter
    defaults and annotations; nested definitions included), in the order
    the breadth-first walk yields them: by depth, and left to right within
    a depth.  A bare-name callee gives its identifier, an attribute-access
    callee its trailing attribute, any other callee nothing.  The function
    calling [helper()], [obj.method()] and [(get_fn())()] has calls
    [["helper"; "method"; "get_fn"]]; a function with an empty body,
    decorated with [app.route(make_path())] and with a parameter default
    [default_page()], has calls [["route"; "default_page"; "make_path"]]. *)
Theorem calls_are_callees_in_walk_order :
  (forall a : CodeAnalyzer,
      exists rs,
        extract_functions a = (Ok rs, a)
        /\ Forall (fun r =>
                     calls r = map VStr (flat_map callee (levels (node r)))
                     /\ Permutation (calls r)
                          (map VStr (flat_map callee (descendants (node r)))))
                  rs)
  /\ (forall id ctx xs ks, callee (NExpr (ast.Call (ast.Name id ctx) xs ks)) = [id])
  /\ (forall v attr ctx xs ks,
        callee (NExpr (ast.Call (ast.Attribute v attr ctx) xs ks)) = [attr])
  /\ (forall f xs ks ys ls, callee (NExpr (ast.Call (ast.Call f xs ks) ys ls)) = [])
  /\ (exists r,
        fst (extract_functions (analyzer_of (ast.Module [three_calls_def] [])))
        = Ok [r]
        /\ calls r = [VStr "helper"; VStr "method"; VStr "get_fn"])
  /\ (exists r,
        fst (extract_functions (analyzer_of (ast.Module [routed_def] [])))
        = Ok [r]
        /\ calls r = [VStr "route"; VStr "default_page"; VStr "make_path"]).
Proof.
  split; [|split; [|split; [|split; [|split]]]]; try reflexivity.
  - intros a. eexists. split; [apply extract_functions_walk|].
    apply records_Forall. intros n Hdef. cbn [calls node record_of]. split.
    + now rewrite walk_levels.
    + apply Permutation_map. rewrite callees_perm.
      now rewrite (definition_not_call n Hdef).
  - eexists. split; [vm_compute; reflexivity|]. reflexivity.
  - eexists. split; [vm_compute; reflexivity|]. reflexivity.
Qed.

(** C5. The decorators of every extracted record have one entry per
    decorator expression of the definition, in order: the identifier of a
    bare name, the trailing attribute of an attribute access, the empty
    string for any other expression.  A function without decorators has the
    empty list; one decorated with [foo] and [bar.baz] has
    [["foo"; "baz"]]. *)
Theorem decorators_are_decorator_names :
  (forall a : CodeAnalyzer,
      exists rs,
        extract_functions a = (Ok rs, a)
        /\ Forall (fun r =>
                     decorators r
                     = map (fun d => VStr (decorator_name d))
                         (def_decorator_list (node r)))
                  rs)
  /\ (forall d, _get_decorator_name (NExpr d) = Ok (VStr (decorator_name d)))
  /\ (forall id ctx, decorator_name (ast.Name id ctx) = id)
  /\ (forall v attr ctx, decorator_name (ast.Attribute v attr ctx) = attr)
  /\ (forall d, class_name (NExpr d) <> "Name" ->
                class_name (NExpr d) <> "Attribute" -> decorator_name d = "")
  /\ (exists r,
        fst (extract_functions (analyzer_of (ast.Module [plain_def] []))) = Ok [r]
        /\ decorators r = [])
  /\ (exists r,
        fst (extract_functions (analyzer_of (ast.Module [decorated_def] [])))
        = Ok [r]
        /\ decorators r = [VStr "foo"; VStr "baz"]).
Proof.
  split; [|split; [|split; [|split; [|split; [|split]]]]].
  - intros a. eexists. split; [apply extract_functions_walk|].
    apply records_Forall. intros n _. reflexivity.
  - apply get_decorator_name_expr.
  - reflexivity.
  - reflexivity.
  - intros d Hname Hattr. destruct d; try reflexivity; simpl in *; congruence.
  - eexists. split; [vm_compute; reflexivity|]. reflexivity.
  - eexists. split; [vm_compute; reflexivity|]. reflexivity.
Qed.

Lemma decorators_are_decorator_names_witness :
  decorator_name (call0 (load "cache")) = "".
Proof.
  destruct decorators_are_decorator_names as (_ & _ & _ & _ & H & _).
  apply H; simpl; discriminate.
Defined.




(** C8, as stated, fails on a signature with positional-only parameters:
    for [def f(a, /, b)] the positional parameters are [a] and [b], but the
    record lists [b] alone. *)
Lemma args_omit_positional_only :
  exists r,
    fst (extract_functions (analyzer_of (ast.Module [posonly_def] []))) = Ok [r]
    /\ map VStr (positional_parameters (def_arguments (node r)))
       = [VStr "a"; VStr "b"]
    /\ args r = [VStr "b"]
    /\ args r <> map VStr (positional_parameters (def_arguments (node r))).
Proof.
  eexists. split; [vm_compute; reflexivity|]. repeat split. discriminate.
Qed.

(** C8, amended.  The [args] of every extracted record are the names of the
    entries of the [args] field of the definition's signature, in
    declaration order: the parameters that can be passed by position or by
    keyword, with or without a default.  Positional-only, keyword-only and
    variadic parameters are not captured: [def f(a, b=1, *rest, key, **extra)]
    gives [["a"; "b"]]. *)
Theorem args_are_positional_or_keyword_parameters :
  (forall a : CodeAnalyzer,
      exists rs,
        extract_functions a = (Ok rs, a)
        /\ Forall (fun r =>
                     args r
                     = map VStr
                         (positional_or_keyword_parameters
                            (def_arguments (node r))))
                  rs)
  /\ (exists r,
        fst (extract_functions (analyzer_of (ast.Module [mixed_params_def] [])))
        = Ok [r]
        /\ args r = [VStr "a"; VStr "b"]).
Proof.
  split.
  - intros a. eexists. split; [apply extract_functions_walk|].
    apply records_Forall. intros n _. reflexivity.
  - eexists. split; [vm_compute; reflexivity|]. reflexivity.
Qed.

Lemma count_branches_node (n : AST) :
  _count_branches n
  = Ok (Z.of_nat ((if is_branch n then 1 else 0)
                  + length (filter is_branch (descendants n)))).
Proof. now rewrite count_branches_walk, branches_split. Qed.

(** C9. Only [If], [For], [While], [Try] and [With] nodes are counted.  An
    asynchronous for-loop or with-block adds nothing of its own to the count
    (only what is below it), where the plain for-loop and with-block add 1;
    a function whose body is one [async for] and one [async with] has
    complexity 0. *)
Theorem async_for_and_with_not_counted :
  (forall n, is_branch n = true
             <-> In (class_name n) ["If"; "For"; "While"; "Try"; "With"])
  /\ (forall n, _count_branches n
                = Ok (Z.of_nat (length (filter is_branch (subnodes n)))))
  /\ (forall target iter body orelse,
        let n := NStmt (ast.AsyncFor target iter body orelse) in
        _count_branches n
        = Ok (Z.of_nat (length (filter is_branch (descendants n)))))
  /\ (forall items body,
        let n := NStmt (ast.AsyncWith items body) in
        _count_branches n
        = Ok (Z.of_nat (length (filter is_branch (descendants n)))))
  /\ (forall target iter body orelse,
        let n := NStmt (ast.For target iter body orelse) in
        _count_branches n
        = Ok (Z.of_nat (1 + length (filter is_branch (descendants n)))))
  /\ (forall items body,
        let n := NStmt (ast.With items body) in
        _count_branches n
        = Ok (Z.of_nat (1 + length (filter is_branch (descendants n)))))
  /\ (exists r,
        fst (extract_functions (analyzer_of (ast.Module [async_only_def] [])))
        = Ok [r]
        /\ is_async r = true /\ complexity r = 0%Z).
Proof.
  split; [|split; [|split; [|split; [|split; [|split]]]]].
  - intros n. split.
    + each_class n; simpl; intros H; try discriminate H; tauto.
    + each_class n; simpl; intros H; try reflexivity;
        repeat (destruct H as [H|H]; [discriminate H|]); destruct H.
  - apply count_branches_subnodes.
  - intros; apply count_branches_node.
  - intros; apply count_branches_node.
  - intros; apply count_branches_node.
  - intros; apply count_branches_node.
  - eexists. split; [vm_compute; reflexivity|]. split; reflexivity.
Qed.

(** C10. Every record comes from a function or asynchronous-function
    definition node, never from a lambda expression; a tree without
    definition nodes, whatever lambdas it holds, gives the empty list. *)
Theorem lambdas_never_extracted (a : CodeAnalyzer) :
  (forall params body,
      is_function_definition (NExpr (ast.Lambda params body)) = false)
  /\ exists rs,
       extract_functions a = (Ok rs, a)
       /\ Forall (fun r => is_function_definition (node r) = true
                           /\ class_name (node r) <> "Lambda") rs
       /\ (no_definitions (tree a) = true -> rs = []).
Proof.
  split; [reflexivity|].
  eexists. split; [apply extract_functions_walk|]. split.
  - apply records_Forall. intros n Hdef. cbn [node record_of].
    split; [exact Hdef|]. each_class n; try discriminate Hdef; discriminate.
  - intros Hnone. unfold no_definitions in Hnone.
    rewrite forallb_forall in Hnone.
    assert (Hnil : filter is_function_definition (walk (NMod (tree a))) = []).
    { destruct (filter _ _) as [|n l] eqn:Hf; [reflexivity|exfalso].
      assert (Hin : In n (filter is_function_definition (walk (NMod (tree a)))))
        by (rewrite Hf; now left).
      apply filter_In in Hin. destruct Hin as [Hin Hdef].
      apply (Permutation_in _ (walk_perm _)) in Hin.
      apply Hnone in Hin. rewrite Hdef in Hin. discriminate. }
    now rewrite Hnil.
Qed.

Lemma lambdas_never_extracted_witness :
  no_definitions lambdas_module = true
  /\ extract_functions (analyzer_of lambdas_module)
     = (Ok [], analyzer_of lambdas_module).
Proof.
  split; [reflexivity|].
  destruct (lambdas_never_extracted (analyzer_of lambdas_module))
    as (_ & rs & Hrun & _ & Hnone).
  rewrite Hrun. f_equal. f_equal. apply Hnone. reflexivity.
Defined.

(** ** Recursion on the tree through its child nodes *)

Lemma flat_map_length_le {A B} (f : A -> list B) (x : A) (l : list A) :
  In x l -> length (f x) <= length (flat_map f l).
Proof.
  induction l as [|y l IH]; intros Hin; [destruct Hin|].
  cbn [flat_map]. rewrite length_app. destruct Hin as [->|Hin]; [lia|].
  specialize (IH Hin). lia.
Qed.

Lemma child_node_count (n c : AST) :
  In c (iter_child_nodes n) -> node_count c < node_count n.
Proof.
  intros Hin. unfold node_count. rewrite (subnodes_unfold n). cbn [length].
  pose proof (flat_map_length_le subnodes c _ Hin). lia.
Qed.

Lemma AST_children_ind (P : AST -> Prop) :
  (forall n, (forall c, In c (iter_child_nodes n) -> P c) -> P n) ->
  forall n, P n.
Proof.
  intros step n.
  remember (node_count n) as size eqn:Hsize.
  revert n Hsize. induction size as [size IH] using lt_wf_ind.
  intros n ->. apply step. intros c Hin.
  apply (IH (node_count c)); [now apply child_node_count | reflexivity].
Qed.

Lemma subnodes_nested (n : AST) : forall d,
  In d (subnodes n) ->
  exists before after, subnodes n = before ++ subnodes d ++ after.
Proof.
  induction n as [n IH] using AST_children_ind. intros d Hin.
  rewrite subnodes_unfold in Hin. destruct Hin as [<-|Hin].
  - exists [], []. now rewrite app_nil_r.
  - apply in_flat_map in Hin. destruct Hin as (c & Hc & Hd).
    destruct (IH c Hc d Hd) as (before & after & Heq).
    destruct (in_split _ _ Hc) as (l1 & l2 & Hsplit).
    exists (n :: flat_map subnodes l1 ++ before), (after ++ flat_map subnodes l2).
    rewrite (subnodes_unfold n), Hsplit, flat_map_app. cbn [flat_map].
    rewrite Heq. cbn [app]. now rewrite <- !app_assoc.
Qed.

Lemma filter_flat_map {A B} (p : B -> bool) (f : A -> list B) (l : list A) :
  filter p (flat_map f l) = flat_map (fun x => filter p (f x)) l.
Proof.
  induction l as [|x l IH]; [reflexivity|].
  cbn [flat_map]. now rewrite filter_app, IH.
Qed.

Lemma filter_none {A} (p : A -> bool) (l : list A) :
  Forall (fun x => p x = false) l -> filter p l = [].
Proof.
  induction 1 as [|x l Hx _ IH]; [reflexivity|].
  cbn [filter]. now rewrite Hx.
Qed.

Ltac in_fields Hx :=
  repeat first
    [ apply in_app_or in Hx; destruct Hx as [Hx|Hx]
    | apply in_map_iff in Hx; destruct Hx as (? & <- & _); reflexivity
    | apply in_flat_map in Hx; destruct Hx as ([?|] & _ & Hx); cbn [onodes] in Hx
    | destruct Hx as [<-|Hx]; [reflexivity|]
    | destruct Hx ].

Lemma expression_children (n : AST) :
  holds_statements n = false ->
  Forall (fun c => holds_statements c = false) (iter_child_nodes n).
Proof.
  intros Hsort. apply Forall_forall. intros x Hx. revert Hx.
  each_class n; try discriminate Hsort; clear Hsort.
  all: unfold iter_child_nodes; cbn [iter_fields flat_map snd];
    unfold vexpr, vstmt, varg, vpattern, vctx;
    split_options; cbn [opt field_nodes VNone VStr VInt];
    rewrite ?field_nodes_many, ?field_nodes_many_opt, ?field_nodes_many_str;
    intros Hx; in_fields Hx.
Qed.

Lemma expression_subnodes (n : AST) :
  holds_statements n = false ->
  Forall (fun d => holds_statements d = false) (subnodes n).
Proof.
  induction n as [n IH] using AST_children_ind. intros Hsort.
  rewrite subnodes_unfold. constructor; [exact Hsort|].
  apply Forall_forall. intros d Hd.
  apply in_flat_map in Hd. destruct Hd as (c & Hc & Hd).
  pose proof (expression_children n Hsort) as Hcs.
  rewrite Forall_forall in Hcs.
  specialize (IH c Hc (Hcs c Hc)). rewrite Forall_forall in IH. now apply IH.
Qed.

Lemma branch_holds_statements (n : AST) :
  holds_statements n = false -> is_branch n = false.
Proof. each_class n; simpl; congruence. Qed.

Lemma expression_no_branch (n : AST) :
  holds_statements n = false -> filter is_branch (subnodes n) = [].
Proof.
  intros Hsort. apply filter_none.
  eapply Forall_impl; [|apply (expression_subnodes n Hsort)].
  intros d. apply branch_holds_statements.
Qed.

Lemma no_branch_in {A} (f : A -> list AST) (g : A -> AST) (l : list A) :
  (forall x, f x = subnodes (g x)) ->
  (forall x, holds_statements (g x) = false) ->
  filter is_branch (flat_map f l) = [].
Proof.
  intros Hf Hg. rewrite filter_flat_map.
  induction l as [|x l IH]; [reflexivity|].
  cbn [flat_map]. now rewrite Hf, (expression_no_branch _ (Hg x)), IH.
Qed.

Lemma length_flat_map_Zsum {A B} (f : A -> list B) (l : list A) :
  Z.of_nat (length (flat_map f l))
  = Zsum (map (fun x => Z.of_nat (length (f x))) l).
Proof.
  induction l as [|x l IH]; [reflexivity|].
  cbn [flat_map map Zsum fold_right]. fold (Zsum (map (fun x => Z.of_nat (length (f x))) l)).
  rewrite length_app, <- IH. lia.
Qed.

Lemma definition_branches_in_body (n : AST) :
  is_function_definition n = true ->
  filter is_branch (subnodes n)
  = flat_map (fun s => filter is_branch (stmt_nodes s)) (def_body n).
Proof.
  intros Hdef. each_class n; try discriminate Hdef; clear Hdef.
  all: cbn [subnodes stmt_nodes def_body filter is_branch];
    rewrite !filter_app;
    change (arguments_nodes args0) with (subnodes (NArguments args0));
    rewrite (expression_no_branch (NArguments args0) eq_refl);
    rewrite (no_branch_in expr_nodes NExpr decorator_list)
      by (intros; reflexivity);
    rewrite (no_branch_in type_param_nodes NTypeParam type_params)
      by (intros; reflexivity);
    rewrite filter_flat_map;
    destruct returns as [ret|]; cbn [onodes];
    [ change (expr_nodes ret) with (subnodes (NExpr ret));
      rewrite (expression_no_branch (NExpr ret) eq_refl) | cbn [filter] ];
    cbn [app]; rewrite ?app_nil_r; reflexivity.
Qed.

Lemma records_in (a a' : CodeAnalyzer) (rs : list FunctionRecord)
      (r : FunctionRecord) :
  extract_functions a = (Ok rs, a') -> In r rs ->
  r = record_of (node r)
  /\ is_function_definition (node r) = true
  /\ In (node r) (subnodes (NMod (tree a))).
Proof.
  rewrite extract_functions_walk. intros Heq Hin.
  assert (Hrs : rs = map record_of
                       (filter is_function_definition (walk (NMod (tree a)))))
    by congruence.
  subst rs. clear Heq.
  apply in_map_iff in Hin. destruct Hin as (n & <- & Hn).
  apply filter_In in Hn. destruct Hn as [Hn Hdef].
  cbn [node record_of]. split; [reflexivity|]. split; [exact Hdef|].
  exact (Permutation_in _ (walk_perm _) Hn).
Qed.

(** ** Further properties of the analyzer *)

(** X1. Each record identifies its definition: [node] is a function or
    asynchronous-function definition node of the tree, [name] is its name,
    [line] its line number, and [is_async] tells whether the node is an
    asynchronous definition. *)
Theorem records_identify_their_definition (a : CodeAnalyzer) :
  exists rs,
    extract_functions a = (Ok rs, a)
    /\ Forall (fun r =>
                 In (node r) (subnodes (NMod (tree a)))
                 /\ name r = VStr (def_name (node r))
                 /\ line r = VInt (def_lineno (node r))
                 /\ (is_async r = true
                     <-> class_name (node r) = "AsyncFunctionDef")
                 /\ (is_async r = false
                     <-> class_name (node r) = "FunctionDef"))
              rs.
Proof.
  eexists. split; [apply extract_functions_walk|].
  apply Forall_forall. intros r Hr.
  destruct (records_in a a _ r (extract_functions_walk a) Hr)
    as (-> & Hdef & Hin).
  cbn [node name line is_async record_of].
  split; [exact Hin|]. split; [reflexivity|]. split; [reflexivity|].
  revert Hdef. generalize (node r). intros n Hdef.
  each_class n; try discriminate Hdef; cbn; split; split;
    intros H; try reflexivity; discriminate H.
Qed.

Lemma module_level_first (m : ast.mod_) :
  exists deeper,
    flat_map (fun k => filter is_function_definition (level k [NMod m]))
             (seq 0 (node_count (NMod m)))
    = filter is_function_definition (map NStmt (mod_body m)) ++ deeper.
Proof.
  destruct m as [body type_ignores]. cbn [mod_body].
  unfold node_count. cbn [subnodes mod_nodes length seq flat_map level filter
                          is_function_definition app].
  destruct (flat_map stmt_nodes body ++ map NTypeIgnore type_ignores)
    as [|x rest] eqn:Hnodes.
  - exists []. destruct body as [|s body]; [reflexivity|].
    cbn [flat_map stmt_nodes] in Hnodes. destruct s; discriminate Hnodes.
  - cbn [length seq flat_map level].
    eexists. f_equal.
    unfold iter_child_nodes.
    cbn [iter_fields flat_map snd app]. unfold vstmt.
    rewrite !field_nodes_many, !app_nil_r, filter_app.
    assert (Hnone : filter is_function_definition (map NTypeIgnore type_ignores)
                    = []).
    { apply filter_none. apply Forall_forall. intros y Hy.
      apply in_map_iff in Hy. destruct Hy as (t & <- & _). reflexivity. }
    rewrite Hnone. apply app_nil_r.
Qed.

(** X2. The records come in the order of the breadth-first walk: by depth
    in the syntax tree, and from left to right within one depth.  The
    definitions that are themselves statements of the module body therefore
    come first, in source order, before every definition lying deeper in the
    tree.  Depth is not nesting in functions or classes, and the order is
    not line order: for [a] (line 1) holding [inner] (line 2), followed by
    [b] (line 4), the order is [a], [b], [inner]; with [b] placed inside a
    module-level [try] instead, it is [a], [inner], [b]. *)
Theorem records_ordered_by_depth :
  (forall a : CodeAnalyzer,
      exists rs,
        extract_functions a = (Ok rs, a)
        /\ map node rs
           = flat_map
               (fun k => filter is_function_definition
                           (level k [NMod (tree a)]))
               (seq 0 (node_count (NMod (tree a))))
        /\ exists deeper,
             map node rs
             = filter is_function_definition (map NStmt (mod_body (tree a)))
                 ++ deeper)
  /\ (exists rs,
        fst (extract_functions (analyzer_of nested_order_module)) = Ok rs
        /\ map name rs = [VStr "a"; VStr "b"; VStr "inner"]
        /\ map line rs = [VInt 1; VInt 4; VInt 2])
  /\ (exists rs,
        fst (extract_functions (analyzer_of guarded_order_module)) = Ok rs
        /\ map name rs = [VStr "a"; VStr "inner"; VStr "b"]
        /\ map line rs = [VInt 1; VInt 2; VInt 5]).
Proof.
  split; [|split].
  - intros a. eexists. split; [apply extract_functions_walk|].
    assert (Horder : map node
                       (map record_of
                          (filter is_function_definition
                             (walk (NMod (tree a)))))
                     = flat_map
                         (fun k => filter is_function_definition
                                     (level k [NMod (tree a)]))
                         (seq 0 (node_count (NMod (tree a))))).
    { rewrite map_map. cbn [node record_of]. rewrite map_id.
      rewrite walk_levels. unfold levels. apply filter_flat_map. }
    split; [exact Horder|].
    rewrite Horder. apply module_level_first.
  - eexists. split; [vm_compute; reflexivity|]. split; reflexivity.
  - eexists. split; [vm_compute; reflexivity|]. split; reflexivity.
Qed.

(** X3. The metrics of a nested definition are included in those of every
    definition around it: when the node of record [inner] lies below the
    node of record [outer], the complexity of [inner] is at most that of
    [outer], and the calls of [outer] are those of [inner] together with
    others. *)
Theorem nested_definition_metrics_included
        (a : CodeAnalyzer) (rs : list FunctionRecord)
        (outer inner : FunctionRecord) :
  extract_functions a = (Ok rs, a) ->
  In outer rs -> In inner rs ->
  In (node inner) (descendants (node outer)) ->
  (complexity inner <= complexity outer)%Z
  /\ exists others, Permutation (calls outer) (calls inner ++ others).
Proof.
  intros Hrun Houter Hinner Hbelow.
  destruct (records_in a a rs outer Hrun Houter) as (-> & _ & _).
  destruct (records_in a a rs inner Hrun Hinner) as (-> & _ & _).
  cbn [node record_of] in Hbelow. cbn [complexity calls record_of].
  revert Hbelow. generalize (node outer) (node inner). intros n d Hbelow.
  assert (Hin : In d (subnodes n))
    by (rewrite subnodes_unfold; right; exact Hbelow).
  destruct (subnodes_nested n d Hin) as (before & after & Hsplit).
  split.
  - rewrite !(Permutation_length (Permutation_filter is_branch _ _ (walk_perm _))).
    rewrite Hsplit, !filter_app, !length_app. lia.
  - exists (map VStr (flat_map callee before ++ flat_map callee after)).
    rewrite <- map_app. apply Permutation_map.
    rewrite !(Permutation_flat_map callee (walk_perm _)).
    rewrite Hsplit, !flat_map_app.
    rewrite app_assoc, (Permutation_app_comm (flat_map callee before)).
    now rewrite <- app_assoc.
Qed.

Lemma nested_definition_metrics_included_witness :
  exists outer inner,
    node outer = NStmt outer_def /\ node inner = NStmt inner_def
    /\ (complexity inner <= complexity outer)%Z
    /\ exists others, Permutation (calls outer) (calls inner ++ others).
Proof.
  exists (record_of (NStmt outer_def)), (record_of (NStmt inner_def)).
  split; [reflexivity|]. split; [reflexivity|].
  apply (nested_definition_metrics_included
           (analyzer_of (ast.Module [outer_def] []))
           [record_of (NStmt outer_def); record_of (NStmt inner_def)]).
  - vm_compute. reflexivity.
  - left. reflexivity.
  - right. left. reflexivity.
  - vm_compute. do 11 right. left. reflexivity.
Defined.

Lemma Forall2_map_r {A B} (R : A -> B -> Prop) (f : A -> B) (l : list A) :
  (forall x, R x (f x)) -> Forall2 R l (map f l).
Proof. intros HR. induction l; cbn [map]; constructor; auto. Qed.

(** X4. Branch counts add up along the tree: the count returned for a node
    is 1 if the node itself is an [If], [For], [While], [Try] or [With],
    plus the sum of the counts returned for its child nodes. *)
Theorem count_branches_additive (n : AST) :
  exists counts,
    Forall2 (fun c k => _count_branches c = Ok k) (iter_child_nodes n) counts
    /\ _count_branches n
       = Ok ((if is_branch n then 1 else 0) + Zsum counts)%Z.
Proof.
  exists (map (fun c => Z.of_nat (length (filter is_branch (subnodes c))))
              (iter_child_nodes n)).
  split.
  - apply Forall2_map_r. apply count_branches_subnodes.
  - rewrite count_branches_subnodes, subnodes_unfold. f_equal.
    cbn [filter]. rewrite <- length_flat_map_Zsum, <- filter_flat_map.
    destruct (is_branch n); cbn [length]; lia.
Qed.

(** X5. Nothing inside an expression, a signature or a pattern adds to the
    count: for every expression (conditional expressions, comprehensions and
    their conditions, lambdas, boolean operations included) and for every
    node that is not a module, a statement, an exception handler or a
    [match] case, the count is 0. *)
Theorem expressions_add_no_complexity :
  (forall e : ast.expr, _count_branches (NExpr e) = Ok 0%Z)
  /\ (forall sig : ast.arguments, _count_branches (NArguments sig) = Ok 0%Z)
  /\ (forall n : AST, holds_statements n = false -> _count_branches n = Ok 0%Z).
Proof.
  assert (H : forall n, holds_statements n = false ->
                        _count_branches n = Ok 0%Z).
  { intros n Hsort.
    now rewrite count_branches_subnodes, (expression_no_branch n Hsort). }
  split; [|split]; [intros e | intros sig | exact H]; now apply H.
Qed.

Lemma expressions_add_no_complexity_witness :
  _count_branches
    (NExpr (ast.IfExp (load "c")
              (ast.ListComp (load "x")
                 [ast.Comprehension (ast.Name "x" ast.Store) (load "xs")
                    [load "keep"] 0])
              (ast.Lambda no_params (ast.BoolOp ast.Or [load "p"; load "q"]))))
  = Ok 0%Z.
Proof.
  destruct expressions_add_no_complexity as (_ & _ & H).
  apply H. reflexivity.
Defined.

(** X6. The priority of a record lies between its complexity and its
    complexity plus 3, and equals the complexity exactly for a synchronous
    definition with at most three parameters; for the records that
    [extract_functions] builds the complexity, hence the priority, is never
    negative. *)
Theorem priority_bounds :
  (forall func : FunctionRecord,
      (complexity func <= calculate_priority func <= complexity func + 3)%Z
      /\ (calculate_priority func = complexity func
          <-> is_async func = false /\ length (args func) <= 3))
  /\ (forall a : CodeAnalyzer,
        exists rs,
          extract_functions a = (Ok rs, a)
          /\ Forall (fun r => (0 <= complexity r <= calculate_priority r)%Z) rs).
Proof.
  assert (Hb : forall func,
             (complexity func <= calculate_priority func
              <= complexity func + 3)%Z).
  { intros func. unfold calculate_priority. cbv zeta.
    destruct (is_async func), (3 <? length (args func))%nat; lia. }
  split.
  - intros func. split; [apply Hb|].
    unfold calculate_priority. cbv zeta.
    destruct (is_async func), (3 <? length (args func))%nat eqn:Hlen;
      (apply Nat.ltb_lt in Hlen || apply Nat.ltb_ge in Hlen);
      split; try lia; intros [? ?]; try discriminate; lia.
  - intros a. eexists. split; [apply extract_functions_walk|].
    apply records_Forall. intros n _.
    split; [cbn [complexity record_of]; lia | apply Hb].
Qed.

(** X7. The complexity of a record depends on the body of its definition
    only, statement by statement: it is the sum of the branch counts of the
    statements of the body.  Decorators, parameters, defaults and
    annotations add nothing. *)
Theorem complexity_is_sum_over_body (a : CodeAnalyzer) :
  exists rs,
    extract_functions a = (Ok rs, a)
    /\ Forall (fun r =>
                 exists counts,
                   Forall2 (fun s k => _count_branches (NStmt s) = Ok k)
                           (def_body (node r)) counts
                   /\ complexity r = Zsum counts)
              rs.
Proof.
  eexists. split; [apply extract_functions_walk|].
  apply records_Forall. intros n Hdef.
  exists (map (fun s => Z.of_nat (length (filter is_branch (stmt_nodes s))))
              (def_body n)).
  cbn [node complexity record_of]. split.
  - apply Forall2_map_r. intros s. apply (count_branches_subnodes (NStmt s)).
  - rewrite (Permutation_length (Permutation_filter is_branch _ _ (walk_perm n))).
    rewrite (definition_branches_in_body n Hdef).
    apply length_flat_map_Zsum.
Qed.

(** X8. Analysing a module whose body is the concatenation of two bodies
    gives, up to order, the records of the first body together with the
    records of the second. *)
Theorem extract_functions_of_concatenation (body1 body2 : list ast.stmt) :
  exists rs rs1 rs2,
    fst (extract_functions (analyzer_of (ast.Module (body1 ++ body2) [])))
    = Ok rs
    /\ fst (extract_functions (analyzer_of (ast.Module body1 []))) = Ok rs1
    /\ fst (extract_functions (analyzer_of (ast.Module body2 []))) = Ok rs2
    /\ Permutation rs (rs1 ++ rs2)
    /\ length rs = length rs1 + length rs2.
Proof.
  do 3 eexists.
  rewrite !extract_functions_walk. cbn [fst tree analyzer_of].
  split; [reflexivity|]. split; [reflexivity|]. split; [reflexivity|].
  assert (Hdefs : forall body,
             Permutation
               (filter is_function_definition (walk (NMod (ast.Module body []))))
               (filter is_function_definition (flat_map stmt_nodes body))).
  { intros body.
    rewrite (Permutation_filter _ _ _ (walk_perm _)).
    cbn [subnodes mod_nodes map filter is_function_definition].
    now rewrite ?app_nil_r. }
  assert (Hperm : Permutation
            (map record_of
               (filter is_function_definition
                  (walk (NMod (ast.Module (body1 ++ body2) [])))))
            (map record_of
               (filter is_function_definition (walk (NMod (ast.Module body1 []))))
             ++ map record_of
                  (filter is_function_definition
                     (walk (NMod (ast.Module body2 [])))))).
  { rewrite <- map_app. apply Permutation_map.
    rewrite !Hdefs. now rewrite flat_map_app, filter_app. }
  split; [exact Hperm|].
  rewrite (Permutation_length Hperm). apply length_app.
Qed.

(** ** Stores *)

Lemma extends_refl (st : store) : extends st st.
Proof. exists []. now rewrite app_nil_r. Qed.

Lemma extends_trans (st1 st2 st3 : store) :
  extends st1 st2 -> extends st2 st3 -> extends st1 st3.
Proof. intros [m1 ->] [m2 ->]. exists (m1 ++ m2). now rewrite app_assoc. Qed.

Lemma extends_app (st more : store) : extends st (st ++ more).
Proof. now exists more. Qed.

Lemma extends_length (st st' : store) : extends st st' -> length st <= length st'.
Proof. intros [more ->]. rewrite length_app. lia. Qed.

Lemma extends_nth_error (st st' : store) (r : address) (o : object) :
  extends st st' -> nth_error st r = Some o -> nth_error st' r = Some o.
Proof.
  intros [more ->] H. rewrite nth_error_app1; [exact H|].
  apply nth_error_Some. congruence.
Qed.

Lemma extends_nth_error_lt (st st' : store) (r : address) :
  extends st st' -> r < length st -> nth_error st' r = nth_error st r.
Proof. intros [more ->] H. now apply nth_error_app1. Qed.

Lemma nth_error_in_range (st : store) (r : address) (o : object) :
  nth_error st r = Some o -> r < length st.
Proof. intros H. apply nth_error_Some. congruence. Qed.

Lemma store_set_length (r : address) (o : object) (st : store) :
  r < length st -> length (store_set r o st) = length st.
Proof.
  intros Hr. unfold store_set.
  rewrite length_app, length_firstn. cbn [length]. rewrite length_skipn. lia.
Qed.

Lemma store_set_same (r : address) (o : object) (st : store) :
  r < length st -> nth_error (store_set r o st) r = Some o.
Proof.
  intros Hr. unfold store_set.
  rewrite nth_error_app2 by (rewrite length_firstn; lia).
  rewrite length_firstn. replace (r - Nat.min r (length st)) with 0 by lia.
  reflexivity.
Qed.

Lemma store_set_other (r r' : address) (o : object) (st : store) :
  r < length st -> r' <> r ->
  nth_error (store_set r o st) r' = nth_error st r'.
Proof.
  intros Hr Hne. unfold store_set.
  destruct (Nat.lt_ge_cases r' r) as [Hlt|Hge].
  - rewrite nth_error_app1 by (rewrite length_firstn; lia).
    rewrite nth_error_firstn.
    destruct (Nat.ltb_spec r' r); [reflexivity|lia].
  - rewrite nth_error_app2 by (rewrite length_firstn; lia).
    rewrite length_firstn.
    replace (r' - Nat.min r (length st)) with (S (r' - S r)) by lia.
    cbn [nth_error]. rewrite nth_error_skipn. f_equal. lia.
Qed.

Lemma store_set_extends (base st : store) (r : address) (o : object) :
  extends base st -> length base <= r -> r < length st ->
  extends base (store_set r o st).
Proof.
  intros [more ->] Hlo Hhi. unfold store_set.
  exists (firstn (r - length base) more ++ o :: skipn (S r - length base) more).
  rewrite firstn_app, skipn_app.
  rewrite firstn_all2 by lia. rewrite skipn_all2 by lia.
  cbn [app]. now rewrite <- app_assoc.
Qed.

(** ** Representation of values *)

Lemma atom_eqb_eq (a b : atom) : atom_eqb a b = true -> a = b.
Proof.
  destruct a, b; cbn; try discriminate; try reflexivity; intros H.
  - now apply Bool.eqb_prop in H as ->.
  - now apply Z.eqb_eq in H as ->.
  - now apply String.eqb_eq in H as ->.
  - now apply String.eqb_eq in H as ->.
  - now apply String.eqb_eq in H as ->.
  - now apply String.eqb_eq in H as ->.
Qed.

Lemma atom_eqb_refl (a : atom) : atom_eqb a a = true.
Proof.
  destruct a; cbn; try reflexivity;
    try apply String.eqb_refl; try apply Z.eqb_refl.
  now destruct b.
Qed.

Lemma all2_impl {A B} (f g : A -> B -> bool) (xs : list A) : forall ys,
  (forall x y, In x xs -> f x y = true -> g x y = true) ->
  all2 f xs ys = true -> all2 g xs ys = true.
Proof.
  induction xs as [|x xs IH]; intros [|y ys] Hfg H; cbn in *;
    try discriminate; [reflexivity|].
  apply andb_true_iff in H as [H1 H2]. apply andb_true_iff. split.
  - apply Hfg; auto.
  - apply IH; auto.
Qed.

Lemma all2_Forall2 {A B} (f : A -> B -> bool) (xs : list A) : forall ys,
  all2 f xs ys = true -> Forall2 (fun x y => f x y = true) xs ys.
Proof.
  induction xs as [|x xs IH]; intros [|y ys] H; cbn in *;
    try discriminate; constructor.
  - now apply andb_true_iff in H.
  - apply IH. now apply andb_true_iff in H.
Qed.

Lemma Forall2_weaken {A B} (R R' : A -> B -> Prop) (xs : list A) (ys : list B) :
  (forall x y, R x y -> R' x y) -> Forall2 R xs ys -> Forall2 R' xs ys.
Proof. intros HR H. induction H; constructor; auto. Qed.

(** What stands for a value in one store stands for it in any store that has
    the same objects at the addresses gone through. *)
Lemma represents_transfer (ok ok' : address -> bool) (st st' : store) :
  (forall r o, ok r = true -> nth_error st r = Some o ->
               ok' r = true /\ nth_error st' r = Some o) ->
  forall fuel pv v,
    represents ok fuel st pv v = true -> represents ok' fuel st' pv v = true.
Proof.
  intros Hsame. induction fuel as [|fuel IH]; intros pv v H; [discriminate|].
  cbn [represents] in *. destruct pv as [a|r], v as [b|n|items];
    try discriminate; try exact H.
  - apply andb_true_iff in H as [Hok H].
    destruct (nth_error st r) as [o|] eqn:Hr; [|discriminate].
    destruct (Hsame r o Hok Hr) as [-> ->]. cbn [andb].
    destruct o; try discriminate.
    apply andb_true_iff in H as [H Ha]. apply andb_true_iff in H as [Hc Hf].
    rewrite Hc. cbn [andb]. apply andb_true_iff. split.
    + revert Hf. apply all2_impl. intros x y _ Hxy.
      apply andb_true_iff in Hxy as [-> Hxy]. now apply IH.
    + revert Ha. apply all2_impl. intros x y _ Hxy.
      apply andb_true_iff in Hxy as [-> Hxy]. now apply IH.
  - apply andb_true_iff in H as [Hok H].
    destruct (nth_error st r) as [o|] eqn:Hr; [|discriminate].
    destruct (Hsame r o Hok Hr) as [-> ->]. cbn [andb].
    destruct o; try discriminate.
    revert H. apply all2_impl. intros x y _. apply IH.
Qed.

Lemma rep_in_transfer (ok ok' : address -> bool) (st st' : store)
      (pv : pyval) (v : value) :
  (forall r o, ok r = true -> nth_error st r = Some o ->
               ok' r = true /\ nth_error st' r = Some o) ->
  rep_in ok st pv v -> rep_in ok' st' pv v.
Proof.
  intros Hsame [fuel H]. exists fuel. now apply (represents_transfer ok ok' st st').
Qed.

Lemma rep_in_extends (st st' : store) (pv : pyval) (v : value) :
  extends st st' -> rep_in anywhere st pv v -> rep_in anywhere st' pv v.
Proof.
  intros Hext. apply rep_in_transfer. intros r o _ Hr. split; [reflexivity|].
  now apply (extends_nth_error st).
Qed.

Lemma rep_atom (ok : address -> bool) (st : store) (pv : pyval) (a : atom) :
  rep_in ok st pv (VAtom a) -> pv = PAtom a.
Proof.
  intros [[|fuel] H]; [discriminate|]. cbn in H.
  destruct pv; [|discriminate]. now apply atom_eqb_eq in H as ->.
Qed.

Lemma rep_atom_intro (ok : address -> bool) (st : store) (a : atom) :
  rep_in ok st (PAtom a) (VAtom a).
Proof. exists 1. apply atom_eqb_refl. Qed.

Lemma rep_node (ok : address -> bool) (st : store) (pv : pyval) (n : AST) :
  rep_in ok st pv (VNode n) ->
  exists r fields attrs,
    pv = PRef r /\ ok r = true
    /\ nth_error st r = Some (ONode (class_name n) fields attrs)
    /\ Forall2 (field_in ok st) fields (iter_fields n)
    /\ Forall2 (field_in ok st) attrs (attributes n).
Proof.
  intros [[|fuel] H]; [discriminate|]. cbn [represents] in H.
  destruct pv as [|r]; [discriminate|].
  apply andb_true_iff in H as [Hok H].
  destruct (nth_error st r) as [[cls fields attrs| | | |]|] eqn:Hr;
    try discriminate.
  apply andb_true_iff in H as [H Ha]. apply andb_true_iff in H as [Hc Hf].
  apply String.eqb_eq in Hc as ->.
  exists r, fields, attrs. repeat split; auto.
  - apply all2_Forall2 in Hf. revert Hf. apply Forall2_weaken.
    intros x y Hxy. apply andb_true_iff in Hxy as [Hn Hxy].
    apply String.eqb_eq in Hn. split; [exact Hn|]. now exists fuel.
  - apply all2_Forall2 in Ha. revert Ha. apply Forall2_weaken.
    intros x y Hxy. apply andb_true_iff in Hxy as [Hn Hxy].
    apply String.eqb_eq in Hn. split; [exact Hn|]. now exists fuel.
Qed.

Lemma rep_list (ok : address -> bool) (st : store) (pv : pyval)
      (items : list value) :
  rep_in ok st pv (VList items) ->
  exists r pitems,
    pv = PRef r /\ ok r = true
    /\ nth_error st r = Some (OList pitems)
    /\ Forall2 (rep_in ok st) pitems items.
Proof.
  intros [[|fuel] H]; [discriminate|]. cbn [represents] in H.
  destruct pv as [|r]; [discriminate|].
  apply andb_true_iff in H as [Hok H].
  destruct (nth_error st r) as [[| pitems | | |]|] eqn:Hr; try discriminate.
  exists r, pitems. repeat split; auto.
  apply all2_Forall2 in H. revert H. apply Forall2_weaken.
  intros x y Hxy. now exists fuel.
Qed.

Lemma rep_strings (ok : address -> bool) (st : store) (r : address)
      (l : list string) :
  ok r = true -> nth_error st r = Some (OList (map PStr l)) ->
  rep_in ok st (PRef r) (VList (map VStr l)).
Proof.
  intros Hok Hr. exists 2. cbn [represents]. rewrite Hok, Hr. cbn [andb].
  clear Hr. induction l as [|s l IH]; cbn; [reflexivity|].
  rewrite String.eqb_refl. exact IH.
Qed.

Lemma lookup_fields (ok : address -> bool) (st : store) (name : string)
      (pfields : list (string * pyval)) (fields : list (string * value)) :
  Forall2 (field_in ok st) pfields fields ->
  match assoc name fields with
  | Some v => exists pv, lookup name pfields = Some pv /\ rep_in ok st pv v
  | None => lookup name pfields = None
  end.
Proof.
  induction 1 as [|[k pv] [k' v] pfields fields [Hk Hv] _ IH];
    cbn [assoc lookup]; [reflexivity|].
  cbn in Hk, Hv. subst k'. destruct (String.eqb k name); [|exact IH].
  now exists pv.
Qed.

(** ** The operations on the store follow those on values *)

Section Simulation.

Variables (base st : store).
Hypothesis Hext : extends base st.

Lemma fetch_base (r : address) (o : object) :
  nth_error base r = Some o -> fetch r st = (Finished o, st).
Proof.
  intros Hr. unfold fetch. now rewrite (extends_nth_error base st r o Hext Hr).
Qed.

Lemma getattr_sim (pv : pyval) (v : value) (name : string) :
  rep_in anywhere base pv v ->
  match getattr v name with
  | Ok v' =>
      exists pv', Heap.getattr pv name st = (Finished pv', st)
                  /\ rep_in anywhere base pv' v'
  | Exc e => Heap.getattr pv name st = (Raised e, st)
  end.
Proof.
  intros Hrep. destruct v as [a|n|items]; cbn [getattr].
  - apply rep_atom in Hrep as ->. reflexivity.
  - apply rep_node in Hrep as (r & fields & attrs & -> & _ & Hr & Hf & Ha).
    cbn [Heap.getattr]. unfold pbind. rewrite (fetch_base _ _ Hr).
    pose proof (lookup_fields anywhere base name (fields ++ attrs)
                  (iter_fields n ++ attributes n)
                  (Forall2_app Hf Ha)) as Hl.
    destruct (assoc name (iter_fields n ++ attributes n)) as [v'|].
    + destruct Hl as (pv' & -> & Hv). now exists pv'.
    + now rewrite Hl.
  - apply rep_list in Hrep as (r & pitems & -> & _ & Hr & _).
    cbn [Heap.getattr]. unfold pbind. now rewrite (fetch_base _ _ Hr).
Qed.

Lemma isinstance_sim (pv : pyval) (v : value) (classes : list string) :
  rep_in anywhere base pv v ->
  Heap.isinstance pv classes st = (Finished (isinstance v classes), st).
Proof.
  intros Hrep. destruct v as [a|n|items]; cbn [isinstance].
  - apply rep_atom in Hrep as ->. reflexivity.
  - apply rep_node in Hrep as (r & fields & attrs & -> & _ & Hr & _).
    cbn [Heap.isinstance]. unfold pbind. now rewrite (fetch_base _ _ Hr).
  - apply rep_list in Hrep as (r & pitems & -> & _ & Hr & _).
    cbn [Heap.isinstance]. unfold pbind. now rewrite (fetch_base _ _ Hr).
Qed.

Lemma is_AST_sim (pv : pyval) (v : value) :
  rep_in anywhere base pv v ->
  Heap.is_AST pv st
  = (Finished (match v with VNode _ => true | _ => false end), st).
Proof.
  intros Hrep. destruct v as [a|n|items].
  - apply rep_atom in Hrep as ->. reflexivity.
  - apply rep_node in Hrep as (r & fields & attrs & -> & _ & Hr & _).
    cbn [Heap.is_AST]. unfold pbind. now rewrite (fetch_base _ _ Hr).
  - apply rep_list in Hrep as (r & pitems & -> & _ & Hr & _).
    cbn [Heap.is_AST]. unfold pbind. now rewrite (fetch_base _ _ Hr).
Qed.

Lemma iter_sim (pv : pyval) (v : value) :
  rep_in anywhere base pv v ->
  match iter v with
  | Ok items =>
      exists pitems, Heap.iter pv st = (Finished pitems, st)
                     /\ Forall2 (rep_in anywhere base) pitems items
  | Exc e => Heap.iter pv st = (Raised e, st)
  end.
Proof.
  intros Hrep. destruct v as [a|n|items]; cbn [iter].
  - apply rep_atom in Hrep as ->. destruct a; try reflexivity.
    eexists. split; [reflexivity|].
    induction (list_ascii_of_string s) as [|c l IH]; cbn [map]; constructor.
    + apply rep_atom_intro.
    + exact IH.
  - apply rep_node in Hrep as (r & fields & attrs & -> & _ & Hr & _).
    cbn [Heap.iter]. unfold pbind. now rewrite (fetch_base _ _ Hr).
  - apply rep_list in Hrep as (r & pitems & -> & _ & Hr & Hitems).
    exists pitems. split; [|exact Hitems].
    cbn [Heap.iter]. unfold pbind. now rewrite (fetch_base _ _ Hr).
Qed.

Lemma node_items_sim (pitems : list pyval) (items : list value) :
  Forall2 (rep_in anywhere base) pitems items ->
  exists pnodes,
    Heap.node_items pitems st = (Finished pnodes, st)
    /\ Forall2 (rep_in anywhere base) pnodes
               (map VNode (flat_map node_items items)).
Proof.
  induction 1 as [|pv v pitems items Hv _ (pnodes & IH & Hnodes)].
  - exists []. split; [reflexivity|constructor].
  - cbn [Heap.node_items flat_map]. unfold pbind.
    rewrite (is_AST_sim pv v Hv), IH.
    destruct v as [a|n|l]; cbn [node_items app map].
    + now exists pnodes.
    + exists (pv :: pnodes). split; [reflexivity|]. now constructor.
    + now exists pnodes.
Qed.

Lemma field_nodes_sim (pf : pyval) (f : value) :
  rep_in anywhere base pf f ->
  exists pnodes,
    Heap.field_nodes pf st = (Finished pnodes, st)
    /\ Forall2 (rep_in anywhere base) pnodes (map VNode (field_nodes f)).
Proof.
  intros Hrep. destruct f as [a|n|items]; cbn [field_nodes map].
  - apply rep_atom in Hrep as ->. exists []. split; [reflexivity|constructor].
  - pose proof Hrep as Hn.
    apply rep_node in Hrep as (r & fields & attrs & -> & _ & Hr & _).
    exists [PRef r]. split.
    + cbn [Heap.field_nodes]. unfold pbind. now rewrite (fetch_base _ _ Hr).
    + now repeat constructor.
  - apply rep_list in Hrep as (r & pitems & -> & _ & Hr & Hitems).
    cbn [Heap.field_nodes]. unfold pbind. rewrite (fetch_base _ _ Hr).
    now apply node_items_sim.
Qed.

Lemma fields_nodes_sim (pfields : list (string * pyval))
      (fields : list (string * value)) :
  Forall2 (field_in anywhere base) pfields fields ->
  exists pnodes,
    Heap.fields_nodes pfields st = (Finished pnodes, st)
    /\ Forall2 (rep_in anywhere base) pnodes
               (map VNode (flat_map (fun nf => field_nodes (snd nf)) fields)).
Proof.
  induction 1 as [|[k pf] [k' f] pfields fields [_ Hf] _ (prest & IH & Hrest)].
  - exists []. split; [reflexivity|constructor].
  - cbn in Hf. destruct (field_nodes_sim pf f Hf) as (phere & Hrun & Hhere).
    cbn [Heap.fields_nodes flat_map snd]. unfold pbind. rewrite Hrun, IH.
    exists (phere ++ prest). split; [reflexivity|].
    rewrite map_app. now apply Forall2_app.
Qed.

Lemma iter_child_nodes_sim (pn : pyval) (n : AST) :
  rep_in anywhere base pn (VNode n) ->
  exists pchildren,
    Heap.iter_child_nodes pn st = (Finished pchildren, st)
    /\ Forall2 (rep_in anywhere base) pchildren
               (map VNode (iter_child_nodes n)).
Proof.
  intros Hrep.
  apply rep_node in Hrep as (r & fields & attrs & -> & _ & Hr & Hf & _).
  cbn [Heap.iter_child_nodes]. unfold pbind. rewrite (fetch_base _ _ Hr).
  now apply fields_nodes_sim.
Qed.

Lemma get_decorator_name_sim (pd : pyval) (d : ast.expr) :
  rep_in anywhere base pd (vexpr d) ->
  Heap._get_decorator_name pd st = (Finished (PStr (decorator_name d)), st).
Proof.
  intros Hrep. unfold Heap._get_decorator_name, pbind.
  rewrite (isinstance_sim pd (vexpr d) ["Name"] Hrep).
  pose proof (isinstance_sim pd (vexpr d) ["Attribute"] Hrep) as Hinst.
  pose proof (getattr_sim pd (vexpr d) "id" Hrep) as Hid.
  pose proof (getattr_sim pd (vexpr d) "attr" Hrep) as Hattr.
  destruct d; cbn in *; rewrite ?Hinst; try reflexivity.
  - destruct Hattr as (pv & -> & Hv). now apply rep_atom in Hv as ->.
  - destruct Hid as (pv & -> & Hv). now apply rep_atom in Hv as ->.
Qed.

Lemma decorator_names_sim (pitems : list pyval) (dl : list ast.expr) :
  Forall2 (rep_in anywhere base) pitems (map vexpr dl) ->
  prog_map Heap._get_decorator_name pitems st
  = (Finished (map (fun d => PStr (decorator_name d)) dl), st).
Proof.
  revert pitems. induction dl as [|d dl IH]; intros pitems H;
    inversion H; subst; [reflexivity|].
  cbn [prog_map map]. unfold pbind.
  rewrite (get_decorator_name_sim _ d) by assumption.
  rewrite IH by assumption. reflexivity.
Qed.

Lemma arg_names_sim (pitems : list pyval) (al : list ast.arg) :
  Forall2 (rep_in anywhere base) pitems (map varg al) ->
  prog_map (fun arg => Heap.getattr arg "arg") pitems st
  = (Finished (map (fun a => PStr (arg_name a)) al), st).
Proof.
  revert pitems. induction al as [|a al IH]; intros pitems H;
    inversion H as [|pa ? prest ? Ha Hrest]; subst; [reflexivity|].
  cbn [prog_map map]. unfold pbind.
  pose proof (getattr_sim pa (varg a) "arg" Ha) as Harg.
  destruct a as [arg ann]. cbn in Harg.
  destruct Harg as (pv & -> & Hv). apply rep_atom in Hv as ->.
  rewrite IH by assumption. reflexivity.
Qed.

End Simulation.

(** ** The generator of [ast.walk] *)

Lemma put_in_range (r : address) (o : object) (st : store) :
  r < length st -> put r o st = (Finished tt, store_set r o st).
Proof.
  intros Hr. unfold put.
  now destruct (Nat.ltb_spec r (length st)); [|lia].
Qed.

Lemma next_empty (gen : address) (st : store) :
  nth_error st gen = Some (ODeque []) -> Heap.next gen st = (Finished None, st).
Proof. intros H. unfold Heap.next, pbind, fetch. now rewrite H. Qed.

Lemma next_node (base st : store) (gen : address) (pn : pyval)
      (prest : list pyval) (n : AST) :
  extends base st -> length base <= gen ->
  nth_error st gen = Some (ODeque (pn :: prest)) ->
  rep_in anywhere base pn (VNode n) ->
  exists pchildren,
    Heap.next gen st
    = (Finished (Some pn),
       store_set gen (ODeque (prest ++ pchildren))
                 (store_set gen (ODeque prest) st))
    /\ Forall2 (rep_in anywhere base) pchildren (map VNode (iter_child_nodes n)).
Proof.
  intros Hext Hgen Hq Hn.
  pose proof (nth_error_in_range _ _ _ Hq) as Hlt.
  pose proof (store_set_extends base st gen (ODeque prest) Hext Hgen Hlt) as Hext1.
  destruct (iter_child_nodes_sim base _ Hext1 pn n Hn) as (pchildren & Hrun & Hc).
  exists pchildren. split; [|exact Hc].
  unfold Heap.next, pbind at 1, fetch at 1. rewrite Hq.
  unfold pbind. rewrite (put_in_range _ _ _ Hlt), Hrun.
  unfold fetch. rewrite (store_set_same _ _ _ Hlt).
  rewrite put_in_range by (now rewrite store_set_length).
  reflexivity.
Qed.

Lemma walk_loop_tail (F : nat) (n : AST) (rest : list AST) (x : AST) :
  In x (walk_loop F (rest ++ iter_child_nodes n)) ->
  In x (walk_loop (S F) (n :: rest)).
Proof. intros H. cbn [walk_loop]. now right. Qed.

(** The loop [for node in ast.walk(...)] over a generator whose queue is at
    [gen]: when the body keeps an invariant [I] that the updates of the queue
    do not disturb, the loop ends having visited the nodes of the walk in
    order. *)
Lemma for_walk_spec {S} (base : store) (gen : address)
      (body : pyval -> S -> prog S) (I : list AST -> S -> store -> Prop) :
  length base <= gen ->
  (forall visited acc st o,
     I visited acc st -> gen < length st -> I visited acc (store_set gen o st)) ->
  forall F todo,
    pending todo <= F ->
    (forall n pn visited acc st,
       In n (walk_loop F todo) ->
       rep_in anywhere base pn (VNode n) ->
       extends base st -> gen < length st -> I visited acc st ->
       exists acc' st',
         body pn acc st = (Finished acc', st')
         /\ I (visited ++ [n]) acc' st'
         /\ extends base st' /\ length st <= length st'
         /\ nth_error st' gen = nth_error st gen) ->
    forall fuel visited pitems acc st,
      F < fuel -> extends base st ->
      nth_error st gen = Some (ODeque pitems) ->
      Forall2 (rep_in anywhere base) pitems (map VNode todo) ->
      I visited acc st ->
      exists acc' st',
        Heap.for_walk fuel gen body acc st = (Finished acc', st')
        /\ I (visited ++ walk_loop F todo) acc' st'
        /\ extends base st' /\ length st <= length st'.
Proof.
  intros Hgen Hstable. induction F as [|F IH]; intros todo Hpending Hbody
    fuel visited pitems acc st Hfuel Hext Hq Hitems HI.
  - apply Nat.le_0_r, pending_nil_inv in Hpending as ->.
    inversion Hitems; subst. destruct fuel as [|fuel]; [lia|].
    exists acc, st. cbn [Heap.for_walk walk_loop]. unfold pbind.
    rewrite (next_empty _ _ Hq), app_nil_r. auto using Nat.le_refl.
  - destruct fuel as [|fuel]; [lia|].
    destruct todo as [|n rest].
    + inversion Hitems; subst.
      exists acc, st. cbn [Heap.for_walk walk_loop]. unfold pbind.
      rewrite (next_empty _ _ Hq), app_nil_r. auto using Nat.le_refl.
    + inversion Hitems as [|pn ? prest ? Hn Hrest]; subst.
      pose proof (nth_error_in_range _ _ _ Hq) as Hlt.
      destruct (next_node base st gen pn prest n Hext Hgen Hq Hn)
        as (pchildren & Hnext & Hchildren).
      set (st0 := store_set gen (ODeque prest) st) in *.
      set (st1 := store_set gen (ODeque (prest ++ pchildren)) st0) in *.
      assert (Hlen0 : length st0 = length st) by now apply store_set_length.
      assert (Hlen1 : length st1 = length st)
        by (unfold st1; rewrite store_set_length; lia).
      assert (Hext1 : extends base st1).
      { apply store_set_extends; [|assumption|lia].
        now apply store_set_extends. }
      assert (HI1 : I visited acc st1).
      { apply Hstable; [|lia]. now apply Hstable. }
      destruct (Hbody n pn visited acc st1) as (acc1 & st2 & Hrun & HI2 & Hext2 & Hlen2 & Hq2);
        auto; [now left|lia|].
      assert (Hq1 : nth_error st1 gen = Some (ODeque (prest ++ pchildren)))
        by (apply store_set_same; lia).
      destruct (IH (rest ++ iter_child_nodes n)) with
        (fuel := fuel) (visited := visited ++ [n]) (pitems := prest ++ pchildren)
        (acc := acc1) (st := st2) as (acc' & st' & Hloop & HI' & Hext' & Hlen');
        auto.
      * rewrite pending_app. rewrite pending_cons in Hpending. lia.
      * intros x px vs ac s Hx. apply Hbody. now apply walk_loop_tail.
      * lia.
      * congruence.
      * rewrite map_app. now apply Forall2_app.
      * exists acc', st'. cbn [Heap.for_walk walk_loop]. unfold pbind.
        rewrite Hnext, Hrun, Hloop. rewrite <- app_assoc in HI'.
        repeat split; auto. lia.
Qed.

(** ** The methods on the store *)

Lemma pending_root (n : AST) : pending [n] = node_count n.
Proof. unfold pending, node_count. cbn [flat_map]. now rewrite app_nil_r. Qed.

Lemma walk_node_count (n d : AST) : In d (walk n) -> node_count d <= node_count n.
Proof.
  intros Hin. apply (Permutation_in _ (walk_perm n)) in Hin.
  destruct (subnodes_nested n d Hin) as (before & after & Heq).
  unfold node_count. rewrite Heq, !length_app. lia.
Qed.

Lemma count_branches_store (base st : store) (fuel : nat) (pn : pyval) (n : AST) :
  extends base st -> rep_in anywhere base pn (VNode n) -> node_count n < fuel ->
  exists st',
    Heap._count_branches fuel pn st
    = (Finished (Z.of_nat (length (filter is_branch (walk n)))), st')
    /\ extends st st'.
Proof.
  intros Hext Hn Hfuel.
  unfold Heap._count_branches, Heap.walk, pbind at 1, new_object.
  destruct (for_walk_spec st (length st)
              (fun n count =>
                 b <~ Heap.isinstance n ["If"; "For"; "While"; "Try"; "With"] ;;
                 if b then ret (count + 1)%Z else ret count)
              (fun visited count _ =>
                 count = Z.of_nat (length (filter is_branch visited)))
              (Nat.le_refl _) (fun _ _ _ _ H _ => H)
              (node_count n) [n])
    with (fuel := fuel) (visited := @nil AST) (pitems := [pn]) (acc := 0%Z)
         (st := st ++ [ODeque [pn]])
    as (count & st' & Hrun & Hcount & Hext' & _).
  - now rewrite pending_root.
  - intros x px visited count cur _ Hx Hcur _ ->.
    unfold pbind. rewrite (isinstance_sim st cur Hcur px (VNode x) _ Hx).
    rewrite isinstance_branch, filter_app, length_app. cbn [filter].
    destruct (is_branch x); cbn [length]; eexists _, cur;
      (split; [reflexivity|]); repeat split; auto; lia.
  - exact Hfuel.
  - apply extends_app.
  - rewrite nth_error_app2, Nat.sub_diag by lia. reflexivity.
  - repeat constructor. now apply (rep_in_extends base).
  - reflexivity.
  - exists st'. cbn [app] in Hcount. fold (walk n) in Hcount.
    rewrite Hrun, Hcount. now split.
Qed.

Lemma not_call_callee (n : AST) : isinstance n ["Call"] = false -> callee n = [].
Proof. each_class n; cbn; congruence. Qed.

Lemma call_inv (n : AST) :
  isinstance n ["Call"] = true ->
  exists func args keywords, n = NExpr (ast.Call func args keywords).
Proof. each_class n; cbn; try discriminate. intros _. eauto. Qed.

Lemma append_list (st : store) (r : address) (items : list pyval) (v : pyval) :
  nth_error st r = Some (OList items) ->
  Heap.append (PRef r) v st
  = (Finished tt, store_set r (OList (items ++ [v])) st).
Proof.
  intros Hr. unfold Heap.append, pbind, fetch. rewrite Hr.
  apply put_in_range. now apply nth_error_in_range in Hr.
Qed.

(** One turn of the loop of [_extract_calls]. *)
Lemma calls_step_store (base st : store) (calls : address) (items : list pyval)
      (pn : pyval) (n : AST) :
  extends base st -> rep_in anywhere base pn (VNode n) ->
  nth_error st calls = Some (OList items) ->
  (is_call <~ Heap.isinstance pn ["Call"] ;;
   if is_call then
     func <~ Heap.getattr pn "func" ;;
     is_name <~ Heap.isinstance func ["Name"] ;;
     if is_name then
       func <~ Heap.getattr pn "func" ;;
       id <~ Heap.getattr func "id" ;;
       Heap.append (PRef calls) id
     else
       func <~ Heap.getattr pn "func" ;;
       is_attribute <~ Heap.isinstance func ["Attribute"] ;;
       if is_attribute then
         func <~ Heap.getattr pn "func" ;;
         attr <~ Heap.getattr func "attr" ;;
         Heap.append (PRef calls) attr
       else ret tt
   else ret tt) st
  = (Finished tt,
     match callee n with
     | [] => st
     | names => store_set calls (OList (items ++ map PStr names)) st
     end).
Proof.
  intros Hext Hn Hcalls. unfold pbind at 1.
  rewrite (isinstance_sim base st Hext pn (VNode n) _ Hn).
  destruct (isinstance n ["Call"]) eqn:Hcall.
  - apply call_inv in Hcall as (func & args & keywords & ->).
    pose proof (getattr_sim base st Hext pn _ "func" Hn) as Hfunc.
    cbn in Hfunc. destruct Hfunc as (pf & Hfunc & Hf).
    pose proof (getattr_sim base st Hext pf _ "id" Hf) as Hid.
    pose proof (getattr_sim base st Hext pf _ "attr" Hf) as Hattr.
    unfold pbind.
    rewrite Hfunc, (isinstance_sim base st Hext pf _ ["Name"] Hf).
    destruct func; cbn in Hid, Hattr |- *; rewrite Hfunc;
      rewrite ?(isinstance_sim base st Hext pf _ ["Attribute"] Hf);
      cbn; rewrite ?Hfunc; try reflexivity.
    + destruct Hattr as (pv & -> & Hv). apply rep_atom in Hv as ->.
      now apply append_list.
    + destruct Hid as (pv & -> & Hv). apply rep_atom in Hv as ->.
      now apply append_list.
  - now rewrite (not_call_callee n Hcall).
Qed.

Lemma extract_calls_store (base st : store) (fuel : nat) (pn : pyval) (n : AST) :
  extends base st -> rep_in anywhere base pn (VNode n) -> node_count n < fuel ->
  exists st',
    Heap._extract_calls fuel pn st = (Finished (PRef (length st)), st')
    /\ extends st st'
    /\ nth_error st' (length st)
       = Some (OList (map PStr (flat_map callee (walk n)))).
Proof.
  intros Hext Hn Hfuel.
  unfold Heap._extract_calls, Heap.walk, pbind at 1, new_object.
  unfold pbind at 1. rewrite length_app. cbn [length].
  set (calls := length st).
  destruct (for_walk_spec st (calls + 1)
              (fun n (_ : unit) =>
                 is_call <~ Heap.isinstance n ["Call"] ;;
                 if is_call then
                   func <~ Heap.getattr n "func" ;;
                   is_name <~ Heap.isinstance func ["Name"] ;;
                   if is_name then
                     func <~ Heap.getattr n "func" ;;
                     id <~ Heap.getattr func "id" ;;
                     Heap.append (PRef calls) id
                   else
                     func <~ Heap.getattr n "func" ;;
                     is_attribute <~ Heap.isinstance func ["Attribute"] ;;
                     if is_attribute then
                       func <~ Heap.getattr n "func" ;;
                       attr <~ Heap.getattr func "attr" ;;
                       Heap.append (PRef calls) attr
                     else ret tt
                 else ret tt)
              (fun visited _ cur =>
                 nth_error cur calls
                 = Some (OList (map PStr (flat_map callee visited)))))
    with (F := node_count n) (todo := [n])
         (fuel := fuel) (visited := @nil AST) (pitems := [pn]) (acc := tt)
         (st := (st ++ [OList []]) ++ [ODeque [pn]])
    as ([] & st' & Hrun & Hcalls & Hext' & _).
  - unfold calls. lia.
  - intros visited _ cur o HI Hlt. rewrite store_set_other; [exact HI|lia|lia].
  - now rewrite pending_root.
  - intros x px visited [] cur _ Hx Hcur Hlt HI.
    rewrite (calls_step_store st cur calls _ px x Hcur Hx HI).
    rewrite flat_map_app, map_app. cbn [flat_map]. rewrite app_nil_r.
    destruct (callee x) as [|c cs] eqn:Hcallee.
    + exists tt, cur. cbn [map]. rewrite app_nil_r. auto using Nat.le_refl.
    + eexists tt, _. split; [reflexivity|].
      assert (Hc : calls < length cur) by lia.
      repeat split.
      * now apply store_set_same.
      * apply store_set_extends; auto; unfold calls; lia.
      * rewrite store_set_length; lia.
      * apply store_set_other; lia.
  - exact Hfuel.
  - rewrite <- app_assoc. apply extends_app.
  - rewrite nth_error_app2; rewrite length_app; cbn [length]; [|lia].
    now replace (calls + 1 - (length st + 1)) with 0 by (unfold calls; lia).
  - repeat constructor. now apply (rep_in_extends base).
  - rewrite nth_error_app1 by (rewrite length_app; cbn [length]; unfold calls; lia).
    rewrite nth_error_app2, Nat.sub_diag by (unfold calls; lia). reflexivity.
  - exists st'. cbn [app] in Hcalls. fold (walk n) in Hcalls.
    unfold pbind at 1. rewrite Hrun. auto.
Qed.

Lemma pbind_finished {A B} (m : prog A) (k : A -> prog B) (st st' : store)
      (a : A) :
  m st = (Finished a, st') -> pbind m k st = k a st'.
Proof. intros H. unfold pbind. now rewrite H. Qed.

Section DefinitionNodes.

Variables (base st : store) (pn : pyval) (n : AST).
Hypothesis Hext : extends base st.
Hypothesis Hn : rep_in anywhere base pn (VNode n).
Hypothesis Hdef : is_function_definition n = true.

Lemma def_name_store :
  Heap.getattr pn "name" st = (Finished (PStr (def_name n)), st).
Proof.
  pose proof (getattr_sim base st Hext pn _ "name" Hn) as H.
  revert Hdef H. clear. each_class n; try discriminate; intros _ H.
  all: cbn in H; destruct H as (pv & -> & Hv); now apply rep_atom in Hv as ->.
Qed.

Lemma def_lineno_store :
  Heap.getattr pn "lineno" st = (Finished (PAtom (AInt (def_lineno n))), st).
Proof.
  pose proof (getattr_sim base st Hext pn _ "lineno" Hn) as H.
  revert Hdef H. clear. each_class n; try discriminate; intros _ H.
  all: cbn in H; destruct H as (pv & -> & Hv); now apply rep_atom in Hv as ->.
Qed.

Lemma def_args_store :
  (a <~ Heap.getattr pn "args" ;;
   al <~ Heap.getattr a "args" ;;
   items <~ Heap.iter al ;;
   names <~ prog_map (fun arg => Heap.getattr arg "arg") items ;;
   new_object (OList names)) st
  = (Finished (length st),
     st ++ [OList (map PStr
                       (positional_or_keyword_parameters (def_arguments n)))]).
Proof.
  pose proof (getattr_sim base st Hext pn _ "args" Hn) as H.
  assert (exists pa, Heap.getattr pn "args" st = (Finished pa, st)
                     /\ rep_in anywhere base pa (NArguments (def_arguments n)))
    as (pa & Ha & Hpa).
  { revert Hdef H. clear. each_class n; try discriminate; intros _ H; exact H. }
  clear H.
  pose proof (getattr_sim base st Hext pa _ "args" Hpa) as H.
  destruct (def_arguments n) as [posonlyargs args vararg kwonlyargs kw_defaults
                                   kwarg defaults].
  cbn in H. destruct H as (pal & Hal & Hpal).
  pose proof (iter_sim base st Hext pal _ Hpal) as H.
  cbn in H. destruct H as (pitems & Hiter & Hitems).
  rewrite (pbind_finished _ _ _ _ _ Ha). cbv beta.
  rewrite (pbind_finished _ _ _ _ _ Hal). cbv beta.
  rewrite (pbind_finished _ _ _ _ _ Hiter). cbv beta.
  rewrite (pbind_finished _ _ _ _ _ (arg_names_sim base st Hext _ _ Hitems)).
  unfold new_object. cbn [positional_or_keyword_parameters].
  now rewrite map_map.
Qed.

Lemma def_decorators_store :
  (dl <~ Heap.getattr pn "decorator_list" ;;
   items <~ Heap.iter dl ;;
   names <~ prog_map Heap._get_decorator_name items ;;
   new_object (OList names)) st
  = (Finished (length st),
     st ++ [OList (map PStr (map decorator_name (def_decorator_list n)))]).
Proof.
  pose proof (getattr_sim base st Hext pn _ "decorator_list" Hn) as H.
  assert (exists pdl,
             Heap.getattr pn "decorator_list" st = (Finished pdl, st)
             /\ rep_in anywhere base pdl (many vexpr (def_decorator_list n)))
    as (pdl & Hdl & Hpdl).
  { revert Hdef H. clear. each_class n; try discriminate; intros _ H; exact H. }
  clear H.
  pose proof (iter_sim base st Hext pdl _ Hpdl) as H.
  cbn in H. destruct H as (pitems & Hiter & Hitems).
  rewrite (pbind_finished _ _ _ _ _ Hdl). cbv beta.
  rewrite (pbind_finished _ _ _ _ _ Hiter). cbv beta.
  rewrite (pbind_finished _ _ _ _ _ (decorator_names_sim base st Hext _ _ Hitems)).
  unfold new_object. now rewrite map_map.
Qed.

End DefinitionNodes.

Lemma record_in_transfer (ok ok' : address -> bool) (st st' : store)
      (pv : pyval) (r : FunctionRecord) :
  (forall a o, ok a = true -> nth_error st a = Some o ->
               ok' a = true /\ nth_error st' a = Some o) ->
  record_in ok st pv r -> record_in ok' st' pv r.
Proof.
  intros Hsame (d & pname & pnode & pargs & pdecorators & pcalls & pline
                & -> & Hok & Hd & H1 & H2 & H3 & H4 & H5 & H6).
  destruct (Hsame d _ Hok Hd) as [Hok' Hd'].
  exists d, pname, pnode, pargs, pdecorators, pcalls, pline.
  repeat split; auto; eapply rep_in_transfer; eauto.
Qed.

(** The dictionary of one definition: it is created after everything that
    was in the store, and it stands for the record of the node. *)
Lemma function_record_store (base st : store) (fuel : nat) (pn : pyval)
      (n : AST) :
  extends base st -> rep_in anywhere base pn (VNode n) ->
  is_function_definition n = true -> node_count n < fuel ->
  exists d st',
    Heap.function_record fuel pn st = (Finished (PRef d), st')
    /\ extends st st'
    /\ record_in (fun a => (a <? length base)%nat || (length st <=? a)%nat)
                 st' (PRef d) (record_of n).
Proof.
  intros Hext Hn Hdef Hfuel. unfold Heap.function_record.
  rewrite (pbind_finished _ _ _ _ _ (def_name_store base st pn n Hext Hn Hdef)).
  cbv beta.
  rewrite (pbind_finished _ _ _ _ _ (def_args_store base st pn n Hext Hn Hdef)).
  cbv beta.
  set (st1 := st ++ [OList _]).
  assert (Hst1 : extends st st1) by apply extends_app.
  assert (Hext1 : extends base st1) by now apply (extends_trans base st).
  rewrite (pbind_finished _ _ _ _ _
             (isinstance_sim base st1 Hext1 pn _ ["AsyncFunctionDef"] Hn)).
  cbv beta. rewrite (isinstance_async n Hdef).
  rewrite (pbind_finished _ _ _ _ _
             (def_decorators_store base st1 pn n Hext1 Hn Hdef)).
  cbv beta.
  set (st2 := st1 ++ [OList _]).
  assert (Hst2 : extends st1 st2) by apply extends_app.
  assert (Hext2 : extends base st2) by now apply (extends_trans base st1).
  destruct (count_branches_store base st2 fuel pn n Hext2 Hn Hfuel)
    as (st3 & Hcount & Hst3).
  rewrite (pbind_finished _ _ _ _ _ Hcount). cbv beta.
  assert (Hext3 : extends base st3) by now apply (extends_trans base st2).
  destruct (extract_calls_store base st3 fuel pn n Hext3 Hn Hfuel)
    as (st4 & Hcalls & Hst4 & Hlist).
  rewrite (pbind_finished _ _ _ _ _ Hcalls). cbv beta.
  assert (Hext4 : extends base st4) by now apply (extends_trans base st3).
  rewrite (pbind_finished _ _ _ _ _
             (def_lineno_store base st4 pn n Hext4 Hn Hdef)).
  cbv beta. unfold pbind, new_object, ret.
  set (st5 := st4 ++ [ODict _]).
  assert (Hst5 : extends st4 st5) by apply extends_app.
  pose proof (extends_length _ _ Hst1) as L1.
  pose proof (extends_length _ _ Hst2) as L2.
  pose proof (extends_length _ _ Hst3) as L3.
  pose proof (extends_length _ _ Hst4) as L4.
  pose proof (extends_length _ _ Hext) as L0.
  assert (Hfrom1 : extends st1 st5).
  { apply (extends_trans st1 st2); [assumption|].
    apply (extends_trans st2 st3); [assumption|].
    now apply (extends_trans st3 st4). }
  exists (length st4), st5. split; [reflexivity|]. split.
  { now apply (extends_trans st st1). }
  set (ok := fun a => (a <? length base)%nat || (length st <=? a)%nat).
  assert (Hnew : forall a, length st <= a -> ok a = true).
  { intros a Ha. unfold ok. apply orb_true_iff. right. now apply Nat.leb_le. }
  eexists (length st4), _, _, _, _, _, _.
  split; [reflexivity|]. split; [apply Hnew; lia|]. split.
  { unfold st5. rewrite nth_error_app2, Nat.sub_diag by lia. reflexivity. }
  cbn [name node args decorators calls line record_of].
  repeat split.
  - apply rep_atom_intro.
  - revert Hn. apply rep_in_transfer. intros a o _ Ha. split.
    + unfold ok. apply orb_true_iff. left. apply Nat.ltb_lt.
      now apply nth_error_in_range in Ha.
    + apply (extends_nth_error base); [|exact Ha].
      now apply (extends_trans base st4).
  - apply rep_strings; [now apply Hnew|].
    apply (extends_nth_error st1); [exact Hfrom1|].
    unfold st1. rewrite nth_error_app2, Nat.sub_diag by lia. reflexivity.
  - rewrite <- map_map. apply rep_strings.
    + apply Hnew. unfold st1. rewrite length_app. lia.
    + apply (extends_nth_error st2).
      * apply (extends_trans st2 st3); [assumption|].
        now apply (extends_trans st3 st4).
      * unfold st2. rewrite nth_error_app2, Nat.sub_diag by lia. reflexivity.
  - apply rep_strings; [apply Hnew; lia|].
    now apply (extends_nth_error st4).
  - apply rep_atom_intro.
Qed.

(** [extract_functions] on the store: it ends, it leaves every object that
    was in the store as it was, and the list it returns, a new object, holds
    one dictionary for each definition node of the walk, in walk order. *)
Lemma extract_functions_store (st : store) (self : pyval) (m : ast.mod_)
      (fuel : nat) :
  analyzer_in_store st self m -> node_count (NMod m) < fuel ->
  exists st',
    Heap.extract_functions fuel self st = (Finished (PRef (length st)), st')
    /\ extends st st'
    /\ records_in_store st' (PRef (length st))
         (map record_of (filter is_function_definition (walk (NMod m)))).
Proof.
  intros (r & attrs & ptree & -> & Hself & Htree & Hrep) Hfuel.
  unfold Heap.extract_functions, pbind at 1, new_object.
  assert (Hget : Heap.getattr (PRef r) "tree" (st ++ [OList []])
                 = (Finished ptree, st ++ [OList []])).
  { cbn [Heap.getattr]. unfold pbind, fetch.
    rewrite (extends_nth_error st _ r _ (extends_app _ _) Hself).
    now rewrite Htree. }
  rewrite (pbind_finished _ _ _ _ _ Hget). cbv beta.
  unfold Heap.walk, pbind at 1, new_object.
  rewrite length_app. cbn [length].
  set (functions := length st).
  set (ok := fun a => (a <? length st)%nat || (functions + 1 <? a)%nat).
  destruct (for_walk_spec st (functions + 1)
              (fun node (_ : unit) =>
                 is_def <~ Heap.isinstance node
                             ["FunctionDef"; "AsyncFunctionDef"] ;;
                 if is_def then
                   record <~ Heap.function_record fuel node ;;
                   Heap.append (PRef functions) record
                 else ret tt)
              (fun visited _ cur =>
                 exists items,
                   nth_error cur functions = Some (OList items)
                   /\ Forall2 (record_in ok cur) items
                        (map record_of
                             (filter is_function_definition visited))))
    with (F := node_count (NMod m)) (todo := [NMod m])
         (fuel := fuel) (visited := @nil AST) (pitems := [ptree]) (acc := tt)
         (st := (st ++ [OList []]) ++ [ODeque [ptree]])
    as ([] & st' & Hrun & (items & Hlist & Hitems) & Hext' & _).
  - unfold functions. lia.
  - intros visited _ cur o (items & Hlist & Hitems) Hlt.
    exists items. split.
    + rewrite store_set_other; [exact Hlist|lia|lia].
    + revert Hitems. apply Forall2_weaken. intros pv rec.
      apply record_in_transfer. intros a o' Ha Hnth. split; [exact Ha|].
      rewrite store_set_other; [exact Hnth|lia|].
      intros ->. unfold ok in Ha. apply orb_true_iff in Ha as [Ha|Ha].
      * apply Nat.ltb_lt in Ha. unfold functions in Ha. lia.
      * apply Nat.ltb_lt in Ha. lia.
  - now rewrite pending_root.
  - intros x px visited [] cur Hin Hx Hcur Hlt (items & Hlist & Hitems).
    unfold pbind at 1.
    rewrite (isinstance_sim st cur Hcur px (VNode x) _ Hx).
    rewrite isinstance_definition, filter_app, map_app. cbn [filter].
    destruct (is_function_definition x) eqn:Hdef.
    + assert (Hsize : node_count x < fuel).
      { fold (walk (NMod m)) in Hin. apply walk_node_count in Hin. lia. }
      destruct (function_record_store st cur fuel px x Hcur Hx Hdef Hsize)
        as (d & cur' & Hrec & Hcur' & Hd).
      rewrite (pbind_finished _ _ _ _ _ Hrec).
      pose proof (extends_length _ _ Hcur') as Llen.
      assert (Hlist' : nth_error cur' functions = Some (OList items))
        by now apply (extends_nth_error cur).
      rewrite (append_list _ _ _ _ Hlist').
      assert (Hf : functions < length cur') by lia.
      assert (Hkeep : forall a o,
                 ok a = true -> nth_error cur' a = Some o ->
                 ok a = true
                 /\ nth_error (store_set functions (OList (items ++ [PRef d]))
                                         cur') a = Some o).
      { intros a o Ha Hnth. split; [exact Ha|].
        rewrite store_set_other; [exact Hnth|lia|].
        intros ->. unfold ok in Ha. apply orb_true_iff in Ha as [Ha|Ha];
          apply Nat.ltb_lt in Ha; unfold functions in Ha; lia. }
      eexists tt, _. split; [reflexivity|]. repeat split.
      * exists (items ++ [PRef d]). split; [now apply store_set_same|].
        cbn [map]. apply Forall2_app.
        -- revert Hitems. apply Forall2_weaken. intros pv rec Hpv.
           apply (record_in_transfer ok ok cur'); [exact Hkeep|].
           revert Hpv. apply record_in_transfer. intros a o Ha Hnth.
           split; [exact Ha|]. now apply (extends_nth_error cur).
        -- repeat constructor.
           apply (record_in_transfer ok ok cur'); [exact Hkeep|].
           revert Hd. apply record_in_transfer. intros a o Ha Hnth.
           split; [|exact Hnth]. unfold ok. apply orb_true_iff.
           apply orb_true_iff in Ha as [Ha|Ha]; [now left|right].
           apply Nat.leb_le in Ha. apply Nat.ltb_lt. lia.
      * apply store_set_extends; [|unfold functions; lia|lia].
        now apply (extends_trans st cur).
      * rewrite store_set_length; lia.
      * rewrite store_set_other by lia.
        apply (extends_nth_error_lt cur); [exact Hcur'|lia].
    + exists tt, cur. cbn [map]. rewrite app_nil_r.
      split; [reflexivity|]. repeat split; auto. now exists items.
  - exact Hfuel.
  - rewrite <- app_assoc. apply extends_app.
  - rewrite nth_error_app2; rewrite length_app; cbn [length]; [|lia].
    now replace (functions + 1 - (length st + 1)) with 0
      by (unfold functions; lia).
  - repeat constructor. exact Hrep.
  - exists []. split; [|constructor].
    rewrite nth_error_app1
      by (rewrite length_app; cbn [length]; unfold functions; lia).
    rewrite nth_error_app2, Nat.sub_diag by (unfold functions; lia).
    reflexivity.
  - exists st'. cbn [app] in Hitems. fold (walk (NMod m)) in Hitems.
    unfold pbind at 1. rewrite Hrun. split; [reflexivity|]. split; [exact Hext'|].
    exists functions, items. split; [reflexivity|]. split; [exact Hlist|].
    revert Hitems. apply Forall2_weaken. intros pv rec.
    apply record_in_transfer. intros a o _ Ha. now split.
Qed.

Lemma analyzer_in_extension (st st' : store) (self : pyval) (m : ast.mod_) :
  extends st st' -> analyzer_in_store st self m -> analyzer_in_store st' self m.
Proof.
  intros Hext (r & attrs & ptree & -> & Hself & Htree & Hrep).
  exists r, attrs, ptree. repeat split; auto.
  - now apply (extends_nth_error st).
  - now apply (rep_in_extends st).
Qed.

Lemma records_in_extension (st st' : store) (pv : pyval)
      (rs : list FunctionRecord) :
  extends st st' -> records_in_store st pv rs -> records_in_store st' pv rs.
Proof.
  intros Hext (r & items & -> & Hr & Hitems).
  exists r, items. repeat split; auto.
  - now apply (extends_nth_error st).
  - revert Hitems. apply Forall2_weaken. intros pv rec.
    apply record_in_transfer. intros a o _ Ha. split; [reflexivity|].
    now apply (extends_nth_error st).
Qed.

(** C7. The analyzer, its tree and the objects the method creates are
    objects of a store, which [list.append] and the queue of [ast.walk]
    update in place.  Take any store in which [self] is an analyzer whose
    [tree] attribute is the tree of a module [m], and call
    [extract_functions] twice on it (each loop being allowed more turns than
    the tree has nodes).  Both calls return.  Each leaves every object that
    was in the store before it at its address and with its content: neither
    the nodes of the tree nor the attributes of the instance are written to,
    the updates go to objects the call itself created.  The first call
    returns a list of dictionaries that stand, one by one and in order, for
    the records [rs] that the method computes on [m]; the second call
    returns another list object, which stands for the same [rs]; and the
    list of the first call still stands for [rs] after the second. *)
Theorem extract_functions_idempotent
        (st : store) (self : pyval) (m : ast.mod_) (fuel : nat) :
  analyzer_in_store st self m ->
  node_count (NMod m) < fuel ->
  exists first st1 second st2 rs,
    Heap.extract_functions fuel self st = (Finished first, st1)
    /\ Heap.extract_functions fuel self st1 = (Finished second, st2)
    /\ extends st st1 /\ extends st1 st2
    /\ analyzer_in_store st2 self m
    /\ records_in_store st1 first rs
    /\ records_in_store st2 second rs
    /\ records_in_store st2 first rs
    /\ first <> second
    /\ (forall a, tree a = m -> extract_functions a = (Ok rs, a)).
Proof.
  intros Hself Hfuel.
  destruct (extract_functions_store st self m fuel Hself Hfuel)
    as (st1 & Hrun1 & Hext1 & Hrs1).
  pose proof (analyzer_in_extension st st1 self m Hext1 Hself) as Hself1.
  destruct (extract_functions_store st1 self m fuel Hself1 Hfuel)
    as (st2 & Hrun2 & Hext2 & Hrs2).
  exists (PRef (length st)), st1, (PRef (length st1)), st2,
    (map record_of (filter is_function_definition (walk (NMod m)))).
  repeat split; auto.
  - now apply (analyzer_in_extension st1).
  - now apply (records_in_extension st1).
  - destruct Hrs1 as (r & items & Hr & Hnth & _). injection Hr as <-.
    apply nth_error_in_range in Hnth. intros Heq. injection Heq as Heq. lia.
  - intros a <-. apply extract_functions_walk.
Qed.

Lemma extract_functions_idempotent_witness :
  analyzer_in_store sample_store sample_self (ast.Module [outer_def] [])
  /\ node_count (NMod (ast.Module [outer_def] [])) < 100
  /\ exists first st1 second st2 rs,
       Heap.extract_functions 100 sample_self sample_store = (Finished first, st1)
       /\ Heap.extract_functions 100 sample_self st1 = (Finished second, st2)
       /\ extends sample_store st1 /\ extends st1 st2
       /\ analyzer_in_store st2 sample_self (ast.Module [outer_def] [])
       /\ records_in_store st1 first rs
       /\ records_in_store st2 second rs
       /\ records_in_store st2 first rs
       /\ first <> second
       /\ (forall a, tree a = ast.Module [outer_def] [] ->
                     extract_functions a = (Ok rs, a)).
Proof.
  assert (Hself : analyzer_in_store sample_store sample_self
                    (ast.Module [outer_def] [])).
  { exists 43, [("file_path", PAtom (AStr "sample.py"));
                ("code", PAtom (AStr "")); ("tree", PRef 42)], (PRef 42).
    split; [vm_compute; reflexivity|].
    split; [vm_compute; reflexivity|].
    split; [reflexivity|].
    exists 100. vm_compute. reflexivity. }
  assert (Hfuel : node_count (NMod (ast.Module [outer_def] [])) < 100).
  { apply Nat.ltb_lt. vm_compute. reflexivity. }
  split; [exact Hself|]. split; [exact Hfuel|].
  exact (extract_functions_idempotent sample_store sample_self
           (ast.Module [outer_def] []) 100 Hself Hfuel).
Defined.

(** ** Scanning a log *)

Lemma startswith_eq (p s : str) :
  startswith p s = true -> s = p ++ skipn (length p) s.
Proof.
  revert s. induction p as [|x p IH]; intros s H; [reflexivity|].
  destruct s as [|c s]; [discriminate H|].
  cbn [startswith] in H. apply andb_prop in H. destruct H as [Hx Hp].
  apply N.eqb_eq in Hx. subst c. cbn [length skipn app]. f_equal. now apply IH.
Qed.

Lemma startswith_length (p s : str) :
  startswith p s = true -> length p <= length s.
Proof.
  intros H. pose proof (f_equal (@length char) (startswith_eq p s H)) as E.
  rewrite length_app in E. lia.
Qed.

Lemma startswith_app (p q s : str) :
  startswith (p ++ q) s = true -> startswith p s = true.
Proof.
  revert s. induction p as [|x p IH]; intros s H; [reflexivity|].
  destruct s as [|c s]; [discriminate H|].
  cbn [app startswith] in *. apply andb_prop in H. destruct H as [-> Hp].
  now apply IH.
Qed.

Lemma border_free_FAIL : border_free (lit "FAIL:").
Proof.
  intros s j H Hj. rewrite (startswith_eq _ _ H).
  change (lit "FAIL:") with [70; 65; 73; 76; 58]%N in *.
  cbn [length] in Hj.
  destruct j as [|[|[|[|[|j]]]]]; try lia; reflexivity.
Qed.

Lemma border_free_ERROR : border_free (lit "ERROR:").
Proof.
  intros s j H Hj. rewrite (startswith_eq _ _ H).
  change (lit "ERROR:") with [69; 82; 82; 79; 82; 58]%N in *.
  cbn [length] in Hj.
  destruct j as [|[|[|[|[|[|j]]]]]]; try lia; reflexivity.
Qed.

Lemma count_from_occurrences (p : str) :
  border_free p ->
  forall s k,
    (forall j, j < k -> startswith p (skipn j s) = false) ->
    count_from p s k = occurrences p s.
Proof.
  intros Hfree. induction s as [|c s IH]; intros k Hskip; [reflexivity|].
  cbn [count_from occurrences]. destruct k as [|k].
  - destruct (startswith p (c :: s)) eqn:Hp.
    + cbn [Nat.add]. f_equal. apply IH. intros j Hj.
      apply (Hfree (c :: s) (S j) Hp). lia.
    + apply IH. intros j Hj. lia.
  - assert (H0 : startswith p (c :: s) = false) by (apply (Hskip 0); lia).
    rewrite H0. cbn [Nat.add]. apply IH. intros j Hj.
    apply (Hskip (S j)). lia.
Qed.

Lemma count_occurrences (p s : str) :
  border_free p -> count p s = occurrences p s.
Proof.
  intros Hfree. apply count_from_occurrences; [exact Hfree|]. intros j Hj. lia.
Qed.

Lemma occurrences_app (p q s : str) :
  occurrences (p ++ q) s <= occurrences p s.
Proof.
  induction s as [|c s IH]; [reflexivity|]. cbn [occurrences].
  destruct (startswith (p ++ q) (c :: s)) eqn:Hpq.
  - rewrite (startswith_app p q _ Hpq). lia.
  - destruct (startswith p (c :: s)); lia.
Qed.

Lemma findall_from_occurrences (p : str) :
  forall s k, length (findall_from p s k) <= occurrences p s.
Proof.
  induction s as [|c s IH]; intros k; [reflexivity|].
  cbn [findall_from occurrences]. destruct k as [|k].
  - destruct (startswith p (c :: s)).
    + destruct (line_head (skipn (length p) (c :: s))) as [|x g].
      * specialize (IH 0). lia.
      * cbn [length]. specialize (IH (length p + S (length g) - 1)). lia.
    + apply IH.
  - specialize (IH k). lia.
Qed.

Lemma line_head_no_newline (s : str) : ~ In newline (line_head s).
Proof.
  induction s as [|c s IH]; [intros []|].
  cbn [line_head]. destruct (N.eqb c newline) eqn:Hc; [intros []|].
  apply N.eqb_neq in Hc. intros [H|H]; [now apply Hc | now apply IH].
Qed.

Lemma findall_from_names (p : str) :
  forall s k,
    Forall (fun t => t <> [] /\ ~ In newline t) (findall_from p s k).
Proof.
  induction s as [|c s IH]; intros k; [constructor|].
  cbn [findall_from]. destruct k as [|k]; [|apply IH].
  destruct (startswith p (c :: s)); [|apply IH].
  destruct (line_head (skipn (length p) (c :: s))) as [|x g] eqn:Hg;
    [apply IH|].
  constructor; [|apply IH]. split; [discriminate|].
  rewrite <- Hg. apply line_head_no_newline.
Qed.

Lemma names_within_count (p q s : str) :
  border_free p ->
  length (findall_after (p ++ q) s) <= count p s.
Proof.
  intros Hfree. rewrite (count_occurrences p s Hfree).
  unfold findall_after.
  pose proof (findall_from_occurrences (p ++ q) s 0).
  pose proof (occurrences_app p q s). lia.
Qed.

Lemma startswith_before_newline (p : str) :
  ~ In newline p ->
  forall a b, startswith p (a ++ newline :: b) = startswith p a.
Proof.
  induction p as [|x p IH]; intros Hp a b; [reflexivity|].
  assert (Hx : N.eqb x newline = false)
    by (apply N.eqb_neq; intros ->; apply Hp; now left).
  assert (Hp' : ~ In newline p) by (intros H; apply Hp; now right).
  destruct a as [|c a]; cbn [app startswith].
  - now rewrite Hx.
  - now rewrite (IH Hp').
Qed.

Lemma line_head_before_newline (a b : str) :
  line_head (a ++ newline :: b) = line_head a.
Proof.
  induction a as [|c a IH]; cbn [app line_head].
  - now rewrite N.eqb_refl.
  - destruct (N.eqb c newline); [reflexivity | now rewrite IH].
Qed.

Lemma line_head_length (s : str) : length (line_head s) <= length s.
Proof.
  induction s as [|c s IH]; [reflexivity|]. cbn [line_head].
  destruct (N.eqb c newline); cbn [length]; lia.
Qed.

Lemma count_from_joined (p : str) :
  p <> [] -> ~ In newline p ->
  forall a k b,
    k <= length a ->
    count_from p (a ++ newline :: b) k
    = count_from p a k + count_from p b 0.
Proof.
  intros Hne Hp. induction a as [|c a IH]; intros k b Hk.
  - assert (k = 0) as -> by (cbn [length] in Hk; lia).
    cbn [app count_from].
    pose proof (startswith_before_newline p Hp [] b) as E.
    cbn [app] in E. rewrite E.
    destruct p; [congruence | reflexivity].
  - cbn [app count_from]. destruct k as [|k].
    + change (c :: a ++ newline :: b) with ((c :: a) ++ newline :: b).
      rewrite (startswith_before_newline p Hp (c :: a) b).
      destruct (startswith p (c :: a)) eqn:Hs.
      * apply startswith_length in Hs. cbn [length] in Hs.
        rewrite IH by lia. reflexivity.
      * apply IH. lia.
    + apply IH. cbn [length] in Hk. lia.
Qed.

Lemma findall_from_joined (p : str) :
  p <> [] -> ~ In newline p ->
  forall a k b,
    k <= length a ->
    findall_from p (a ++ newline :: b) k
    = findall_from p a k ++ findall_from p b 0.
Proof.
  intros Hne Hp. induction a as [|c a IH]; intros k b Hk.
  - assert (k = 0) as -> by (cbn [length] in Hk; lia).
    cbn [app findall_from].
    pose proof (startswith_before_newline p Hp [] b) as E.
    cbn [app] in E. rewrite E.
    destruct p; [congruence | reflexivity].
  - cbn [app findall_from]. destruct k as [|k].
    + change (c :: a ++ newline :: b) with ((c :: a) ++ newline :: b).
      rewrite (startswith_before_newline p Hp (c :: a) b).
      destruct (startswith p (c :: a)) eqn:Hs; [|apply IH; lia].
      apply startswith_length in Hs.
      rewrite skipn_app.
      replace (length p - length (c :: a)) with 0 by lia.
      cbn [skipn]. rewrite line_head_before_newline.
      pose proof (line_head_length (skipn (length p) (c :: a))) as Hlen.
      rewrite length_skipn in Hlen.
      destruct (line_head (skipn (length p) (c :: a))) as [|x g].
      * apply IH. lia.
      * cbn [app]. f_equal. apply IH. cbn [length] in *. lia.
    + apply IH. cbn [length] in Hk. lia.
Qed.

Section LogParsingFacts.

Variable read_text : string -> result str.
Variable decimal : char -> option N.
Variable max_str_digits : nat.

Local Abbreviation parse :=
  (parse_unittest_log read_text decimal max_str_digits).

Lemma digits_value_nonneg (ds : str) : (0 <= digits_value decimal ds)%Z.
Proof.
  unfold digits_value.
  assert (H : forall acc, (0 <= acc)%Z ->
            (0 <= fold_left
                    (fun acc c =>
                       10 * acc
                       + match decimal c with
                         | Some d => Z.of_N d
                         | None => 0
                         end) ds acc)%Z).
  { induction ds as [|c ds IH]; intros a Ha; [exact Ha|].
    cbn [fold_left]. apply IH. destruct (decimal c); lia. }
  apply H. lia.
Qed.

Lemma search_ran_none (s : str) :
  occurrences (lit "Ran ") s = 0 -> search_ran decimal s = None.
Proof.
  induction s as [|c s IH]; [reflexivity|].
  cbn [occurrences search_ran]. unfold match_ran.
  destruct (startswith (lit "Ran ") (c :: s)); [discriminate|].
  cbn [Nat.add]. exact IH.
Qed.

(** The two ways [parse_unittest_log] returns. *)
Lemma parse_returns_inv (self self' : ReportingAgent) (s : Summary) :
  parse self = (Returns s, self') ->
  exists content base,
    read_text (log_path self) = Ok content
    /\ s = finish_summary content base
    /\ self' = with_results self s
    /\ raw_log base = content /\ skipped base = 0%Z
    /\ (0 <= tests_run base)%Z
    /\ (search_ran decimal content = None -> tests_run base = 0%Z).
Proof.
  unfold parse_unittest_log.
  destruct (read_text (log_path self)) as [content|e]; [|discriminate].
  destruct (search_ran decimal content) as [g|] eqn:Hsearch.
  - unfold int_of_digits.
    destruct ((0 <? max_str_digits)%nat && (max_str_digits <? length g)%nat);
      [discriminate|].
    intros H. injection H as <- <-.
    exists content, (set_tests_run (digits_value decimal g) (blank_summary content)).
    split; [reflexivity|]. split; [reflexivity|]. split; [reflexivity|].
    split; [reflexivity|]. split; [reflexivity|].
    split; [apply digits_value_nonneg|].
    intros Hnone. rewrite Hsearch in Hnone. discriminate Hnone.
  - intros H. injection H as <- <-.
    exists content, (blank_summary content).
    split; [reflexivity|]. split; [reflexivity|]. split; [reflexivity|].
    split; [reflexivity|]. split; [reflexivity|].
    split; [cbn; lia | reflexivity].
Qed.

Lemma finish_summary_fields (content : str) (base : Summary) :
  let s := finish_summary content base in
  failures s = Z.of_nat (count (lit "FAIL:") content)
  /\ errors s = Z.of_nat (count (lit "ERROR:") content)
  /\ failed_tests s = findall_after (lit "FAIL: ") content
  /\ error_tests s = findall_after (lit "ERROR: ") content
  /\ tests_run s = tests_run base
  /\ skipped s = skipped base
  /\ raw_log s = raw_log base
  /\ recommendations s = default_recommendations
  /\ status s
     = if ((failures s >? 0) || (errors s >? 0))%Z then lit "FAILED"
       else lit "PASSED".
Proof.
  unfold finish_summary. cbv zeta.
  cbn [failures errors set_failures set_errors set_failed_tests set_error_tests].
  destruct ((Z.of_nat (count (lit "FAIL:") content) >? 0)
            || (Z.of_nat (count (lit "ERROR:") content) >? 0))%Z eqn:Hfail;
    cbn [failures errors failed_tests error_tests tests_run skipped raw_log
         recommendations status set_failures set_errors set_failed_tests
         set_error_tests set_status set_recommendations];
    rewrite ?Hfail; repeat split.
Qed.

(** X9. In the summary returned for a log, the number of failures is at
    least the number of failed-test names, and the number of errors at least
    the number of error-test names: every name comes from one counted
    occurrence of ["FAIL:"] (of ["ERROR:"]), while an occurrence with nothing
    after it on its line, or inside another name, is counted without
    giving a name. *)
Theorem parse_counts_cover_names
        (self self' : ReportingAgent) (s : Summary) :
  parse self = (Returns s, self') ->
  (Z.of_nat (length (failed_tests s)) <= failures s)%Z
  /\ (Z.of_nat (length (error_tests s)) <= errors s)%Z.
Proof.
  intros Hrun.
  destruct (parse_returns_inv self self' s Hrun) as (content & base & _ & -> & _).
  destruct (finish_summary_fields content base)
    as (-> & -> & -> & -> & _).
  change (lit "FAIL: ") with (lit "FAIL:" ++ lit " ").
  change (lit "ERROR: ") with (lit "ERROR:" ++ lit " ").
  pose proof (names_within_count (lit "FAIL:") (lit " ") content border_free_FAIL).
  pose proof (names_within_count (lit "ERROR:") (lit " ") content border_free_ERROR).
  lia.
Qed.

Lemma line_head_split (s : str) :
  exists tail,
    s = line_head s ++ tail /\ (tail = [] \/ exists rest, tail = newline :: rest).
Proof.
  induction s as [|c s (tail & Hs & Htail)].
  - exists []. split; [reflexivity | now left].
  - cbn [line_head]. destruct (N.eqb c newline) eqn:Hc.
    + apply N.eqb_eq in Hc. subst c. exists (newline :: s).
      split; [reflexivity | right; now exists s].
    + exists tail. split; [cbn [app]; now rewrite <- Hs | exact Htail].
Qed.

Lemma findall_from_rest_of_line (p : str) :
  forall s k before,
    Forall (fun t => rest_of_line p t (before ++ s)) (findall_from p s k).
Proof.
  induction s as [|c s IH]; intros k before; [constructor|].
  assert (Hnext : forall k', Forall (fun t => rest_of_line p t (before ++ c :: s))
                                    (findall_from p s k')).
  { intros k'. specialize (IH k' (before ++ [c])).
    now rewrite <- app_assoc in IH. }
  cbn [findall_from]. destruct k as [|k]; [|apply Hnext].
  destruct (startswith p (c :: s)) eqn:Hp; [|apply Hnext].
  destruct (line_head (skipn (length p) (c :: s))) as [|x g] eqn:Hg;
    [apply Hnext|].
  constructor; [|apply Hnext].
  destruct (line_head_split (skipn (length p) (c :: s))) as (tail & Hs & Htail).
  exists before, tail. split; [|exact Htail].
  rewrite (startswith_eq p (c :: s) Hp) at 1. rewrite Hs at 1.
  now rewrite Hg.
Qed.

(** X10. Every failed-test name of a returned summary is the rest of one
    line of the log: it is not empty, it holds no line feed, and in the log
    it follows an occurrence of ["FAIL: "] and runs up to the line feed that
    ends the line, or to the end of the log.  The same holds of every
    error-test name after ["ERROR: "]. *)
Theorem parse_names_within_a_line
        (self self' : ReportingAgent) (s : Summary) :
  parse self = (Returns s, self') ->
  Forall (fun t => t <> [] /\ ~ In newline t
                   /\ rest_of_line (lit "FAIL: ") t (raw_log s))
         (failed_tests s)
  /\ Forall (fun t => t <> [] /\ ~ In newline t
                      /\ rest_of_line (lit "ERROR: ") t (raw_log s))
            (error_tests s).
Proof.
  intros Hrun.
  destruct (parse_returns_inv self self' s Hrun)
    as (content & base & _ & -> & _ & Hraw & _).
  destruct (finish_summary_fields content base)
    as (_ & _ & -> & -> & _ & _ & -> & _).
  rewrite Hraw.
  split; apply Forall_forall; intros t Ht.
  - pose proof (findall_from_names (lit "FAIL: ") content 0) as Hshape.
    pose proof (findall_from_rest_of_line (lit "FAIL: ") content 0 []) as Hline.
    rewrite Forall_forall in Hshape, Hline.
    destruct (Hshape t Ht) as [Hne Hnl]. split; [exact Hne|].
    split; [exact Hnl | exact (Hline t Ht)].
  - pose proof (findall_from_names (lit "ERROR: ") content 0) as Hshape.
    pose proof (findall_from_rest_of_line (lit "ERROR: ") content 0 []) as Hline.
    rewrite Forall_forall in Hshape, Hline.
    destruct (Hshape t Ht) as [Hne Hnl]. split; [exact Hne|].
    split; [exact Hnl | exact (Hline t Ht)].
Qed.

Lemma finish_summary_status (content : str) (base : Summary) :
  let s := finish_summary content base in
  (0 <= failures s)%Z /\ (0 <= errors s)%Z
  /\ (status s = lit "PASSED" <-> failures s = 0%Z /\ errors s = 0%Z)
  /\ (status s = lit "FAILED" <-> (0 < failures s)%Z \/ (0 < errors s)%Z).
Proof.
  destruct (finish_summary_fields content base)
    as (Hfail & Herr & _ & _ & _ & _ & _ & _ & Hstatus).
  cbv zeta in *.
  set (s := finish_summary content base) in *.
  assert (H0f : (0 <= failures s)%Z) by lia.
  assert (H0e : (0 <= errors s)%Z) by lia.
  split; [exact H0f|]. split; [exact H0e|]. rewrite Hstatus.
  split; destruct (failures s >? 0)%Z eqn:E1; destruct (errors s >? 0)%Z eqn:E2;
    cbn [orb]; split; try discriminate; try lia; reflexivity.
Qed.

(** X11. A returned summary never keeps the initial status ["UNKNOWN"]: its
    status is ["PASSED"] when both counters are 0 and ["FAILED"] otherwise;
    the counters are never negative, and a summary that says ["PASSED"]
    lists no failed test and no error test. *)
Theorem parse_status_consistent
        (self self' : ReportingAgent) (s : Summary) :
  parse self = (Returns s, self') ->
  (0 <= failures s)%Z /\ (0 <= errors s)%Z
  /\ (status s = lit "PASSED" <-> failures s = 0%Z /\ errors s = 0%Z)
  /\ (status s = lit "FAILED" <-> (0 < failures s)%Z \/ (0 < errors s)%Z)
  /\ (status s = lit "PASSED" -> failed_tests s = [] /\ error_tests s = []).
Proof.
  intros Hrun.
  destruct (parse_returns_inv self self' s Hrun) as (content & base & _ & -> & _).
  destruct (finish_summary_status content base) as (H0f & H0e & Hpassed & Hfailed).
  split; [exact H0f|]. split; [exact H0e|]. split; [exact Hpassed|].
  split; [exact Hfailed|].
  intros Hp. apply Hpassed in Hp. destruct Hp as [H1 H2].
  destruct (finish_summary_fields content base)
    as (Hfail & Herr & Hft & Het & _).
  cbv zeta in *. rewrite Hft, Het.
  change (lit "FAIL: ") with (lit "FAIL:" ++ lit " ").
  change (lit "ERROR: ") with (lit "ERROR:" ++ lit " ").
  pose proof (names_within_count (lit "FAIL:") (lit " ") content border_free_FAIL).
  pose proof (names_within_count (lit "ERROR:") (lit " ") content border_free_ERROR).
  split; apply length_zero_iff_nil; lia.
Qed.

Lemma match_digits_test_sound (s g : str) :
  match_digits_test decimal s = Some g ->
  exists after,
    s = g ++ lit " test" ++ after
    /\ Forall (fun c => is_digit decimal c = true) g
    /\ 0 < length g.
Proof.
  revert g. induction s as [|c s IH]; intros g Hm; [discriminate Hm|].
  cbn [match_digits_test] in Hm.
  destruct (is_digit decimal c) eqn:Hc; [|discriminate Hm].
  destruct (match_digits_test decimal s) as [g'|].
  - injection Hm as <-. destruct (IH g' eq_refl) as (after & -> & Hg & _).
    exists after. split; [reflexivity|].
    split; [now constructor | cbn [length]; lia].
  - destruct (startswith (lit " test") s) eqn:Htest; [|discriminate Hm].
    injection Hm as <-. exists (skipn (length (lit " test")) s).
    split; [|split; [now repeat constructor | cbn [length]; lia]].
    cbn [app]. f_equal. now apply startswith_eq.
Qed.

Lemma search_ran_sound (s ds : str) :
  search_ran decimal s = Some ds ->
  exists before after,
    s = before ++ lit "Ran " ++ ds ++ lit " test" ++ after
    /\ Forall (fun c => is_digit decimal c = true) ds
    /\ 0 < length ds.
Proof.
  induction s as [|c s IH]; cbn [search_ran]; unfold match_ran.
  - cbn. discriminate.
  - destruct (startswith (lit "Ran ") (c :: s)) eqn:Hran.
    + destruct (match_digits_test decimal (skipn 4 (c :: s))) as [g|] eqn:Hm.
      * intros H. injection H as <-.
        destruct (match_digits_test_sound _ _ Hm) as (after & Hs & Hg & Hlen).
        exists [], after. split; [|now split].
        rewrite (startswith_eq _ _ Hran) at 1.
        change (length (lit "Ran ")) with 4. now rewrite Hs.
      * intros H. destruct (IH H) as (before & after & -> & Hg & Hlen).
        exists (c :: before), after. now repeat split.
    + intros H. destruct (IH H) as (before & after & -> & Hg & Hlen).
      exists (c :: before), after. now repeat split.
Qed.

(** X12. How [parse_unittest_log] can fail.  An exception of the file read
    goes to the caller and leaves the agent as it was.  Once the file is
    read, the only failure is the [ValueError] of [int], and it needs a
    count line, ["Ran "], digits, [" test"], whose run of digits is longer
    than [int] converts: a log read with no conversion limit, or shorter
    than the limit plus ten characters, always gives a summary.  When
    [ValueError] is raised the agent is left holding the initial summary, of
    status ["UNKNOWN"]. *)
Theorem parse_outcomes (self : ReportingAgent) :
  (forall e,
      read_text (log_path self) = Exc e ->
      parse self = (Raises (ReadError e), self))
  /\ (forall content,
        read_text (log_path self) = Ok content ->
        max_str_digits = 0 \/ length content < max_str_digits + 10 ->
        exists s,
          parse self = (Returns s, with_results self s)
          /\ raw_log s = content)
  /\ (forall self',
        parse self = (Raises ValueError, self') ->
        exists content before ds after,
          read_text (log_path self) = Ok content
          /\ content = before ++ lit "Ran " ++ ds ++ lit " test" ++ after
          /\ Forall (fun c => is_digit decimal c = true) ds
          /\ 0 < max_str_digits < length ds
          /\ self' = with_results self (blank_summary content)
          /\ status (blank_summary content) = lit "UNKNOWN")
  /\ (forall content,
        read_text (log_path self) = Ok content ->
        (exists s,
            parse self = (Returns s, with_results self s)
            /\ raw_log s = content)
        \/ parse self
           = (Raises ValueError, with_results self (blank_summary content))).
Proof.
  split; [|split; [|split]]; cycle 3.
  - intros content Hread. unfold parse_unittest_log. rewrite Hread.
    destruct (search_ran decimal content) as [ds|].
    + destruct (int_of_digits decimal max_str_digits ds) as [n|].
      * left. eexists. split; [reflexivity|].
        apply (finish_summary_fields content).
      * now right.
    + left. eexists. split; [reflexivity|].
      apply (finish_summary_fields content).
  - intros e Hread. unfold parse_unittest_log. now rewrite Hread.
  - intros content Hread Hshort. unfold parse_unittest_log. rewrite Hread.
    destruct (search_ran decimal content) as [ds|] eqn:Hsearch.
    + destruct (search_ran_sound _ _ Hsearch)
        as (before & after & Hcontent & _ & _).
      apply (f_equal (@length char)) in Hcontent.
      rewrite !length_app in Hcontent.
      change (length (lit "Ran ")) with 4 in Hcontent.
      change (length (lit " test")) with 5 in Hcontent.
      unfold int_of_digits.
      destruct ((0 <? max_str_digits)%nat && (max_str_digits <? length ds)%nat)
        eqn:Hlimit.
      * apply andb_prop in Hlimit. destruct Hlimit as [H0 H1].
        apply Nat.ltb_lt in H0, H1. lia.
      * eexists. split; [reflexivity|].
        apply (finish_summary_fields content).
    + eexists. split; [reflexivity|].
      apply (finish_summary_fields content).
  - intros self' Hrun. unfold parse_unittest_log in Hrun.
    destruct (read_text (log_path self)) as [content|e]; [|discriminate Hrun].
    destruct (search_ran decimal content) as [ds|] eqn:Hsearch;
      [|discriminate Hrun].
    unfold int_of_digits in Hrun.
    destruct ((0 <? max_str_digits)%nat && (max_str_digits <? length ds)%nat)
      eqn:Hlimit; [|discriminate Hrun].
    injection Hrun as <-.
    apply andb_prop in Hlimit. destruct Hlimit as [H0 H1].
    apply Nat.ltb_lt in H0, H1.
    destruct (search_ran_sound _ _ Hsearch) as (before & after & Hc & Hds & _).
    exists content, before, ds, after.
    split; [reflexivity|]. split; [exact Hc|]. split; [exact Hds|].
    split; [lia|]. split; reflexivity.
Qed.

(** X13. Whatever the log says, a returned summary has [skipped] equal to 0
    and the same six recommendations; its number of tests run is never
    negative, and is 0 when the log nowhere holds ["Ran "]. *)
Theorem parse_fields_not_read_from_log
        (self self' : ReportingAgent) (s : Summary) :
  parse self = (Returns s, self') ->
  skipped s = 0%Z
  /\ recommendations s = default_recommendations
  /\ length (recommendations s) = 6
  /\ (0 <= tests_run s)%Z
  /\ (occurrences (lit "Ran ") (raw_log s) = 0 -> tests_run s = 0%Z).
Proof.
  intros Hrun.
  destruct (parse_returns_inv self self' s Hrun)
    as (content & base & _ & -> & _ & Hraw & Hskip & Hrun0 & Hnone).
  destruct (finish_summary_fields content base)
    as (_ & _ & _ & _ & -> & -> & -> & -> & _).
  split; [exact Hskip|]. split; [reflexivity|]. split; [reflexivity|].
  split; [exact Hrun0|].
  rewrite Hraw. intros Hocc. apply Hnone. now apply search_ran_none.
Qed.

(** X14. Joining two logs by a line feed adds up the summaries: for a log
    whose text is that of a first log, a line feed, and that of a second
    log, the failures and the errors are the sums of those of the two logs,
    the failed-test and error-test names are those of the first log followed
    by those of the second, and the status is ["PASSED"] exactly when both
    parts are ["PASSED"]. *)
Theorem parse_of_joined_logs
        (self1 self2 self12 self1' self2' self12' : ReportingAgent)
        (s1 s2 s12 : Summary) :
  parse self1 = (Returns s1, self1') ->
  parse self2 = (Returns s2, self2') ->
  parse self12 = (Returns s12, self12') ->
  raw_log s12 = raw_log s1 ++ newline :: raw_log s2 ->
  failures s12 = (failures s1 + failures s2)%Z
  /\ errors s12 = (errors s1 + errors s2)%Z
  /\ failed_tests s12 = failed_tests s1 ++ failed_tests s2
  /\ error_tests s12 = error_tests s1 ++ error_tests s2
  /\ (status s12 = lit "PASSED"
      <-> status s1 = lit "PASSED" /\ status s2 = lit "PASSED").
Proof.
  intros Hrun1 Hrun2 Hrun12 Hraw.
  destruct (parse_returns_inv _ _ _ Hrun1)
    as (a & base1 & _ & Hs1 & _ & Hraw1 & _).
  destruct (parse_returns_inv _ _ _ Hrun2)
    as (b & base2 & _ & Hs2 & _ & Hraw2 & _).
  destruct (parse_returns_inv _ _ _ Hrun12)
    as (ab & base12 & _ & Hs12 & _ & Hraw12 & _).
  pose proof (finish_summary_status a base1) as (H1f & H1e & Hp1 & _).
  pose proof (finish_summary_status b base2) as (H2f & H2e & Hp2 & _).
  pose proof (finish_summary_status ab base12) as (_ & _ & Hp12 & _).
  destruct (finish_summary_fields a base1)
    as (Hf1 & He1 & Hft1 & Het1 & _ & _ & Hr1 & _).
  destruct (finish_summary_fields b base2)
    as (Hf2 & He2 & Hft2 & Het2 & _ & _ & Hr2 & _).
  destruct (finish_summary_fields ab base12)
    as (Hf12 & He12 & Hft12 & Het12 & _ & _ & Hr12 & _).
  cbv zeta in *. rewrite <- Hs1 in *. rewrite <- Hs2 in *. rewrite <- Hs12 in *.
  assert (Hab : ab = a ++ newline :: b) by congruence.
  assert (Hno : forall p, In p [lit "FAIL:"; lit "ERROR:"; lit "FAIL: "; lit "ERROR: "] ->
                          p <> [] /\ ~ In newline p).
  { intros p Hin. cbn [In] in Hin.
    destruct Hin as [<-|[<-|[<-|[<-|[]]]]];
      (split; [discriminate|]); vm_compute; intuition discriminate. }
  assert (Hcount : forall p, In p [lit "FAIL:"; lit "ERROR:"; lit "FAIL: "; lit "ERROR: "] ->
                             count p ab = count p a + count p b).
  { intros p Hin. destruct (Hno p Hin) as [Hne Hnl]. rewrite Hab.
    unfold count. apply count_from_joined; [assumption | assumption | lia]. }
  assert (Hfind : forall p, In p [lit "FAIL:"; lit "ERROR:"; lit "FAIL: "; lit "ERROR: "] ->
                            findall_after p ab
                            = findall_after p a ++ findall_after p b).
  { intros p Hin. destruct (Hno p Hin) as [Hne Hnl]. rewrite Hab.
    unfold findall_after.
    apply findall_from_joined; [assumption | assumption | lia]. }
  assert (HF : failures s12 = (failures s1 + failures s2)%Z).
  { rewrite Hf12, Hf1, Hf2, Hcount by (cbn; tauto). lia. }
  assert (HE : errors s12 = (errors s1 + errors s2)%Z).
  { rewrite He12, He1, He2, Hcount by (cbn; tauto). lia. }
  split; [exact HF|]. split; [exact HE|].
  split; [rewrite Hft12, Hft1, Hft2; apply Hfind; cbn; tauto|].
  split; [rewrite Het12, Het1, Het2; apply Hfind; cbn; tauto|].
  rewrite Hp12, Hp1, Hp2. lia.
Qed.

End LogParsingFacts.

Lemma parse_counts_cover_names_witness :
  exists s self',
    parse_unittest_log sample_read_text ascii_decimal 4300
      (agent_on "failing.log") = (Returns s, self')
    /\ length (failed_tests s) = 1 /\ failures s = 2%Z
    /\ (Z.of_nat (length (failed_tests s)) <= failures s)%Z
    /\ (Z.of_nat (length (error_tests s)) <= errors s)%Z.
Proof.
  do 2 eexists. split; [vm_compute; reflexivity|].
  split; [reflexivity|]. split; [reflexivity|].
  eapply (parse_counts_cover_names sample_read_text ascii_decimal 4300
            (agent_on "failing.log")).
  vm_compute. reflexivity.
Defined.

Lemma parse_names_within_a_line_witness :
  exists s self',
    parse_unittest_log sample_read_text ascii_decimal 4300
      (agent_on "failing.log") = (Returns s, self')
    /\ failed_tests s = [lit "test_add (t.T)"]
    /\ error_tests s = [lit "test_io (t.T)"]
    /\ Forall (fun t => t <> [] /\ ~ In newline t
                        /\ rest_of_line (lit "FAIL: ") t (raw_log s))
              (failed_tests s)
    /\ Forall (fun t => t <> [] /\ ~ In newline t
                        /\ rest_of_line (lit "ERROR: ") t (raw_log s))
              (error_tests s).
Proof.
  do 2 eexists. split; [vm_compute; reflexivity|].
  split; [reflexivity|]. split; [reflexivity|].
  eapply (parse_names_within_a_line sample_read_text ascii_decimal 4300
            (agent_on "failing.log")).
  vm_compute. reflexivity.
Defined.

Lemma parse_status_consistent_witness :
  exists s self',
    parse_unittest_log sample_read_text ascii_decimal 4300
      (agent_on "passing.log") = (Returns s, self')
    /\ tests_run s = 12%Z
    /\ status s = lit "PASSED"
    /\ failed_tests s = [] /\ error_tests s = [].
Proof.
  do 2 eexists. split; [vm_compute; reflexivity|].
  split; [reflexivity|]. split; [reflexivity|].
  eapply (parse_status_consistent sample_read_text ascii_decimal 4300
            (agent_on "passing.log")).
  - vm_compute. reflexivity.
  - reflexivity.
Defined.

Lemma parse_outcomes_witness :
  parse_unittest_log sample_read_text ascii_decimal 4300 (agent_on "absent.log")
  = (Raises (ReadError FileNotFoundError), agent_on "absent.log")
  /\ (exists s,
        parse_unittest_log sample_read_text ascii_decimal 4300
          (agent_on "failing.log")
        = (Returns s, with_results (agent_on "failing.log") s)
        /\ raw_log s = failing_log)
  /\ (exists content before ds after,
        sample_read_text "long.log" = Ok content
        /\ content = before ++ lit "Ran " ++ ds ++ lit " test" ++ after
        /\ Forall (fun c => is_digit ascii_decimal c = true) ds
        /\ 0 < 4300 < length ds
        /\ snd (parse_unittest_log sample_read_text ascii_decimal 4300
                  (agent_on "long.log"))
           = with_results (agent_on "long.log") (blank_summary content)
        /\ status (blank_summary content) = lit "UNKNOWN").
Proof.
  split; [|split].
  - apply (parse_outcomes sample_read_text ascii_decimal 4300
             (agent_on "absent.log")).
    reflexivity.
  - apply (parse_outcomes sample_read_text ascii_decimal 4300
             (agent_on "failing.log")).
    + reflexivity.
    + right. apply Nat.ltb_lt. vm_compute. reflexivity.
  - destruct (parse_outcomes sample_read_text ascii_decimal 4300
                (agent_on "long.log")) as (_ & _ & Hraise & _).
    destruct (Hraise (snd (parse_unittest_log sample_read_text ascii_decimal
                             4300 (agent_on "long.log"))))
      as (content & before & ds & after & H1 & H2 & H3 & H4 & H5 & H6).
    + vm_compute. reflexivity.
    + exists content, before, ds, after.
      split; [exact H1|]. split; [exact H2|]. split; [exact H3|].
      split; [exact H4|]. split; [exact H5 | exact H6].
Defined.

Lemma parse_fields_not_read_from_log_witness :
  exists s self',
    parse_unittest_log sample_read_text ascii_decimal 4300
      (agent_on "failing.log") = (Returns s, self')
    /\ skipped s = 0%Z
    /\ recommendations s = default_recommendations
    /\ length (recommendations s) = 6
    /\ (0 <= tests_run s)%Z.
Proof.
  do 2 eexists. split; [vm_compute; reflexivity|].
  pose proof (parse_fields_not_read_from_log sample_read_text ascii_decimal 4300
                (agent_on "failing.log") _ _ eq_refl) as (H1 & H2 & H3 & H4 & _).
  split; [exact H1|]. split; [exact H2|]. split; [exact H3|]. exact H4.
Defined.

Lemma parse_of_joined_logs_witness :
  exists s1 s2 s12,
    fst (parse_unittest_log sample_read_text ascii_decimal 4300
           (agent_on "failing.log")) = Returns s1
    /\ fst (parse_unittest_log sample_read_text ascii_decimal 4300
              (agent_on "passing.log")) = Returns s2
    /\ fst (parse_unittest_log sample_read_text ascii_decimal 4300
              (agent_on "joined.log")) = Returns s12
    /\ failures s12 = (failures s1 + failures s2)%Z
    /\ errors s12 = (errors s1 + errors s2)%Z
    /\ failed_tests s12 = failed_tests s1 ++ failed_tests s2
    /\ error_tests s12 = error_tests s1 ++ error_tests s2
    /\ (status s12 = lit "PASSED"
        <-> status s1 = lit "PASSED" /\ status s2 = lit "PASSED").
Proof.
  do 3 eexists.
  split; [vm_compute; reflexivity|].
  split; [vm_compute; reflexivity|].
  split; [vm_compute; reflexivity|].
  eapply (parse_of_joined_logs sample_read_text ascii_decimal 4300
            (agent_on "failing.log") (agent_on "passing.log")
            (agent_on "joined.log")).
  - vm_compute. reflexivity.
  - vm_compute. reflexivity.
  - vm_compute. reflexivity.
  - vm_compute. reflexivity.
Defined.
